(** * Transparency-in-coverage MRF flattener: a shallow embedding

    The Python module [processors/mrfutils.py] (and the later variant of its
    helpers in [mrfutils/helpers.py]) flattens a machine-readable file into
    CSV tables.  This development embeds the functions of that module as
    executable Rocq functions and proves properties of them.

    Conventions.
    - A Python [str] is a [string]; each character is one code point below
      256.
    - A Python exception is a constructor of [exn]; a function that may raise
      returns a [result].
    - A generator over the (finite) event stream is denoted by the list of
      the values it yields together with the way it ends ([gen]).
    - A parser (the generator returned by [ijson.parse]) is the list of the
      events still to come together with the way the tokenizer ends. *)

From Stdlib Require Import List String Ascii ZArith Lia Bool Arith.
From Stdlib Require Import Permutation Sorted DecimalString.
From Stdlib Require Strings.Byte.
Import ListNotations.
Open Scope string_scope.
Open Scope list_scope.

Set Implicit Arguments.
Set Warnings "-register-all".

(* ================================================================== *)
(** * Exceptions and results *)

Inductive exn : Type :=
| StopIteration
| InvalidMRF
| PlainException      (* [raise Exception(...)] *)
| KeyError
| IndexError
| TypeError
| AttributeError
| ValueError
| RuntimeError
| AssertionError
| JSONError           (* raised by the ijson tokenizer on malformed input *)
| OSError             (* raised by [open] / the csv writer *)
| QueueNeverDrains    (* [await queue.join()] does not return *)
| NotModelled.        (* the run leaves the fragment of Python embedded here *)

Inductive result (A : Type) : Type :=
| Ok (a : A)
| Raise (e : exn).
Arguments Ok {A} a.
Arguments Raise {A} e.

Definition bind {A B} (r : result A) (k : A -> result B) : result B :=
  match r with
  | Ok a => k a
  | Raise e => Raise e
  end.

Declare Scope py_scope.
Delimit Scope py_scope with py.
Notation "x <- r ;; k" := (bind r (fun x => k))
  (at level 61, r at next level, right associativity) : py_scope.
Notation "' p <- r ;; k" := (bind r (fun x => let p := x in k))
  (at level 61, p pattern, r at next level, right associativity) : py_scope.
Open Scope py_scope.

Definition is_ok {A} (r : result A) : bool :=
  match r with Ok _ => true | Raise _ => false end.

Fixpoint mapM {A B} (f : A -> result B) (l : list A) : result (list B) :=
  match l with
  | [] => Ok []
  | a :: l' => b <- f a ;; bs <- mapM f l' ;; Ok (b :: bs)
  end.

(* ================================================================== *)
(** * Python values that come out of JSON *)

(** A finite binary64 value [(-1)^neg * mant * 2^expo]; [mant = 0] with
    either sign is a zero.  The yajl tokenizer rejects literals that
    overflow, so the floats of an event stream are finite. *)
Record pyfloat : Type := mkFloat { f_neg : bool; f_mant : N; f_expo : Z }.

Inductive json : Type :=
| JNull
| JBool (b : bool)
| JInt (z : Z)
| JFloat (f : pyfloat)
| JStr (s : string)
| JArr (l : list json)
| JObj (d : list (string * json)).

(** A Python [dict] whose keys are strings, in insertion order. *)
Definition dict := list (string * json).

Fixpoint dict_get (d : dict) (k : string) : option json :=
  match d with
  | [] => None
  | (k', v) :: d' => if String.eqb k' k then Some v else dict_get d' k
  end.

(** [d[k] = v]: an existing key keeps its position, a new one goes last. *)
Fixpoint dict_set (d : dict) (k : string) (v : json) : dict :=
  match d with
  | [] => [(k, v)]
  | (k', v') :: d' =>
      if String.eqb k' k then (k', v) :: d' else (k', v') :: dict_set d' k v
  end.

Fixpoint dict_pop (d : dict) (k : string) : dict :=
  match d with
  | [] => []
  | (k', v') :: d' =>
      if String.eqb k' k then d' else (k', v') :: dict_pop d' k
  end.

Definition dict_keys (d : dict) : list string := map fst d.

(** [{k: v for ...}] and [dict.update]: successive assignments. *)
Definition dict_of_items (kvs : list (string * json)) : dict :=
  fold_left (fun d kv => dict_set d (fst kv) (snd kv)) kvs [].

Definition dict_update (d : dict) (kvs : list (string * json)) : dict :=
  fold_left (fun d kv => dict_set d (fst kv) (snd kv)) kvs d.

(** Truth value of a Python object ([if x:], [not x]). *)
Definition truthy (v : json) : bool :=
  match v with
  | JNull => false
  | JBool b => b
  | JInt z => negb (Z.eqb z 0)
  | JFloat f => negb (N.eqb (f_mant f) 0)
  | JStr s => negb (String.eqb s "")
  | JArr l => match l with [] => false | _ => true end
  | JObj d => match d with [] => false | _ => true end
  end.

Definition truthy_opt (o : option json) : bool :=
  match o with Some v => truthy v | None => false end.

(** [x.get(k)] — only a dict has the method. *)
Definition py_get (v : json) (k : string) : result (option json) :=
  match v with
  | JObj d => Ok (dict_get d k)
  | _ => Raise AttributeError
  end.

(** [x[k]] with a string key. *)
Definition py_getitem (v : json) (k : string) : result json :=
  match v with
  | JObj d => match dict_get d k with Some x => Ok x | None => Raise KeyError end
  | _ => Raise TypeError
  end.

(** [x[k] = w] with a string key. *)
Definition py_setitem (v : json) (k : string) (w : json) : result json :=
  match v with
  | JObj d => Ok (JObj (dict_set d k w))
  | _ => Raise TypeError
  end.

(** [for y in x]: a list gives its elements, a string its characters, a
    dict its keys; nothing else is iterable. *)
Definition py_iter (v : json) : result (list json) :=
  match v with
  | JArr l => Ok l
  | JStr s => Ok (map (fun c => JStr (String c "")) (list_ascii_of_string s))
  | JObj d => Ok (map (fun kv => JStr (fst kv)) d)
  | _ => Raise TypeError
  end.

(** [x == s] for a string constant [s]. *)
Definition eq_str (v : json) (s : string) : bool :=
  match v with JStr s' => String.eqb s' s | _ => false end.

(* ================================================================== *)
(** * The event stream *)

(** One triple [(prefix, event, value)] of [ijson.parse]. *)
Record triple : Type := mkTriple {
  t_prefix : string;
  t_event : string;
  t_value : json
}.

(** How the generator behaves once its events are consumed: the document
    was complete and the generator stops ([Exhausted]), or it raises
    ([Raises]): the tokenizer because the text is malformed or cut short,
    the input source because the file cannot be opened or read. *)
Inductive ending : Type :=
| Exhausted
| Raises (e : exn).

(** What [next] raises once the events are consumed; a [for] loop ends
    quietly on [StopIteration] and lets the others through. *)
Definition raised_at_end (fin : ending) : exn :=
  match fin with
  | Exhausted => StopIteration
  | Raises e => e
  end.

(** The state of the generator [ijson.parse(f)]. *)
Record parser : Type := mkParser {
  p_events : list triple;
  p_ending : ending
}.

(** A finished generator stays finished. *)
Definition finished : parser := mkParser [] Exhausted.

(** [next(parser)]. *)
Definition next (p : parser) : result triple * parser :=
  match p_events p with
  | t :: rest => (Ok t, mkParser rest (p_ending p))
  | [] => (Raise (raised_at_end (p_ending p)), finished)
  end.

(** [peek(gen)] returns the value peeked at, or [None], and a generator
    chained from that value and [gen]: this one is in the state [gen] was
    in.  [gen] itself has moved on by one value, which matters to a
    caller that keeps using it: it is the third component here. *)
Definition peek (p : parser) : result (option triple * parser * parser) :=
  match next p with
  | (Ok t, advanced) => Ok (Some t, p, advanced)
  | (Raise StopIteration, p') => Ok (None, p', p')
  | (Raise e, _) => Raise e
  end.

(* ================================================================== *)
(** * Stream navigator *)

(** [a == b] where [b] is an optional string argument ([None] when the
    caller left it out) and [a] is a prefix or an event name. *)
Definition str_eq_arg (a : string) (b : option string) : bool :=
  match b with Some s => String.eqb a s | None => false end.

(** [value == to_value]. *)
Definition value_eq_arg (v : json) (b : option string) : bool :=
  match b with
  | Some s => eq_str v s
  | None => match v with JNull => true | _ => false end
  end.

(** [for t in parser: if hit(t): break
     else: raise StopIteration] *)
Fixpoint for_break (hit : triple -> bool) (evs : list triple) (fin : ending)
  : result unit * parser :=
  match evs with
  | [] => (Raise (raised_at_end fin), finished)
  | t :: rest =>
      if hit t then (Ok tt, mkParser rest fin) else for_break hit rest fin
  end.

Definition ffwd (p : parser) (to_prefix to_event to_value : option string)
  : result unit * parser :=
  let step1 :=
    match to_value with
    | None =>
        for_break (fun t => str_eq_arg (t_prefix t) to_prefix
                            && str_eq_arg (t_event t) to_event)
                  (p_events p) (p_ending p)
    | Some _ => (Ok tt, p)
    end in
  match step1 with
  | (Raise e, p1) => (Raise e, p1)
  | (Ok _, p1) =>
      let step2 :=
        match to_prefix with
        | None =>
            for_break (fun t => str_eq_arg (t_event t) to_event
                                && value_eq_arg (t_value t) to_value)
                      (p_events p1) (p_ending p1)
        | Some _ => (Ok tt, p1)
        end in
      match step2 with
      | (Raise e, p2) => (Raise e, p2)
      | (Ok _, p2) =>
          match to_event with
          | None =>
              for_break (fun t => str_eq_arg (t_prefix t) to_prefix
                                  && value_eq_arg (t_value t) to_value)
                        (p_events p2) (p_ending p2)
          | Some _ => (Ok tt, p2)
          end
      end
  end.

(** The reading of a partial pattern: every component that is given has to
    agree, a component left out agrees with anything. *)
Definition pattern_matches (to_prefix to_event to_value : option string)
  (t : triple) : bool :=
  match to_prefix with Some s => String.eqb (t_prefix t) s | None => true end
  && match to_event with Some s => String.eqb (t_event t) s | None => true end
  && match to_value with Some s => eq_str (t_value t) s | None => true end.

Definition wildcards (to_prefix to_event to_value : option string) : nat :=
  (if to_prefix is Some _ then 0 else 1)
  + (if to_event is Some _ then 0 else 1)
  + (if to_value is Some _ then 0 else 1).


(* ================================================================== *)
(** * ijson.ObjectBuilder

    The builder keeps [value] (the root object), [key] (the last map key)
    and [containers], a stack of setters: [initial_set] at the bottom, then
    one setter per container that is still open.  In Python an open
    container is attached to its parent when it starts and is filled in
    place.  Here an entry of the stack holds what its container contains so
    far, without the containers opened inside it, and a mark that says
    where the container hangs; [b_value] hangs the open containers back
    where they belong, which gives the object Python's [builder.value]
    refers to. *)

Inductive frame : Type :=
| FMap (d : dict)
| FArr (l : list json).

Definition json_of_frame (c : frame) : json :=
  match c with FMap d => JObj d | FArr l => JArr l end.

(** Where an open container hangs. *)
Inductive hang : Type :=
| Root                (* it is [builder.value] *)
| Under (k : string)  (* it is [parent[k]] *)
| Last                (* it is the last element of the parent list *)
| Loose.              (* it was popped off [builder.value] *)

Inductive setter : Type :=
| InitialSet
| Open (c : frame) (h : hang).

Record builder : Type := mkBuilder {
  b_root : option json;       (* the last object given to [initial_set] *)
  b_containers : list setter; (* top of the stack first *)
  b_key : option string
}.

(** [ijson.ObjectBuilder()] *)
Definition ObjectBuilder : builder := mkBuilder None [InitialSet] None.

(** Put a finished or partial object [v] where [h] says, in the container
    below. *)
Definition hang_on (v : json) (h : hang) (below : frame) : frame :=
  match h, below with
  | Under k, FMap d => FMap (dict_set d k v)
  | Last, FArr l => FArr (l ++ [v])
  | _, _ => below
  end.

(** The object the stack of open containers amounts to: [acc] is what the
    containers above have been folded into, with its mark. *)
Fixpoint fold_open (acc : option (json * hang)) (cs : list setter)
  : option json :=
  match cs with
  | [] => None
  | InitialSet :: _ =>
      match acc with
      | Some (v, Root) => Some v
      | _ => None
      end
  | Open c h :: rest =>
      let c' := match acc with
                | Some (v, h') => hang_on v h' c
                | None => c
                end in
      fold_open (Some (json_of_frame c', h)) rest
  end.

(** [builder.value]; [None] when the attribute does not exist yet. *)
Definition b_value (b : builder) : option json :=
  match fold_open None (b_containers b) with
  | Some v => Some v
  | None => b_root b
  end.

(** [self.containers[-1](v)] for an object [v] that is complete. *)
Definition call_top (b : builder) (v : json) : result builder :=
  match b_containers b with
  | [] => Raise IndexError
  | InitialSet :: rest => Ok (mkBuilder (Some v) (InitialSet :: rest) (b_key b))
  | Open (FMap d) h :: rest =>
      match b_key b with
      | None => Raise AttributeError
      | Some k => Ok (mkBuilder (b_root b)
                        (Open (FMap (dict_set d k v)) h :: rest) (b_key b))
      end
  | Open (FArr l) h :: rest =>
      Ok (mkBuilder (b_root b) (Open (FArr (l ++ [v])) h :: rest) (b_key b))
  end.

(** [self.containers[-1](new); self.containers.append(setter of new)] for
    a fresh empty container [new]. *)
Definition open_new (b : builder) (new : frame) : result builder :=
  match b_containers b with
  | [] => Raise IndexError
  | InitialSet :: rest =>
      Ok (mkBuilder (b_root b) (Open new Root :: InitialSet :: rest) (b_key b))
  | Open (FMap d) h :: rest =>
      match b_key b with
      | None => Raise AttributeError
      | Some k => Ok (mkBuilder (b_root b)
                        (Open new (Under k) :: Open (FMap d) h :: rest)
                        (b_key b))
      end
  | Open (FArr l) h :: rest =>
      Ok (mkBuilder (b_root b)
            (Open new Last :: Open (FArr l) h :: rest) (b_key b))
  end.

(** [self.containers.pop()]: the container on top stays as it is, where it
    hangs. *)
Definition containers_pop (b : builder) : result builder :=
  match b_containers b with
  | [] => Raise IndexError
  | InitialSet :: rest => Ok (mkBuilder (b_root b) rest (b_key b))
  | Open c Root :: rest =>
      Ok (mkBuilder (Some (json_of_frame c)) rest (b_key b))
  | Open c h :: Open below h' :: rest =>
      Ok (mkBuilder (b_root b)
            (Open (hang_on (json_of_frame c) h below) h' :: rest) (b_key b))
  | Open _ _ :: rest => Ok (mkBuilder (b_root b) rest (b_key b))
  end.

(** [builder.event(event, value)] *)
Definition b_event (b : builder) (event : string) (value : json)
  : result builder :=
  if String.eqb event "map_key" then
    match value with
    | JStr k => Ok (mkBuilder (b_root b) (b_containers b) (Some k))
    | _ => Raise NotModelled
    end
  else if String.eqb event "start_map" then open_new b (FMap [])
  else if String.eqb event "start_array" then open_new b (FArr [])
  else if String.eqb event "end_array" || String.eqb event "end_map"
  then containers_pop b
  else call_top b value.

(** Feeding a run of events to the builder and nothing else. *)
Fixpoint feed (b : builder) (evs : list triple) : result builder :=
  match evs with
  | [] => Ok b
  | t :: rest => b' <- b_event b (t_event t) (t_value t) ;; feed b' rest
  end.

(* ================================================================== *)
(** * Plan extraction *)

(** [value in ('provider_references', 'in_network')] *)
Definition names_section (value : json) : bool :=
  eq_str value "provider_references" || eq_str value "in_network".

(** The loop of [get_plan]; its [else] branch runs when the parser stops
    without the loop having returned. *)
Fixpoint get_plan_loop (b : builder) (evs : list triple) (fin : ending)
  : result json * parser :=
  match evs with
  | [] =>
      match raised_at_end fin with
      | StopIteration => (Raise InvalidMRF, finished)
      | e => (Raise e, finished)
      end
  | t :: rest =>
      match b_event b (t_event t) (t_value t) with
      | Raise e => (Raise e, mkParser rest fin)
      | Ok b' =>
          if names_section (t_value t) then
            match b_value b' with
            | Some v => (Ok v, mkParser rest fin)
            | None => (Raise AttributeError, mkParser rest fin)
            end
          else get_plan_loop b' rest fin
      end
  end.

(** The stream stops, or the source refuses the file, without another
    event: the two ways for [get_plan] to end in [InvalidMRF]. *)
Definition stream_ends (fin : ending) : bool :=
  match raised_at_end fin with
  | StopIteration | InvalidMRF => true
  | _ => false
  end.

Definition get_plan (p : parser) : result json * parser :=
  get_plan_loop ObjectBuilder (p_events p) (p_ending p).

(** The keys [plan_row_from_dict] reads from the plan. *)
Definition plan_keys : list string :=
  [ "reporting_entity_name"; "reporting_entity_type"; "plan_name"; "plan_id";
    "plan_id_type"; "plan_market_type"; "last_updated_on"; "version" ].

(* ================================================================== *)
(** * The events of a document

    The event model of [ijson.parse]: a scalar is one event, a container is
    bracketed by its start and end events, a map announces each key with
    [map_key]; the prefix of an element of an array is the prefix of the
    array followed by [item], that of a member of a map is the prefix of
    the map followed by the key, with dots in between. *)

Definition sub_prefix (prefix name : string) : string :=
  if String.eqb prefix "" then name else prefix ++ "." ++ name.

Fixpoint events_of (prefix : string) (v : json) : list triple :=
  match v with
  | JNull => [mkTriple prefix "null" JNull]
  | JBool _ => [mkTriple prefix "boolean" v]
  | JInt _ => [mkTriple prefix "number" v]
  | JFloat _ => [mkTriple prefix "number" v]
  | JStr _ => [mkTriple prefix "string" v]
  | JArr l =>
      mkTriple prefix "start_array" JNull
      :: flat_map (events_of (sub_prefix prefix "item")) l
      ++ [mkTriple prefix "end_array" JNull]
  | JObj d =>
      mkTriple prefix "start_map" JNull
      :: flat_map (fun kv =>
                     mkTriple prefix "map_key" (JStr (fst kv))
                     :: events_of (sub_prefix prefix (fst kv)) (snd kv)) d
      ++ [mkTriple prefix "end_map" JNull]
  end.

(** The parser over a complete value at a prefix, and over a complete
    document. *)
Definition parse_at (prefix : string) (v : json) : parser :=
  mkParser (events_of prefix v) Exhausted.

Definition parse (doc : json) : parser := parse_at "" doc.

(* ================================================================== *)
(** * What the generators do with [builder.value] *)

(** [len(v)] *)
Definition py_len (v : json) : result nat :=
  match v with
  | JArr l => Ok (List.length l)
  | JObj d => Ok (List.length d)
  | JStr s => Ok (String.length s)
  | _ => Raise TypeError
  end.

(** [v[-1]] *)
Definition py_last (v : json) : result json :=
  match v with
  | JArr [] => Raise IndexError
  | JArr l => Ok (last l JNull)
  | JStr EmptyString => Raise IndexError
  | JStr s => Ok (JStr (substring (String.length s - 1) 1 s))
  | JObj _ => Raise KeyError
  | _ => Raise TypeError
  end.

(** [l.pop()] on a list. *)
Definition list_pop (l : list json) : result (json * list json) :=
  match l with
  | [] => Raise IndexError
  | _ => Ok (last l JNull, removelast l)
  end.

(** [builder.value.pop()] when [builder.value] is an open container.  The
    last element of an open list is the container opened inside it, when
    there is one that still hangs there: that one comes off and is
    [Loose] from then on.  [acc] is what the containers above amount
    to. *)
Fixpoint pop_open (acc : option (json * hang)) (cs : list setter)
  : option (result (json * list setter)) :=
  match cs with
  | [] => None
  | InitialSet :: _ => None
  | Open c h :: rest =>
      let c' := match acc with
                | Some (u, h') => hang_on u h' c
                | None => c
                end in
      match h with
      | Root =>
          match c with
          | FMap _ => Some (Raise TypeError)
          | FArr l =>
              match list_pop l with
              | Ok (x, l') => Some (Ok (x, Open (FArr l') Root :: rest))
              | Raise e => Some (Raise e)
              end
          end
      | Last =>
          match rest with
          | Open (FArr _) Root :: _ =>
              Some (Ok (json_of_frame c', Open c Loose :: rest))
          | _ =>
              match pop_open (Some (json_of_frame c', h)) rest with
              | Some (Ok (x, rest')) => Some (Ok (x, Open c h :: rest'))
              | other => other
              end
          end
      | _ =>
          match pop_open (Some (json_of_frame c', h)) rest with
          | Some (Ok (x, rest')) => Some (Ok (x, Open c h :: rest'))
          | other => other
          end
      end
  end.

(** [builder.value.pop()] *)
Definition value_pop (b : builder) : result (json * builder) :=
  match pop_open None (b_containers b) with
  | Some (Ok (x, cs)) => Ok (x, mkBuilder (b_root b) cs (b_key b))
  | Some (Raise e) => Raise e
  | None =>
      match b_root b with
      | Some (JArr l) =>
          '(x, l') <- list_pop l ;;
          Ok (x, mkBuilder (Some (JArr l')) (b_containers b) (b_key b))
      | Some (JObj _) => Raise TypeError
      | _ => Raise AttributeError
      end
  end.

(** A generator over the event stream: the values it yields, in order,
    and how it ends ([Ok tt] when it returns). *)
Record gen (A : Type) : Type := mkGen {
  yielded : list A;
  stopped : result unit
}.
Arguments mkGen {A} yielded stopped.

Definition gen_done {A} (r : result unit) : gen A := mkGen [] r.

Definition gen_yield {A} (a : A) (g : gen A) : gen A :=
  mkGen (a :: yielded g) (stopped g).

(** A [StopIteration] that escapes from the body of a generator comes out
    as a [RuntimeError]. *)
Definition leaves_generator (e : exn) : exn :=
  match e with StopIteration => RuntimeError | _ => e end.

(** [for x in upstream: ...] in a generator whose body yields at most one
    value per turn. *)
Fixpoint gen_for {A B} (body : A -> result (option B)) (xs : list A)
  (upstream : result unit) : gen B :=
  match xs with
  | [] => gen_done upstream
  | x :: xs' =>
      match body x with
      | Raise e => gen_done (Raise (leaves_generator e))
      | Ok None => gen_for body xs' upstream
      | Ok (Some y) => gen_yield y (gen_for body xs' upstream)
      end
  end.

(* ================================================================== *)
(** * SHA-256

    The digest of FIPS 180-4 on lists of bytes with 32-bit words as
    numbers below [2^32]; it stands for [hashlib.sha256(...).digest()]
    where an example has to be run. *)

Module SHA256.

Local Open Scope Z_scope.

Definition wrap (x : Z) : Z := x mod 2 ^ 32.

Definition rotr (n x : Z) : Z :=
  Z.lor (Z.shiftr x n) (wrap (Z.shiftl x (32 - n))).

Definition Ch (x y z : Z) : Z :=
  Z.lxor (Z.land x y) (Z.land (Z.lxor x (Z.ones 32)) z).

Definition Maj (x y z : Z) : Z :=
  Z.lxor (Z.lxor (Z.land x y) (Z.land x z)) (Z.land y z).

Definition Sigma0 (x : Z) : Z :=
  Z.lxor (Z.lxor (rotr 2 x) (rotr 13 x)) (rotr 22 x).

Definition Sigma1 (x : Z) : Z :=
  Z.lxor (Z.lxor (rotr 6 x) (rotr 11 x)) (rotr 25 x).

Definition sigma0 (x : Z) : Z :=
  Z.lxor (Z.lxor (rotr 7 x) (rotr 18 x)) (Z.shiftr x 3).

Definition sigma1 (x : Z) : Z :=
  Z.lxor (Z.lxor (rotr 17 x) (rotr 19 x)) (Z.shiftr x 10).

(** The constants are what the standard says they are: the first 32
    bits of the fractional parts of the cube roots of the first 64
    primes, and of the square roots of the first 8 primes. *)
Definition is_prime (p : nat) : bool :=
  forallb (fun d => negb (Nat.eqb (Nat.modulo p d) 0)) (seq 2 (p - 2)).

Definition primes (n : nat) : list Z :=
  map Z.of_nat (firstn n (filter is_prime (seq 2 400))).

(** The integer cube root, one bit after the other. *)
Fixpoint cube_root_bits (bit : nat) (n r : Z) : Z :=
  match bit with
  | O => r
  | S bit' =>
      let r' := r + 2 ^ Z.of_nat bit' in
      cube_root_bits bit' n (if r' * r' * r' <=? n then r' else r)
  end.

Definition K : list Z :=
  Eval vm_compute in
    map (fun p => wrap (cube_root_bits 40 (p * 2 ^ 96) 0)) (primes 64).

Definition H0 : list Z :=
  Eval vm_compute in map (fun p => wrap (Z.sqrt (p * 2 ^ 64))) (primes 8).

(** The bytes of [x], most significant first. *)
Fixpoint big_endian (n : nat) (x : Z) : list Z :=
  match n with
  | O => []
  | S n' => Z.shiftr x (8 * Z.of_nat n') mod 256 :: big_endian n' x
  end.

Definition pad (msg : list Z) : list Z :=
  let len := Z.of_nat (List.length msg) in
  let zeros := Z.to_nat ((55 - len) mod 64) in
  msg ++ [0x80] ++ repeat 0 zeros ++ big_endian 8 (8 * len).

Fixpoint words (n : nat) (bs : list Z) : list Z :=
  match n, bs with
  | S n', a :: b :: c :: d :: bs' =>
      (((a * 256 + b) * 256 + c) * 256 + d) :: words n' bs'
  | _, _ => []
  end.

(** The message schedule, latest word first. *)
Fixpoint schedule (n : nat) (ws : list Z) : list Z :=
  match n with
  | O => ws
  | S n' =>
      let w := wrap (sigma1 (nth 1 ws 0) + nth 6 ws 0
                     + sigma0 (nth 14 ws 0) + nth 15 ws 0) in
      schedule n' (w :: ws)
  end.

Definition round (s : list Z) (kw : Z * Z) : list Z :=
  match s with
  | [a; b; c; d; e; f; g; h] =>
      let t1 := h + Sigma1 e + Ch e f g + fst kw + snd kw in
      let t2 := Sigma0 a + Maj a b c in
      [wrap (t1 + t2); a; b; c; wrap (d + t1); e; f; g]
  | _ => s
  end.

Definition compress (h : list Z) (block : list Z) : list Z :=
  let ws := rev (schedule 48 (rev (words 16 block))) in
  let s := fold_left round (combine K ws) h in
  map (fun p => wrap (fst p + snd p)) (combine h s).

Fixpoint blocks (n : nat) (h : list Z) (bs : list Z) : list Z :=
  match n with
  | O => h
  | S n' =>
      match bs with
      | [] => h
      | _ => blocks n' (compress h (firstn 64 bs)) (skipn 64 bs)
      end
  end.

Definition byte_of_Z (z : Z) : Byte.byte :=
  match Byte.of_N (Z.to_N z) with Some b => b | None => Byte.x00 end.

Definition digest (msg : list Byte.byte) : list Byte.byte :=
  let bs := pad (map (fun b => Z.of_N (Byte.to_N b)) msg) in
  let h := blocks (List.length bs) H0 bs in
  map byte_of_Z (flat_map (big_endian 4) h).

End SHA256.

Arguments SHA256.digest : simpl never.

(* ================================================================== *)
(** * Strings and paths *)

(** [s.endswith(suffix)] *)
Definition endswith (s suffix : string) : bool :=
  let n := String.length s in
  let m := String.length suffix in
  (m <=? n)%nat && String.eqb (substring (n - m) m s) suffix.

(** [s.lower()] on code points below 256: the letters A–Z and the
    capital letters of Latin-1 (0xC0–0xDE but for the multiplication
    sign) move up by 32. *)
Definition lower_char (c : ascii) : ascii :=
  let n := N_of_ascii c in
  if ((65 <=? n) && (n <=? 90)
      || (192 <=? n) && (n <=? 222) && negb (n =? 215))%N
  then ascii_of_N (n + 32) else c.

Fixpoint lower (s : string) : string :=
  match s with
  | EmptyString => EmptyString
  | String c s' => String (lower_char c) (lower s')
  end.

(** [s.split(c)] for a one-character separator. *)
Fixpoint split_on (c : ascii) (s : string) : list string :=
  match s with
  | EmptyString => [EmptyString]
  | String a s' =>
      if Ascii.eqb a c then EmptyString :: split_on c s'
      else match split_on c s' with
           | h :: t => String a h :: t
           | [] => [String a EmptyString]
           end
  end.

(** [s.lstrip(c)] *)
Fixpoint lstrip_char (c : ascii) (s : string) : string :=
  match s with
  | EmptyString => EmptyString
  | String a s' => if Ascii.eqb a c then lstrip_char c s' else s
  end.

(** [''.join(l)] *)
Definition join_all (l : list string) : string :=
  fold_right String.append EmptyString l.

(** [Path(p).name] on a POSIX path: the last component, where empty
    components and [.] do not count; empty when there is none. *)
Definition path_name (p : string) : string :=
  last (filter (fun c => negb (String.eqb c "" || String.eqb c "."))
               (split_on "/" p)) "".

(** [Path(p).suffixes] (pathlib up to Python 3.12). *)
Definition path_suffixes (p : string) : list string :=
  let name := path_name p in
  if endswith name "." then []
  else map (fun suffix => ("." ++ suffix)%string)
           (tl (split_on "." (lstrip_char "." name))).

(** The position of the last [c] in [s], counted from 0. *)
Fixpoint rfind (c : ascii) (s : string) : option nat :=
  match s with
  | EmptyString => None
  | String a s' =>
      match rfind c s' with
      | Some i => Some (S i)
      | None => if Ascii.eqb a c then Some 0%nat else None
      end
  end.

(** [Path(p).stem] *)
Definition path_stem (p : string) : string :=
  let name := path_name p in
  match rfind "." name with
  | Some i =>
      if ((0 <? i) && (i <? String.length name - 1))%nat
      then substring 0 i name else name
  | None => name
  end.

(** [Path(filename).stem.split('.')[0]] *)
Definition file_stem (filename : string) : string :=
  hd "" (split_on "." (path_stem filename)).

(** The two attributes of [urlparse(...)] that are read. *)
Record parse_result : Type := mkParseResult {
  scheme : string;
  path : string
}.

(** What [urlparse] gives for a relative or absolute path in which none of
    the characters [:], [?], [#] and [;] occurs: no scheme, and the path
    as it is. *)
Definition urlparse_plain_path (s : string) : parse_result :=
  mkParseResult "" s.

(** A small stand-in for [float.__repr__], right on the two floats named
    here; the examples below contain no others. *)
Definition repr_of_small_floats (f : pyfloat) : string :=
  if (f_mant f =? 0)%N then (if f_neg f then "-0.0" else "0.0")
  else if (f_mant f =? 25)%N && (f_expo f =? 2)%Z && negb (f_neg f)
       then "100.0" else "nan".

Section Runtime.

(** Two functions of the Python library are taken as they are:
    [urllib.parse.urlparse] and [float.__repr__]. *)
Variable urlparse : string -> parse_result.
Variable float_repr : pyfloat -> string.

(* ================================================================== *)
(** * Input source *)

(** The attributes [JSONOpen.__init__] leaves on the object. *)
Record JSONOpen : Type := mkJSONOpen {
  o_filename : string;
  o_suffix : string;
  o_is_remote : bool
}.

Definition in_strings (s : string) (l : list string) : bool :=
  existsb (String.eqb s) l.

(** [JSONOpen.__init__] of [processors/mrfutils.py] *)
Definition JSONOpen_init (filename : string) : result JSONOpen :=
  let parsed_url := urlparse filename in
  let suffix := join_all (path_suffixes (path parsed_url)) in
  if negb (in_strings suffix [".json.gz"; ".json"]) then Raise InvalidMRF
  else Ok (mkJSONOpen filename suffix
             (in_strings (scheme parsed_url) ["http"; "https"])).

(** [JSONOpen.__init__] of [mrfutils/helpers.py] *)
Definition helpers_JSONOpen_init (filename : string) : result JSONOpen :=
  let parsed_url := urlparse filename in
  let suffix := join_all (path_suffixes (path parsed_url)) in
  if negb (endswith (lower suffix) ".json.gz"
           || endswith (lower suffix) ".json"
           || endswith (lower suffix) ".zip")
  then Raise InvalidMRF
  else Ok (mkJSONOpen filename suffix
             (in_strings (scheme parsed_url) ["http"; "https"])).

(** The combined suffix both constructors look at. *)
Definition combined_suffix (filename : string) : string :=
  join_all (path_suffixes (path (urlparse filename))).

(* ================================================================== *)
(** * Sorting *)

(** A stable sort, as [sorted] and [list.sort] are: an element goes
    after the elements it is not smaller than. *)
Fixpoint insert_sorted {A} (le : A -> A -> bool) (x : A) (l : list A)
  : list A :=
  match l with
  | [] => [x]
  | y :: l' => if le y x then y :: insert_sorted le x l' else x :: y :: l'
  end.

Definition sort_by {A} (le : A -> A -> bool) (l : list A) : list A :=
  fold_left (fun acc x => insert_sorted le x acc) l [].

(** A number as [num * 2^expo]. *)
Definition dyadic (v : json) : option (Z * Z) :=
  match v with
  | JBool b => Some (if b then 1 else 0, 0)%Z
  | JInt z => Some (z, 0%Z)
  | JFloat f =>
      Some (if f_neg f then (- Z.of_N (f_mant f))%Z else Z.of_N (f_mant f),
            f_expo f)
  | _ => None
  end.

Definition dyadic_leb (a b : Z * Z) : bool :=
  let e := Z.min (snd a) (snd b) in
  (fst a * 2 ^ (snd a - e) <=? fst b * 2 ^ (snd b - e))%Z.

Definition dyadic_eqb (a b : Z * Z) : bool :=
  dyadic_leb a b && dyadic_leb b a.

Definition is_number (v : json) : bool :=
  match dyadic v with Some _ => true | None => false end.

Definition is_string (v : json) : bool :=
  match v with JStr _ => true | _ => false end.

Definition is_list (v : json) : bool :=
  match v with JArr _ => true | _ => false end.

Definition string_of (v : json) : string :=
  match v with JStr s => s | _ => "" end.

Definition number_leb (a b : json) : bool :=
  match dyadic a, dyadic b with
  | Some x, Some y => dyadic_leb x y
  | _, _ => false
  end.

(** [sorted(l)].  Nothing is compared in a list of fewer than two
    elements.  Strings compare with strings and numbers with numbers;
    [None] and dicts compare with nothing, and neither do values of two
    different kinds.  Lists of lists are left out. *)
Definition py_sorted (l : list json) : result (list json) :=
  match l with
  | [] | [_] => Ok l
  | _ =>
      if forallb is_string l
      then Ok (map JStr (sort_by String.leb (map string_of l)))
      else if forallb is_number l then Ok (sort_by number_leb l)
      else if forallb is_list l then Raise NotModelled
      else Raise TypeError
  end.

(* ================================================================== *)
(** * [str], [repr] and [json.dumps] *)

(** The double quote. *)
Definition dquote : ascii := ascii_of_N 34.

Definition hex_digit (n : N) : ascii :=
  if (n <? 10)%N then ascii_of_N (48 + n) else ascii_of_N (87 + n).

(** Two lower-case hexadecimal digits. *)
Definition hex2 (c : ascii) : string :=
  let n := N_of_ascii c in
  String (hex_digit (n / 16)) (String (hex_digit (n mod 16)) "").

Definition string_of_Z (z : Z) : string :=
  NilZero.string_of_int (Z.to_int z).

(** [sep.join(l)] *)
Fixpoint join (sep : string) (l : list string) : string :=
  match l with
  | [] => ""
  | [x] => x
  | x :: l' => (x ++ sep ++ join sep l')%string
  end.

Fixpoint string_has (c : ascii) (s : string) : bool :=
  match s with
  | EmptyString => false
  | String a s' => Ascii.eqb a c || string_has c s'
  end.

(** [repr] of a string: single quotes unless the string has a single
    quote and no double quote; the quote and the backslash are escaped,
    tab, newline and return get their letters, and the characters that
    are not printable (below 0x20, 0x7f to 0xa0, and 0xad) are written
    in hexadecimal. *)
Definition repr_char (quote : ascii) (c : ascii) : string :=
  let n := N_of_ascii c in
  if Ascii.eqb c quote || Ascii.eqb c "\" then String "\" (String c "")
  else if (n =? 9)%N then "\t"
  else if (n =? 10)%N then "\n"
  else if (n =? 13)%N then "\r"
  else if ((n <? 32) || (127 <=? n) && (n <=? 160) || (n =? 173))%N
       then ("\x" ++ hex2 c)%string
  else String c "".

Definition repr_str (s : string) : string :=
  let quote : ascii :=
    if string_has "'" s && negb (string_has dquote s) then dquote
    else "'"%char in
  (String quote "" ++
   join_all (map (repr_char quote) (list_ascii_of_string s)) ++
   String quote "")%string.

(** [repr(v)] *)
Fixpoint py_repr (v : json) : string :=
  match v with
  | JNull => "None"
  | JBool b => if b then "True" else "False"
  | JInt z => string_of_Z z
  | JFloat f => float_repr f
  | JStr s => repr_str s
  | JArr l => ("[" ++ join ", " (map py_repr l) ++ "]")%string
  | JObj d =>
      ("{" ++ join ", " (map (fun kv => (repr_str (fst kv) ++ ": "
                                         ++ py_repr (snd kv))%string) d)
       ++ "}")%string
  end.

(** [str(v)] *)
Definition py_str (v : json) : string :=
  match v with
  | JStr s => s
  | _ => py_repr v
  end.

(** The string escapes of [json.dumps] with [ensure_ascii]. *)
Definition json_escape_char (c : ascii) : string :=
  let n := N_of_ascii c in
  if (n =? 34)%N then String "\" (String dquote "")
  else if (n =? 92)%N then "\\"
  else if (n =? 8)%N then "\b"
  else if (n =? 12)%N then "\f"
  else if (n =? 10)%N then "\n"
  else if (n =? 13)%N then "\r"
  else if (n =? 9)%N then "\t"
  else if ((32 <=? n) && (n <=? 126))%N then String c ""
  else ("\u00" ++ hex2 c)%string.

(** [s] between double quotes. *)
Definition quoted (s : string) : string :=
  (String dquote "" ++ s ++ String dquote "")%string.

Definition json_string (s : string) : string :=
  quoted (join_all (map json_escape_char (list_ascii_of_string s))).

Definition key_leb (a b : string * string) : bool :=
  String.leb (fst a) (fst b).

(** [json.dumps(v, sort_keys=sort_keys)] with the default separators
    [', '] and [': '].  The members of a dict are rendered first and put
    in the order of their keys afterwards. *)
Fixpoint json_dumps (sort_keys : bool) (v : json) : string :=
  match v with
  | JNull => "null"
  | JBool b => if b then "true" else "false"
  | JInt z => string_of_Z z
  | JFloat f => float_repr f
  | JStr s => json_string s
  | JArr l => ("[" ++ join ", " (map (json_dumps sort_keys) l) ++ "]")%string
  | JObj d =>
      let members := map (fun kv => (fst kv, json_dumps sort_keys (snd kv))) d in
      let members := if sort_keys then sort_by key_leb members else members in
      ("{" ++ join ", " (map (fun m => (json_string (fst m) ++ ": "
                                        ++ snd m)%string) members)
       ++ "}")%string
  end.

(* ================================================================== *)
(** * Hashing *)

(** [s.encode('utf-8')] for code points below 256. *)
Definition encode_utf8_char (c : ascii) : list Byte.byte :=
  let n := N_of_ascii c in
  if (n <? 128)%N then [byte_of_ascii c]
  else [byte_of_ascii (ascii_of_N (192 + n / 64));
        byte_of_ascii (ascii_of_N (128 + n mod 64))].

Definition encode_utf8 (s : string) : list Byte.byte :=
  flat_map encode_utf8_char (list_ascii_of_string s).

(** [int.from_bytes(bs, 'little')] *)
Fixpoint int_from_bytes_little (bs : list Byte.byte) : Z :=
  match bs with
  | [] => 0
  | b :: bs' => Z.of_N (Byte.to_N b) + 256 * int_from_bytes_little bs'
  end.

Definition dicthasher_bytes (data : dict) (n_bytes : nat) : result Z :=
  if negb (truthy (JObj data)) then Raise PlainException
  else
    let data := encode_utf8 (json_dumps true (JObj data)) in
    let hash_s := firstn n_bytes (SHA256.digest data) in
    let hash_i := int_from_bytes_little hash_s in
    Ok hash_i.

(** [dicthasher(data)], with [n_bytes] at its default. *)
Definition dicthasher (data : dict) : result Z := dicthasher_bytes data 8.

Definition append_hash (item : dict) (name : string) : result dict :=
  hash_ <- dicthasher item ;;
  Ok (dict_set item name (JInt hash_)).

Definition filename_hasher (filename : string) : result Z :=
  let filename := file_stem filename in
  let file_row := [("filename", JStr filename)] in
  dicthasher file_row.

(** The number the words [LE_u64] stand for: byte [i] of the first eight
    weighs [2^(8 i)]. *)
Definition LE_u64 (bs : list Byte.byte) : Z :=
  fold_right Z.add 0%Z
    (map (fun i => (Z.of_N (Byte.to_N (nth i bs Byte.x00)) * 2 ^ (8 * Z.of_nat i))%Z)
         (seq 0 8)).

(* ================================================================== *)
(** * NPI filtering *)

(** A filter is a Python set of strings, or [None]; [if not f] holds for
    [None] and for the empty set. *)
Definition str_set := option (list string).

Definition set_truthy (f : str_set) : bool :=
  match f with Some (_ :: _) => true | _ => false end.

(** [n in f] for a set [f] of strings. *)
Definition in_str_set (n : json) (f : str_set) : bool :=
  match n, f with
  | JStr s, Some l => in_strings s l
  | _, _ => false
  end.

Definition process_group (group : json) (npi_filter : str_set)
  : result (option json) :=
  npi <- py_getitem group "npi" ;;
  ns <- py_iter npi ;;
  group <- py_setitem group "npi" (JArr (map (fun n => JStr (py_str n)) ns)) ;;
  if negb (set_truthy npi_filter) then Ok (Some group)
  else
    npi <- py_getitem group "npi" ;;
    ns <- py_iter npi ;;
    group <- py_setitem group "npi"
               (JArr (filter (fun n => in_str_set n npi_filter) ns)) ;;
    npi <- py_getitem group "npi" ;;
    if truthy npi then Ok (Some group) else Ok None.

(** The loop of [process_arr]: what [func] returns is kept when it is
    true. *)
Fixpoint process_arr_loop (func : json -> result (option json))
  (items : list json) : result (list json) :=
  match items with
  | [] => Ok []
  | item :: rest =>
      processed_item <- func item ;;
      processed_arr <- process_arr_loop func rest ;;
      Ok (if truthy_opt processed_item
          then match processed_item with
               | Some x => x :: processed_arr
               | None => processed_arr
               end
          else processed_arr)
  end.

Definition process_arr (func : json -> result (option json)) (arr : json)
  : result json :=
  items <- py_iter arr ;;
  processed_arr <- process_arr_loop func items ;;
  Ok (JArr processed_arr).

Definition process_groups (groups : json) (npi_filter : str_set) : result json :=
  process_arr (fun group => process_group group npi_filter) groups.

Definition process_reference (reference : json) (npi_filter : str_set)
  : result (option json) :=
  groups <- py_getitem reference "provider_groups" ;;
  groups <- process_groups groups npi_filter ;;
  if truthy groups then
    group_id <- py_getitem reference "provider_group_id" ;;
    Ok (Some (JObj [("provider_group_id", group_id);
                    ("provider_groups", groups)]))
  else Ok None.

Definition process_rate (rate : json) (npi_filter : str_set)
  : result (option json) :=
  groups <- py_get rate "provider_groups" ;;
  rate <- (if truthy_opt groups
           then match groups with
                | Some groups =>
                    groups <- process_groups groups npi_filter ;;
                    py_setitem rate "provider_groups" groups
                | None => Ok rate
                end
           else Ok rate) ;;
  groups <- py_get rate "provider_groups" ;;
  if truthy_opt groups then Ok (Some rate) else Ok None.

Definition process_rates (rates : json) (npi_filter : str_set) : result json :=
  process_arr (fun rate => process_rate rate npi_filter) rates.

(* ================================================================== *)
(** * Rows *)

(** The white space [str.strip] takes off, among the code points below
    256. *)
Definition is_space (c : ascii) : bool :=
  let n := N_of_ascii c in
  ((9 <=? n) && (n <=? 13) || (28 <=? n) && (n <=? 32)
   || (n =? 133) || (n =? 160))%N.

Fixpoint lstrip (s : string) : string :=
  match s with
  | EmptyString => EmptyString
  | String a s' => if is_space a then lstrip s' else s
  end.

Fixpoint rstrip (s : string) : string :=
  match s with
  | EmptyString => EmptyString
  | String a s' =>
      match rstrip s' with
      | EmptyString => if is_space a then EmptyString else String a EmptyString
      | t => String a t
      end
  end.

Definition strip (s : string) : string := rstrip (lstrip s).

(** [v.strip()] *)
Definition py_strip (v : json) : result json :=
  match v with
  | JStr s => Ok (JStr (strip s))
  | _ => Raise AttributeError
  end.

Definition get_or_none (o : option json) : json :=
  match o with Some v => v | None => JNull end.

Definition plan_row_from_dict (plan : json) : result dict :=
  let keys := plan_keys in
  plan_row <- mapM (fun key => v <- py_get plan key ;; Ok (key, get_or_none v))
                   keys ;;
  append_hash (dict_of_items plan_row) "plan_hash".

Definition file_row_from_filename (filename : string) (filename_hash : Z)
  (url : string) : dict :=
  let filename := file_stem filename in
  [("filename", JStr filename);
   ("filename_hash", JInt filename_hash);
   ("url", JStr url)].

Definition plan_file_row_from_row (plan_row : dict) (filename_hash : Z)
  : result dict :=
  plan_hash <- py_getitem (JObj plan_row) "plan_hash" ;;
  Ok [("plan_hash", plan_hash); ("filename_hash", JInt filename_hash)].

Definition code_row_from_dict (in_network_item : json) : result dict :=
  let keys := ["billing_code_type"; "billing_code_type_version";
               "billing_code"] in
  code_row <- mapM (fun key => v <- py_getitem in_network_item key ;;
                               v <- py_strip v ;; Ok (key, v)) keys ;;
  append_hash (dict_of_items code_row) "code_hash".

(** One turn of the loop over [optional_json_keys]. *)
Definition add_optional_key (price : json) (price_row : dict) (key : string)
  : result dict :=
  present <- py_get price key ;;
  if truthy_opt present then
    listed <- py_getitem price key ;;
    values <- py_iter listed ;;
    values <- py_sorted values ;;
    sorted_value <- mapM py_strip values ;;
    Ok (dict_set price_row key (JStr (json_dumps false (JArr sorted_value))))
  else Ok price_row.

Definition price_row_from_dict (price : json) (code_hash filename_hash : json)
  : result dict :=
  let keys := ["billing_class"; "negotiated_type"; "expiration_date";
               "negotiated_rate"; "additional_information"] in
  price_row <- mapM (fun key => v <- py_get price key ;;
                                Ok (key, get_or_none v)) keys ;;
  let price_row := dict_of_items price_row in
  let optional_json_keys := ["service_code"; "billing_code_modifier"] in
  price_row <- fold_left (fun acc key => row <- acc ;;
                                         add_optional_key price row key)
                         optional_json_keys (Ok price_row) ;;
  let hashes := [("code_hash", code_hash); ("filename_hash", filename_hash)] in
  let price_row := dict_update price_row hashes in
  append_hash price_row "price_hash".

Definition price_rows_from_dicts (prices : json) (code_hash filename_hash : json)
  : result (list dict) :=
  prices <- py_iter prices ;;
  mapM (fun price => price_row_from_dict price code_hash filename_hash) prices.

Definition group_row_from_dict (group : json) : result dict :=
  npi <- py_getitem group "npi" ;;
  npi <- py_iter npi ;;
  npi <- py_sorted npi ;;
  tin <- py_getitem group "tin" ;;
  tin_type <- py_getitem tin "type" ;;
  tin <- py_getitem group "tin" ;;
  tin_value <- py_getitem tin "value" ;;
  let group_row := [("npi_numbers", JStr (json_dumps false (JArr npi)));
                    ("tin_type", tin_type);
                    ("tin_value", tin_value)] in
  append_hash group_row "provider_group_hash".

Definition group_rows_from_dicts (groups : json) : result (list dict) :=
  groups <- py_iter groups ;;
  mapM group_row_from_dict groups.

Definition prices_groups_row (price_row group_row : dict) : result dict :=
  group_hash <- py_getitem (JObj group_row) "provider_group_hash" ;;
  price_hash <- py_getitem (JObj price_row) "price_hash" ;;
  Ok [("provider_group_hash", group_hash); ("price_hash", price_hash)].

Definition prices_groups_rows_from_dicts (price_rows group_rows : list dict)
  : result (list dict) :=
  rows <- mapM (fun price_row =>
                  mapM (fun group_row => prices_groups_row price_row group_row)
                       group_rows)
               price_rows ;;
  Ok (List.concat rows).

(* ================================================================== *)
(** * Streaming the in-network items *)

(** A code filter is a Python set of pairs of strings, or [None]. *)
Definition code_set := option (list (string * string)).

Definition code_set_truthy (f : code_set) : bool :=
  match f with Some (_ :: _) => true | _ => false end.

(** [(code_type, code) in code_filter]: the pair is hashed first, which a
    list or a dict in it does not allow. *)
Definition in_code_set (code_type : json) (code : string) (f : code_set)
  : result bool :=
  match code_type with
  | JArr _ | JObj _ => Raise TypeError
  | JStr t =>
      Ok (match f with
          | Some l => existsb (fun p => String.eqb (fst p) t
                                        && String.eqb (snd p) code) l
          | None => false
          end)
  | _ => Ok false
  end.

(** The three lines both branches of [skip_item_by_code] run. *)
Definition skip_to_end_of_item (p : parser) (b : builder)
  : result builder * parser :=
  match ffwd p (Some "in_network.item") (Some "end_map") None with
  | (Raise e, p') => (Raise e, p')
  | (Ok _, p') =>
      (popped <- value_pop b ;; containers_pop (snd popped), p')
  end.

(** The tests of [skip_item_by_code] on [builder.value]: whether the item
    under construction is to be skipped. *)
Definition wants_skip (code_filter : code_set) (value : option json)
  : result bool :=
  value <- match value with
           | Some v => Ok v
           | None => Raise AttributeError
           end ;;
  item <- py_last value ;;
  code_type <- py_get item "billing_code_type" ;;
  code <- py_get item "billing_code" ;;
  filtered_out <-
    (if truthy_opt code && truthy_opt code_type && code_set_truthy code_filter
     then found <- in_code_set (get_or_none code_type)
                     (py_str (get_or_none code)) code_filter ;;
          Ok (negb found)
     else Ok false) ;;
  if filtered_out then Ok true
  else
    arrangement <- py_get item "negotiation_arrangement" ;;
    Ok (truthy_opt arrangement
        && negb (eq_str (get_or_none arrangement) "ffs")).

Definition skip_item_by_code (p : parser) (b : builder) (code_filter : code_set)
  : result builder * parser :=
  match wants_skip code_filter (b_value b) with
  | Raise e => (Raise e, p)
  | Ok true => skip_to_end_of_item p b
  | Ok false => (Ok b, p)
  end.

(** [hasattr(builder, 'value') and len(builder.value) > 0] *)
Definition has_value (value : option json) : result bool :=
  match value with
  | None => Ok false
  | Some v => n <- py_len v ;; Ok (0 <? n)%nat
  end.

Definition at_place (t : triple) (prefix event : string) : bool :=
  String.eqb (t_prefix t) prefix && String.eqb (t_event t) event.

(** One turn of the loop of [gen_in_network_items]; [continue] is the
    rest of the loop. *)
Definition gen_in_network_items_turn
  (continue : parser -> builder -> gen json * parser)
  (p : parser) (b : builder) (code_filter : code_set) : gen json * parser :=
  match next p with
  | (Raise StopIteration, p') => (gen_done (Ok tt), p')
  | (Raise e, p') => (gen_done (Raise e), p')
  | (Ok t, p1) =>
      match b_event b (t_event t) (t_value t) with
      | Raise e => (gen_done (Raise (leaves_generator e)), p1)
      | Ok b1 =>
          match has_value (b_value b1) with
          | Raise e => (gen_done (Raise (leaves_generator e)), p1)
          | Ok check =>
              match (if check then skip_item_by_code p1 b1 code_filter
                     else (Ok b1, p1)) with
              | (Raise e, p2) => (gen_done (Raise (leaves_generator e)), p2)
              | (Ok b2, p2) =>
                  if at_place t "in_network.item" "end_map" then
                    match value_pop b2 with
                    | Raise e => (gen_done (Raise (leaves_generator e)), p2)
                    | Ok (in_network_item, b3) =>
                        let (g, p3) := continue p2 b3 in
                        (gen_yield in_network_item g, p3)
                    end
                  else if at_place t "in_network" "end_array" then
                    (gen_done (Ok tt), p2)
                  else continue p2 b2
              end
          end
      end
  end.

(** The loop of [gen_in_network_items]; every turn takes at least one
    event, so a [fuel] above the number of events is never used up. *)
Fixpoint gen_in_network_items_loop (fuel : nat) (code_filter : code_set)
  (p : parser) (b : builder) : gen json * parser :=
  match fuel with
  | O => (gen_done (Raise NotModelled), p)
  | S fuel' =>
      gen_in_network_items_turn
        (gen_in_network_items_loop fuel' code_filter) p b code_filter
  end.

Definition gen_in_network_items (p : parser) (code_filter : code_set)
  : gen json * parser :=
  let builder := ObjectBuilder in
  gen_in_network_items_loop (S (List.length (p_events p))) code_filter
    p builder.

(** The loop of [gen_references], by recursion on the events. *)
Fixpoint gen_references_loop (evs : list triple) (fin : ending) (b : builder)
  : gen json * parser :=
  match evs with
  | [] =>
      match raised_at_end fin with
      | StopIteration => (gen_done (Ok tt), finished)
      | e => (gen_done (Raise e), finished)
      end
  | t :: rest =>
      match b_event b (t_event t) (t_value t) with
      | Raise e => (gen_done (Raise (leaves_generator e)), mkParser rest fin)
      | Ok b1 =>
          if at_place t "provider_references.item" "end_map" then
            match value_pop b1 with
            | Raise e =>
                (gen_done (Raise (leaves_generator e)), mkParser rest fin)
            | Ok (reference, b2) =>
                let (g, p') := gen_references_loop rest fin b2 in
                (gen_yield reference g, p')
            end
          else if at_place t "provider_references" "end_array" then
            (gen_done (Ok tt), mkParser rest fin)
          else gen_references_loop rest fin b1
      end
  end.

Definition gen_references (p : parser) : gen json * parser :=
  let builder := ObjectBuilder in
  gen_references_loop (p_events p) (p_ending p) builder.

(* ================================================================== *)
(** * The world outside

    What a run meets outside the program: the streams the input source
    gives each time the file is opened, the answers to the fetches of
    remote references and the order in which they come back, and the
    faults of the file system. *)

Inductive table : Type :=
| files | plans | plans_files
| codes | prices | provider_groups | prices_provider_groups.

(** One row appended to one CSV file. *)
Definition written := (table * dict)%type.

Inductive fetch_outcome : Type :=
| Fetched (body : json)   (* status 200 and a body [json.loads] takes *)
| BadStatus               (* the assertion on the status fails *)
| FetchRaises.            (* anything else: the worker task ends *)

Record world : Type := mkWorld {
  w_content : nat -> parser;              (* the k-th opening of the file *)
  w_fetch : string -> fetch_outcome;
  w_arrival : list json -> list json;     (* the order the workers append in *)
  w_mkdir_fails : bool;
  (* [Some k]: the call fails once [k] of its rows are appended *)
  w_write_fault : list written -> table -> option nat
}.

(** Modelled from the spec: the constant [SCHEMA] of the module [schema],
    which is not among the sources; the columns are those of the table of
    the CSV schema. *)
Definition SCHEMA (tablename : table) : list string :=
  match tablename with
  | files => ["filename"; "filename_hash"; "url"]
  | plans => ["reporting_entity_name"; "reporting_entity_type"; "plan_name";
              "plan_id"; "plan_id_type"; "plan_market_type";
              "last_updated_on"; "version"; "plan_hash"]
  | plans_files => ["plan_hash"; "filename_hash"]
  | codes => ["billing_code_type"; "billing_code_type_version";
              "billing_code"; "code_hash"]
  | prices => ["billing_class"; "negotiated_type"; "expiration_date";
               "negotiated_rate"; "additional_information"; "service_code";
               "billing_code_modifier"; "code_hash"; "filename_hash";
               "price_hash"]
  | provider_groups => ["npi_numbers"; "tin_type"; "tin_value";
                        "provider_group_hash"]
  | prices_provider_groups => ["provider_group_hash"; "price_hash"]
  end.

Variable env : world.

(** A function that writes: from the rows written so far to its result
    and the rows written after it. *)
Definition writing (A : Type) : Type := list written -> result A * list written.

Definition ret {A} (a : A) : writing A := fun log => (Ok a, log).

Definition raise {A} (e : exn) : writing A := fun log => (Raise e, log).

Definition lift {A} (r : result A) : writing A := fun log => (r, log).

Definition and_then {A B} (m : writing A) (k : A -> writing B) : writing B :=
  fun log =>
    match m log with
    | (Ok a, log') => k a log'
    | (Raise e, log') => (Raise e, log')
    end.

Notation "x <~ m ;; k" := (and_then m (fun x => k))
  (at level 61, m at next level, right associativity).

(** [writer.writerow] for each row in turn: a row with a key that is not
    a column is refused. *)
Fixpoint write_rows (tablename : table) (rows : list dict) (room : option nat)
  : writing unit :=
  fun log =>
    match rows with
    | [] =>
        match room with
        | Some _ => (Raise OSError, log)
        | None => (Ok tt, log)
        end
    | row :: rest =>
        match room with
        | Some O => (Raise OSError, log)
        | _ =>
            if forallb (fun k => in_strings k (SCHEMA tablename)) (dict_keys row)
            then write_rows tablename rest (option_map Nat.pred room)
                            (log ++ [(tablename, row)])
            else (Raise ValueError, log)
        end
    end.

(** [write_table(rows, tablename, out_dir)], for a list of rows; a single
    row is a list of one. *)
Definition write_table (rows : list dict) (tablename : table) : writing unit :=
  fun log => write_rows tablename rows (w_write_fault env log tablename) log.

Definition write_plan (plan : json) (filename_hash : Z) (filename url : string)
  : writing unit :=
  let file_row := file_row_from_filename filename filename_hash url in
  _ <~ write_table [file_row] files ;;
  plan_row <~ lift (plan_row_from_dict plan) ;;
  _ <~ write_table [plan_row] plans ;;
  plan_file_row <~ lift (plan_file_row_from_row plan_row filename_hash) ;;
  write_table [plan_file_row] plans_files.

(** The body of the loop over the rates of an item. *)
Definition write_rate (rate : json) (code_hash : json) (filename_hash : Z)
  : writing unit :=
  prices_ <~ lift (py_getitem rate "negotiated_prices") ;;
  groups <~ lift (g <- py_get rate "provider_groups" ;;
                  Ok (match g with Some g => g | None => JArr [] end)) ;;
  price_rows <~ lift (price_rows_from_dicts prices_ code_hash
                                            (JInt filename_hash)) ;;
  _ <~ write_table price_rows prices ;;
  group_rows <~ lift (group_rows_from_dicts groups) ;;
  _ <~ write_table group_rows provider_groups ;;
  prices_groups_rows <~
    lift (prices_groups_rows_from_dicts price_rows group_rows) ;;
  write_table prices_groups_rows prices_provider_groups.

Fixpoint write_rates (rates : list json) (code_hash : json) (filename_hash : Z)
  : writing unit :=
  match rates with
  | [] => ret tt
  | rate :: rest =>
      _ <~ write_rate rate code_hash filename_hash ;;
      write_rates rest code_hash filename_hash
  end.

Definition write_in_network_item (in_network_item : json) (filename_hash : Z)
  : writing unit :=
  code_row <~ lift (code_row_from_dict in_network_item) ;;
  _ <~ write_table [code_row] codes ;;
  code_hash <~ lift (py_getitem (JObj code_row) "code_hash") ;;
  rates <~ lift (r <- py_getitem in_network_item "negotiated_rates" ;;
                 py_iter r) ;;
  _ <~ write_rates rates code_hash filename_hash ;;
  _ <~ lift (py_getitem in_network_item "billing_code_type") ;;
  _ <~ lift (py_getitem in_network_item "billing_code") ;;
  ret tt.

(* ================================================================== *)
(** * Reference resolver *)

(** The reference map: a Python dict whose keys are group ids. *)
Definition ref_map := list (json * json).

Definition hashable (v : json) : bool :=
  match v with JArr _ | JObj _ => false | _ => true end.

(** [a == b] for two keys: numbers by their value, [True] being 1. *)
Definition key_eqb (a b : json) : bool :=
  match a, b with
  | JNull, JNull => true
  | JStr s, JStr t => String.eqb s t
  | _, _ =>
      match dyadic a, dyadic b with
      | Some x, Some y => dyadic_eqb x y
      | _, _ => false
      end
  end.

Fixpoint ref_map_find (m : ref_map) (k : json) : option json :=
  match m with
  | [] => None
  | (k', v) :: m' => if key_eqb k' k then Some v else ref_map_find m' k
  end.

Fixpoint ref_map_put (m : ref_map) (k v : json) : ref_map :=
  match m with
  | [] => [(k, v)]
  | (k', v') :: m' =>
      if key_eqb k' k then (k', v) :: m' else (k', v') :: ref_map_put m' k v
  end.

(** [reference_map.get(reference, [])] *)
Definition ref_map_get (m : ref_map) (k : json) : result json :=
  if hashable k
  then Ok (match ref_map_find m k with Some v => v | None => JArr [] end)
  else Raise TypeError.

(** What becomes of one work item of the queue. *)
Inductive worked : Type :=
| Appends (reference : json)
| Nothing
| TaskEnds.

(** One turn of the loop of [append_processed_remote_reference]. *)
Definition work (item : json * json) (npi_filter : str_set) : worked :=
  let (url, group_id) := item in
  match url with
  | JStr u =>
      match w_fetch env u with
      | Fetched body =>
          match (reference <- py_setitem body "provider_group_id" group_id ;;
                 process_reference reference npi_filter) with
          | Ok (Some reference) =>
              if truthy reference then Appends reference else Nothing
          | Ok None => Nothing
          | Raise AssertionError => Nothing
          | Raise _ => TaskEnds
          end
      | BadStatus => Nothing
      | FetchRaises => TaskEnds
      end
  | _ => TaskEnds
  end.

(** The queue drains when a task is left for every item: a task that
    ends is not replaced. *)
Fixpoint drains (tasks : nat) (done : list worked) : bool :=
  match done with
  | [] => true
  | o :: rest =>
      match tasks with
      | O => false
      | S n => drains (match o with TaskEnds => n | _ => tasks end) rest
      end
  end.

(** The loop over the references: what is to be fetched, and the
    references that are processed at once. *)
Fixpoint sort_references (references : list json) (npi_filter : str_set)
  : result (list (json * json) * list json) :=
  match references with
  | [] => Ok ([], [])
  | reference :: rest =>
      url <- py_get reference "location" ;;
      if truthy_opt url then
        group_id <- py_getitem reference "provider_group_id" ;;
        '(queue, processed) <- sort_references rest npi_filter ;;
        Ok ((get_or_none url, group_id) :: queue, processed)
      else
        reference <- process_reference reference npi_filter ;;
        '(queue, processed) <- sort_references rest npi_filter ;;
        Ok (queue, if truthy_opt reference
                   then match reference with
                        | Some r => r :: processed
                        | None => processed
                        end
                   else processed)
  end.

Definition appended (o : worked) : list json :=
  match o with Appends r => [r] | _ => [] end.

Definition make_reference_map (references : gen json) (npi_filter : str_set)
  : result ref_map :=
  '(queue, processed_references) <-
     sort_references (yielded references) npi_filter ;;
  _ <- stopped references ;;
  let done := map (fun item => work item npi_filter) queue in
  if negb (drains 300 done) then Raise QueueNeverDrains
  else
    let processed_references :=
      processed_references ++ w_arrival env (flat_map appended done) in
    fold_left (fun acc reference =>
                 m <- acc ;;
                 k <- py_getitem reference "provider_group_id" ;;
                 v <- py_getitem reference "provider_groups" ;;
                 if hashable k then Ok (ref_map_put m k v) else Raise TypeError)
              processed_references (Ok []).

Definition is_references_start (t : triple) : bool :=
  String.eqb (t_prefix t) "provider_references"
  && String.eqb (t_event t) "start_array"
  && match t_value t with JNull => true | _ => false end.

(** [get_reference_map(parser, npi_filter)], with the state the parser of
    the caller is left in. *)
Definition get_reference_map (p : parser) (npi_filter : str_set)
  : result (option ref_map) * parser :=
  match peek p with
  | Raise e => (Raise e, finished)
  | Ok (peeked, p, _) =>
      if match peeked with Some t => is_references_start t | None => false end
      then
        let (references, p') := gen_references p in
        (m <- make_reference_map references npi_filter ;; Ok (Some m), p')
      else
        match ffwd p (Some "") None (Some "provider_references") with
        | (Raise StopIteration, p') => (Ok None, p')
        | (Raise e, p') => (Raise e, p')
        | (Ok _, p') =>
            let (references, p'') := gen_references p' in
            (m <- make_reference_map references npi_filter ;; Ok (Some m), p'')
        end
  end.

(* ================================================================== *)
(** * Swapping the references and filtering the items *)

(** The body of the loop over the rates in [swap_references]. *)
Definition swap_rate (rate : json) (reference_map : ref_map) : result json :=
  references <- py_get rate "provider_references" ;;
  if negb (truthy_opt references) then Ok rate
  else
    groups <- py_get rate "provider_groups" ;;
    let groups := match groups with Some g => g | None => JArr [] end in
    references <- py_iter (get_or_none references) ;;
    groups <- fold_left (fun acc reference =>
                           groups <- acc ;;
                           addl_groups <- ref_map_get reference_map reference ;;
                           addl_groups <- py_iter addl_groups ;;
                           match groups with
                           | JArr l => Ok (JArr (l ++ addl_groups))
                           | _ => Raise AttributeError
                           end)
                        references (Ok groups) ;;
    match rate with
    | JObj d => Ok (JObj (dict_set (dict_pop d "provider_references")
                                   "provider_groups" groups))
    | _ => Raise AttributeError
    end.

(** The body of the loop over the items in [swap_references]. *)
Definition swap_item (reference_map : ref_map) (item : json)
  : result (option json) :=
  rates <- py_getitem item "negotiated_rates" ;;
  rates <- py_iter rates ;;
  rates <- mapM (fun rate => swap_rate rate reference_map) rates ;;
  kept <- mapM (fun rate => g <- py_get rate "provider_groups" ;;
                            Ok (rate, truthy_opt g)) rates ;;
  let kept := map fst (filter snd kept) in
  item <- py_setitem item "negotiated_rates" (JArr kept) ;;
  Ok (match kept with [] => None | _ => Some item end).

Definition swap_references (in_network_items : gen json)
  (reference_map : option ref_map) : gen json :=
  match reference_map with
  | None | Some [] => in_network_items
  | Some m =>
      gen_for (swap_item m) (yielded in_network_items)
              (stopped in_network_items)
  end.

(** The body of the loop of [process_in_network]. *)
Definition process_item (npi_filter : str_set) (in_network_item : json)
  : result (option json) :=
  rates <- py_getitem in_network_item "negotiated_rates" ;;
  rates <- process_rates rates npi_filter ;;
  if truthy rates then
    in_network_item <- py_setitem in_network_item "negotiated_rates" rates ;;
    Ok (Some in_network_item)
  else Ok None.

Definition process_in_network (in_network_items : gen json)
  (npi_filter : str_set) : gen json :=
  gen_for (process_item npi_filter) (yielded in_network_items)
          (stopped in_network_items).

(* ================================================================== *)
(** * Orchestrator *)

(** [start_parser(filename)]: the generator opens the file when its first
    value is asked for; the [k]-th opening gets the [k]-th stream. *)
Definition start_parser (filename : string) (k : nat) : parser :=
  match JSONOpen_init filename with
  | Raise e => mkParser [] (Raises e)
  | Ok _ => w_content env k
  end.

Record Content : Type := mkContent {
  c_file : string;
  c_code_filter : code_set;
  c_npi_filter : str_set;
  c_parser : parser;
  c_plan : json;
  c_ref_map : option ref_map
}.

Definition start_conn (file : string) (code_filter : code_set)
  (npi_filter : str_set) : result Content :=
  let parser := start_parser file 0 in
  match get_plan parser with
  | (Raise e, _) => Raise e
  | (Ok plan, parser) =>
      match get_reference_map parser npi_filter with
      | (Raise e, _) => Raise e
      | (Ok ref_map, parser) =>
          Ok (mkContent file code_filter npi_filter parser plan ref_map)
      end
  end.

Definition is_document_end (t : triple) : bool :=
  String.eqb (t_prefix t) "" && String.eqb (t_event t) "end_map"
  && match t_value t with JNull => true | _ => false end.

(** The parser [prepare_in_network] leaves in [self.parser]: the value
    peeked at is gone from it. *)
Definition prepare_in_network (c : Content) : result parser :=
  '(peeked, _, advanced) <- peek (c_parser c) ;;
  if match peeked with Some t => is_document_end t | None => true end
  then
    let parser := start_parser (c_file c) 1 in
    match ffwd parser (Some "") None (Some "in_network") with
    | (Raise e, _) => Raise e
    | (Ok _, parser) => Ok parser
    end
  else Ok advanced.

Definition in_network_items (c : Content) : result (gen json) :=
  parser <- prepare_in_network c ;;
  let filtered_items := fst (gen_in_network_items parser (c_code_filter c)) in
  let swapped_items := swap_references filtered_items (c_ref_map c) in
  Ok (process_in_network swapped_items (c_npi_filter c)).

Definition make_dir : writing unit :=
  if w_mkdir_fails env then raise OSError else ret tt.

(** [for item in processed_items: write_in_network_item(...)] *)
Fixpoint write_items (items : list json) (upstream : result unit)
  (filename_hash : Z) : writing unit :=
  match items with
  | [] => lift upstream
  | item :: rest =>
      _ <~ write_in_network_item item filename_hash ;;
      write_items rest upstream filename_hash
  end.

(** [json_mrf_to_csv(url, out_dir, file, code_filter, npi_filter)]; the
    tables of [out_dir] are the rows written. *)
Definition json_mrf_to_csv (url : string) (file : option string)
  (code_filter : code_set) (npi_filter : str_set) : writing unit :=
  let file := match file with None => url | Some f => f end in
  filename_hash <~ lift (filename_hasher file) ;;
  content <~ lift (start_conn file code_filter npi_filter) ;;
  let plan := c_plan content in
  processed_items <~ lift (in_network_items content) ;;
  _ <~ make_dir ;;
  _ <~ write_items (yielded processed_items) (stopped processed_items)
                   filename_hash ;;
  write_plan plan filename_hash file url.

(* ================================================================== *)
(** * Filters from CSV files *)

(** An element of the set [import_csv_to_set] returns: the string of a
    row of one column, the tuple of the strings of a row of several. *)
Inductive set_item : Type :=
| Single (s : string)
| Tuple (cols : list string).

Fixpoint strings_eqb (a b : list string) : bool :=
  match a, b with
  | [], [] => true
  | x :: a', y :: b' => String.eqb x y && strings_eqb a' b'
  | _, _ => false
  end.

Definition set_item_eqb (a b : set_item) : bool :=
  match a, b with
  | Single s, Single t => String.eqb s t
  | Tuple l, Tuple m => strings_eqb l m
  | _, _ => false
  end.

(** [items.add(x)], the set being the list of its elements. *)
Definition set_add (x : set_item) (items : list set_item) : list set_item :=
  if existsb (set_item_eqb x) items then items else items ++ [x].

(** [row.pop()] on a list of strings. *)
Definition pop_string (row : list string) : result string :=
  match row with
  | [] => Raise IndexError
  | _ => Ok (last row "")
  end.

(** The loop of [import_csv_to_set] over the rows of the reader. *)
Fixpoint import_rows (rows : list (list string)) (items : list set_item)
  : result (list set_item) :=
  match rows with
  | [] => Ok items
  | row :: rest =>
      let row := map strip row in
      if (1 <? List.length row)%nat
      then import_rows rest (set_add (Tuple row) items)
      else item <- pop_string row ;;
           import_rows rest (set_add (Single item) items)
  end.

(** [import_csv_to_set(filename)], given the rows [csv.reader] reads from
    the file: one list of columns per line, the empty list for a blank
    line. *)
Definition import_csv_to_set (rows : list (list string))
  : result (list set_item) :=
  let items := [] in
  import_rows rows items.

(* ================================================================== *)
(** * Peeking, in [mrfutils/helpers.py] *)

(** [prepend(value, iterator)]: [chain([value], iterator)]. *)
Definition prepend (value : triple) (iterator : parser) : parser :=
  mkParser (value :: p_events iterator) (p_ending iterator).

(** [peek(iterator)] of [mrfutils/helpers.py]. *)
Definition helpers_peek (iterator : parser) : result (option triple * parser) :=
  match next iterator with
  | (Ok next_, iterator) => Ok (Some next_, prepend next_ iterator)
  | (Raise StopIteration, iterator) => Ok (None, iterator)
  | (Raise e, _) => Raise e
  end.

(* ================================================================== *)
(** * Opening the source, in [mrfutils/helpers.py] *)

(** What [JSONOpen.__enter__] returns: the file object it has opened. *)
Inductive opened : Type :=
| RemoteGzip (url : string)   (* [gzip.GzipFile] over the body of the response *)
| RemoteRaw (url : string)    (* the body of the response *)
| LocalGzip (file : string)   (* [gzip.open(file, 'rb')] *)
| LocalRaw (file : string).   (* [open(file, 'rb')] *)

(** [Path(p).suffix] *)
Definition path_suffix (p : string) : string :=
  let name := path_name p in
  match rfind "." name with
  | Some i =>
      if ((0 <? i) && (i <? String.length name - 1))%nat
      then substring i (String.length name - i) name else ""
  | None => ""
  end.

Definition startswith_slash (s : string) : bool :=
  match s with String c _ => Ascii.eqb c "/" | EmptyString => false end.

(** [os.path.join(a, b)] on POSIX paths. *)
Definition path_join (a b : string) : string :=
  if startswith_slash b then b
  else if String.eqb a "" || endswith a "/" then (a ++ b)%string
  else (a ++ "/" ++ b)%string.

Definition DOWNLOADS_DIR : string := "/processing/temp_downloads".

(** [JSONOpen.download_zip_file(url)] with [destination] at its default,
    given the names of the files in the archive at [url]: the archive is
    extracted to the directory and the first of its files is the one to
    read. *)
Definition download_zip_file (files_in_zip : list string) : result string :=
  let destination := DOWNLOADS_DIR in
  let files_list := map (fun x => path_join destination x) files_in_zip in
  match files_list with
  | [] => Raise IndexError
  | unzipped_filename :: _ => Ok unzipped_filename
  end.

(** [JSONOpen.__enter__] of [mrfutils/helpers.py]; [archive] is what
    fetching and opening the archive gives when the source is one. *)
Definition helpers_JSONOpen_enter (o : JSONOpen)
  (archive : result (list string)) : result opened :=
  '(is_remote, suffix, unzipped_filename) <-
    (if String.eqb (lower (o_suffix o)) ".zip" then
       files_in_zip <- archive ;;
       unzipped_filename <- download_zip_file files_in_zip ;;
       Ok (false, path_suffix unzipped_filename, Some unzipped_filename)
     else Ok (o_is_remote o, o_suffix o, None)) ;;
  if is_remote && endswith suffix ".json.gz" then Ok (RemoteGzip (o_filename o))
  else if is_remote && endswith suffix ".json"
  then Ok (RemoteRaw (o_filename o))
  else if String.eqb suffix ".json.gz" then
    match unzipped_filename with
    | Some unzipped_filename => Ok (LocalGzip unzipped_filename)
    | None => Ok (LocalGzip (o_filename o))
    end
  else
    match unzipped_filename with
    | Some unzipped_filename => Ok (LocalRaw unzipped_filename)
    | None => Ok (LocalRaw (o_filename o))
    end.

(* ================================================================== *)
(** * A small machine-readable file

    One code, one rate, one group given in line with one NPI, one price:
    the first scenario of the specification. *)

Definition example_group : json :=
  JObj [("npi", JArr [JInt 1111111111]);
        ("tin", JObj [("type", JStr "ein"); ("value", JStr "12-3456789")])].

Definition example_price : json :=
  JObj [("negotiated_type", JStr "negotiated");
        ("negotiated_rate", JFloat (mkFloat false 25 2));
        ("expiration_date", JStr "9999-12-31");
        ("billing_class", JStr "professional")].

Definition example_item : json :=
  JObj [("negotiation_arrangement", JStr "ffs");
        ("billing_code_type", JStr "TS-TST");
        ("billing_code_type_version", JStr "2022");
        ("billing_code", JStr "0000");
        ("negotiated_rates",
         JArr [JObj [("provider_groups", JArr [example_group]);
                     ("negotiated_prices", JArr [example_price])]])].

Definition example_document : json :=
  JObj [("reporting_entity_name", JStr "acme");
        ("reporting_entity_type", JStr "insurer");
        ("plan_name", JStr "test plan");
        ("last_updated_on", JStr "2022-07-01");
        ("version", JStr "1.0.0");
        ("in_network", JArr [example_item])].

(** A world in which the file reads as this document every time and
    nothing fails. *)
Definition example_world : world :=
  mkWorld (fun _ => parse example_document)
          (fun _ => BadStatus) (fun l => l) false (fun _ _ => None).

(** Three items: one in the code filter below, one under another
    arrangement, one with another code. *)
Definition example_coded (code_type code arrangement : string) : json :=
  JObj [("negotiation_arrangement", JStr arrangement);
        ("billing_code_type", JStr code_type);
        ("billing_code", JStr code);
        ("negotiated_rates",
         JArr [JObj [("provider_groups", JArr [example_group]);
                     ("negotiated_prices", JArr [example_price])]])].

Definition example_code_filter : code_set := Some [("CPT", "99213")].

(** The same file with its group behind a reference: the references
    before the items, and after them. *)
Definition example_fields : dict :=
  [("reporting_entity_name", JStr "acme");
   ("reporting_entity_type", JStr "insurer");
   ("plan_name", JStr "test plan");
   ("last_updated_on", JStr "2022-07-01");
   ("version", JStr "1.0.0")].

Definition example_reference : json :=
  JObj [("provider_group_id", JInt 1);
        ("provider_groups", JArr [example_group])].

Definition example_referring_item : json :=
  JObj [("negotiation_arrangement", JStr "ffs");
        ("billing_code_type", JStr "TS-TST");
        ("billing_code_type_version", JStr "2022");
        ("billing_code", JStr "0000");
        ("negotiated_rates",
         JArr [JObj [("provider_references", JArr [JInt 1]);
                     ("negotiated_prices", JArr [example_price])]])].

(** A world in which the file reads as [doc] every time and nothing
    fails. *)
Definition world_reading (doc : json) : world :=
  mkWorld (fun _ => parse doc)
          (fun _ => BadStatus) (fun l => l) false (fun _ _ => None).

(** An item whose code is a list, and the text of an item that gives
    its code twice. *)
Definition example_list_coded : json :=
  JObj [("negotiation_arrangement", JStr "ffs");
        ("billing_code_type", JStr "CPT");
        ("billing_code", JArr [JStr "99213"]);
        ("negotiated_rates", JArr [])].

Definition example_twice_coded (first second : string) : json :=
  JObj [("negotiation_arrangement", JStr "ffs");
        ("billing_code_type", JStr "CPT");
        ("billing_code", JStr first);
        ("billing_code", JStr second);
        ("negotiated_rates", JArr [])].

(* ================================================================== *)
(** * Notions the statements use *)

(** No key occurs twice in a dict of the value, at any depth: what every
    Python object that came out of JSON satisfies. *)
Fixpoint distinct (l : list string) : bool :=
  match l with
  | [] => true
  | k :: l' => negb (in_strings k l') && distinct l'
  end.

Fixpoint distinct_keys (v : json) : bool :=
  match v with
  | JArr l => forallb distinct_keys l
  | JObj d =>
      distinct (map fst d) && forallb (fun kv => distinct_keys (snd kv)) d
  | _ => true
  end.

Definition is_container (v : json) : bool :=
  match v with JArr _ | JObj _ => true | _ => false end.

(** The three keys [skip_item_by_code] reads. *)
Definition skip_keys : list string :=
  ["billing_code_type"; "billing_code"; "negotiation_arrangement"].

(** An in-network item as the loop expects it: an object with distinct
    keys in which the three keys, where present, have scalar values. *)
Definition plain_item (item : json) : bool :=
  match item with
  | JObj d =>
      distinct_keys item
      && forallb (fun kv => negb (in_strings (fst kv) skip_keys
                                  && is_container (snd kv))) d
  | _ => false
  end.

(** The item is skipped early: a code filter is set, the code and its
    type are both known and true, and the pair is not in the filter; or
    the arrangement is known and true and is not [ffs]. *)
Definition early_skip (code_filter : code_set) (item : json) : bool :=
  match item with
  | JObj d =>
      let code_type := dict_get d "billing_code_type" in
      let code := dict_get d "billing_code" in
      let arrangement := dict_get d "negotiation_arrangement" in
      truthy_opt code && truthy_opt code_type && code_set_truthy code_filter
      && negb (match code_type, code_filter with
               | Some (JStr t), Some l =>
                   existsb (fun p => String.eqb (fst p) t
                                     && String.eqb (snd p)
                                          (py_str (get_or_none code))) l
               | _, _ => false
               end)
      || truthy_opt arrangement
         && negb (eq_str (get_or_none arrangement) "ffs")
  | _ => false
  end.

(** The loop of [gen_in_network_items] with all the fuel it needs. *)
Definition gen_loop (code_filter : code_set) (p : parser) (b : builder)
  : gen json * parser :=
  gen_in_network_items_loop (S (List.length (p_events p))) code_filter p b.

Definition yield_first (x : json) (r : gen json * parser) : gen json * parser :=
  (gen_yield x (fst r), snd r).

(** What [process_group] leaves in [group['npi']]. *)
Definition kept_npis (ns : list json) (npi_filter : str_set) : list string :=
  if set_truthy npi_filter
  then filter (fun s => in_str_set (JStr s) npi_filter) (map py_str ns)
  else map py_str ns.

(** [m] only appends, and only to the tables [P]. *)
Definition appends {A} (P : table -> Prop) (m : writing A) : Prop :=
  forall log r log',
    m log = (r, log') ->
    exists more, log' = log ++ more /\ Forall (fun x => P (fst x)) more.

(** The tables of the in-network rows and those of the plan. *)
Definition in_network_table (t : table) : Prop :=
  t = codes \/ t = prices \/ t = provider_groups \/ t = prices_provider_groups.

Definition plan_table (t : table) : Prop :=
  t = files \/ t = plans \/ t = plans_files.

(** Every link row of the log has the hash of a group row of the log. *)
Definition linked (log : list written) : Prop :=
  forall row,
    In (prices_provider_groups, row) log ->
    exists h group_row,
      dict_get row "provider_group_hash" = Some h
      /\ In (provider_groups, group_row) log
      /\ dict_get group_row "provider_group_hash" = Some h.

Definition preserves {A} (I : list written -> Prop) (m : writing A) : Prop :=
  forall log r log', I log -> m log = (r, log') -> I log'.

(** ** The states of the builder in the loop over the items *)

Definition opens (above : list (frame * hang)) : list setter :=
  map (fun ch => Open (fst ch) (snd ch)) above.

(** The loop goes on after the tests: there is a value that is not
    empty, and the item is not to be skipped. *)
Definition quiet (code_filter : code_set) (value : option json) : Prop :=
  has_value value = Ok true /\ wants_skip code_filter value = Ok false.

(** The tests stay quiet whatever the container that hangs by [h] on
    [tail] contains, and whatever is open inside it. *)
Definition calm_below (code_filter : code_set) (h : hang) (tail : list setter)
  : Prop :=
  forall above c,
    quiet code_filter (fold_open None (opens above ++ Open c h :: tail)).

(** What [self.containers[-1](v)] makes of the container on top. *)
Definition put (c : frame) (key : option string) (v : json) : frame :=
  match c, key with
  | FMap m, Some k => FMap (dict_set m k v)
  | FMap m, None => FMap m
  | FArr l, _ => FArr (l ++ [v])
  end.

Definition key_ready (c : frame) (key : option string) : Prop :=
  match c with FMap _ => key <> None | FArr _ => True end.

(** Where a container opened inside [c] hangs. *)
Definition hang_in (c : frame) (key : option string) : hang :=
  match c, key with
  | FMap _, Some k => Under k
  | _, _ => Last
  end.

(** A prefix below an in-network item. *)
Definition deep (p : string) : Prop :=
  exists s, p = ("in_network.item." ++ s)%string.

(** The loop takes the events of [v], which go into the container on
    top, and goes on with what follows. *)
Definition runs_through (code_filter : code_set) (v : json) : Prop :=
  forall p c h tail root key rest fin,
    deep p -> calm_below code_filter h tail -> key_ready c key ->
    exists key',
      gen_loop code_filter (mkParser (events_of p v ++ rest) fin)
        (mkBuilder root (Open c h :: tail) key)
      = gen_loop code_filter (mkParser rest fin)
          (mkBuilder root (Open (put c key v) h :: tail) key').

Definition scalar_fields (d : dict) : bool :=
  forallb (fun kv => negb (in_strings (fst kv) skip_keys
                           && is_container (snd kv))) d.

(** The stack while the members of an item are read, and between two
    items. *)
Definition in_item (d : dict) : list setter :=
  [Open (FMap d) Last; Open (FArr []) Root; InitialSet].

Definition between_items : list setter :=
  [Open (FArr []) Root; InitialSet].

(** The events of the members of a dict. *)
Definition member_events (prefix : string) (d : dict) : list triple :=
  flat_map (fun kv => mkTriple prefix "map_key" (JStr (fst kv))
                      :: events_of (sub_prefix prefix (fst kv)) (snd kv)) d.

(** A scalar is one event, of one of four types. *)
Definition events_of_scalar (v : json) (ev : string) : Prop :=
  (forall p, events_of p v = [mkTriple p ev v])
  /\ (ev = "null" \/ ev = "boolean" \/ ev = "number" \/ ev = "string").

(** The values [xs] are yielded before the generator goes on as [r]. *)
Definition yield_all (xs : list json) (r : gen json * parser)
  : gen json * parser :=
  (mkGen (xs ++ yielded (fst r)) (stopped (fst r)), snd r).

(** Induction on a value, with the hypothesis on every element of a list
    and on every member of a dict. *)
Section JsonInduction.

Variable P : json -> Prop.
Hypothesis on_null : P JNull.
Hypothesis on_bool : forall b, P (JBool b).
Hypothesis on_int : forall z, P (JInt z).
Hypothesis on_float : forall f, P (JFloat f).
Hypothesis on_str : forall s, P (JStr s).
Hypothesis on_arr : forall l, Forall P l -> P (JArr l).
Hypothesis on_obj : forall d, Forall (fun kv => P (snd kv)) d -> P (JObj d).

Fixpoint json_induction (v : json) : P v :=
  match v with
  | JNull => on_null
  | JBool b => on_bool b
  | JInt z => on_int z
  | JFloat f => on_float f
  | JStr s => on_str s
  | JArr l =>
      on_arr ((fix elements (l : list json) : Forall P l :=
                 match l with
                 | [] => Forall_nil P
                 | x :: l' => Forall_cons x (json_induction x) (elements l')
                 end) l)
  | JObj d =>
      on_obj ((fix members (d : list (string * json))
                 : Forall (fun kv => P (snd kv)) d :=
                 match d with
                 | [] => Forall_nil _
                 | kv :: d' =>
                     Forall_cons kv (json_induction (snd kv)) (members d')
                 end) d)
  end.

End JsonInduction.

(** Two values are the same mapping when they are equal up to the order
    in which the keys of their dicts were inserted, at any depth: lists
    agree element by element, dicts have the same keys, each once, with
    values that are the same mapping. *)
Fixpoint same_mapping (v1 v2 : json) {struct v1} : Prop :=
  match v1, v2 with
  | JArr l1, JArr l2 =>
      (fix elements (l1 l2 : list json) : Prop :=
         match l1, l2 with
         | [], [] => True
         | x :: l1', y :: l2' => same_mapping x y /\ elements l1' l2'
         | _, _ => False
         end) l1 l2
  | JObj d1, JObj d2 =>
      distinct (map fst d1) = true /\ distinct (map fst d2) = true
      /\ List.length d1 = List.length d2
      /\ (fix members (d : list (string * json)) : Prop :=
            match d with
            | [] => True
            | kv :: d' =>
                (let (k, v) := kv in
                 exists v2, dict_get d2 k = Some v2 /\ same_mapping v v2)
                /\ members d'
            end) d1
  | JArr _, _ => False
  | JObj _, _ => False
  | _, _ => v1 = v2
  end.

(* ================================================================== *)
(** * Notions of the further statements *)

(** The columns [plan_row_from_dict] fills from the plan: the eight keys,
    [None] where the plan has none. *)
Definition plan_fields (d : dict) : dict :=
  map (fun key => (key, get_or_none (dict_get d key))) plan_keys.

(** The three keys [code_row_from_dict] reads. *)
Definition code_keys : list string :=
  ["billing_code_type"; "billing_code_type_version"; "billing_code"].

(** [v] is the string [s]. *)
Definition is_str (o : option json) (s : string) : Prop := o = Some (JStr s).

(** Every row of the table [child] in the log has, under [key], the value
    a row of the table [parent] in the log has under [key]. *)
Definition refers (child : table) (key : string) (parent : table)
  (log : list written) : Prop :=
  forall row,
    In (child, row) log ->
    exists h parent_row,
      dict_get row key = Some h
      /\ In (parent, parent_row) log
      /\ dict_get parent_row key = Some h.

(** The log has a code row with the hash [code_hash]. *)
Definition has_code (code_hash : json) (log : list written) : Prop :=
  exists code_row,
    In (codes, code_row) log /\ dict_get code_row "code_hash" = Some code_hash.

(** [m] only appends, and only rows that satisfy [Q]. *)
Definition adds {A} (Q : written -> Prop) (m : writing A) : Prop :=
  forall log r log',
    m log = (r, log') -> exists more, log' = log ++ more /\ Forall Q more.

(** The row carries the hash of the file where its table has a column
    for it. *)
Definition stamped (filename_hash : Z) (x : written) : Prop :=
  match fst x with
  | files | plans_files | prices =>
      dict_get (snd x) "filename_hash" = Some (JInt filename_hash)
  | _ => True
  end.

(** What is left of a group, a rate and an item once the NPI filter was
    applied: a group lists strings, under a filter that is set at least
    one and only strings of the filter; a rate has at least one such
    group; an item has at least one such rate. *)
Definition filtered_group (npi_filter : str_set) (group : json) : Prop :=
  exists d npis,
    group = JObj d
    /\ dict_get d "npi" = Some (JArr (map JStr npis))
    /\ (set_truthy npi_filter = true ->
        npis <> []
        /\ Forall (fun s => in_str_set (JStr s) npi_filter = true) npis).

Definition filtered_rate (npi_filter : str_set) (rate : json) : Prop :=
  exists d groups,
    rate = JObj d
    /\ dict_get d "provider_groups" = Some (JArr groups)
    /\ groups <> []
    /\ Forall (filtered_group npi_filter) groups.

Definition filtered_item (npi_filter : str_set) (item : json) : Prop :=
  exists d rates,
    item = JObj d
    /\ dict_get d "negotiated_rates" = Some (JArr rates)
    /\ rates <> []
    /\ Forall (filtered_rate npi_filter) rates.

(** The builder takes the events of [v], which go into the container on
    top. *)
Definition feeds_through (v : json) : Prop :=
  forall p c h tail root key,
    key_ready c key ->
    exists key',
      feed (mkBuilder root (Open c h :: tail) key) (events_of p v)
      = Ok (mkBuilder root (Open (put c key v) h :: tail) key').

(** Neither a key nor a string of the value, at any depth, is the name of
    one of the two sections. *)
Fixpoint names_no_section (v : json) : bool :=
  match v with
  | JStr _ => negb (names_section v)
  | JArr l => forallb names_no_section l
  | JObj d =>
      forallb (fun kv => negb (names_section (JStr (fst kv)))
                         && names_no_section (snd kv)) d
  | _ => true
  end.

(** An object: what a provider reference is. *)
Definition is_object (v : json) : bool :=
  match v with JObj _ => true | _ => false end.

(** The events no test of [gen_references] stops at. *)
Definition passes_references (t : triple) : bool :=
  negb (at_place t "provider_references.item" "end_map")
  && negb (at_place t "provider_references" "end_array").

(** A prefix below [base]. *)
Definition below (base p : string) : Prop :=
  exists s, p = (base ++ "." ++ s)%string.

(** The stack of [gen_references] between two references, and while the
    members of a reference are read. *)
Definition between_references : list setter :=
  [Open (FArr []) Root; InitialSet].

Definition in_reference (d : dict) : list setter :=
  [Open (FMap d) Last; Open (FArr []) Root; InitialSet].

(** A provider reference as the loop expects it. *)
Definition plain_reference (reference : json) : bool :=
  is_object reference && distinct_keys reference.

(** How a generator over a parser ends when the parser has no more
    events. *)
Definition ends_as (fin : ending) : result unit :=
  match raised_at_end fin with
  | StopIteration => Ok tt
  | e => Raise e
  end.




(** The file reads as [doc] each of the two times it is opened. *)
Definition reads (doc : json) : Prop :=
  w_content env 0 = parse doc /\ w_content env 1 = parse doc.

(** The two lines of [json_mrf_to_csv] that make the stream of the items
    to write: [content.start_conn()] and [content.in_network_items()]. *)
Definition processed_items (file : string) (code_filter : code_set)
  (npi_filter : str_set) : result (gen json) :=
  content <- start_conn file code_filter npi_filter ;;
  in_network_items content.

(** The members of a plan: distinct keys, and no name of a section among
    the keys and the strings. *)
Definition plan_members (fields : dict) : bool :=
  distinct_keys (JObj fields) && names_no_section (JObj fields).


(** The items [gen_in_network_items] yields under a code filter. *)
Definition unskipped (code_filter : code_set) (items : list json)
  : list json :=
  filter (fun item => negb (early_skip code_filter item)) items.

(** A document with a string member right after the references. *)
Definition member_after_references (before : dict) (refs : list json)
  (k s : string) (more : dict) : json :=
  JObj (before ++ ("provider_references", JArr refs) :: (k, JStr s) :: more).

(** What a row of the reader puts in the set. *)
Definition item_of_row (row : list string) : set_item :=
  let row := map strip row in
  if (1 <? List.length row)%nat then Tuple row else Single (last row "").

(** The groups the reference map has for a reference; none for a
    reference it does not know. *)
Definition referenced (reference_map : ref_map) (reference : json)
  : list json :=
  match ref_map_find reference_map reference with
  | Some (JArr groups) => groups
  | _ => []
  end.

(** The values of the map are lists. *)
Definition lists_of_groups (reference_map : ref_map) : Prop :=
  forall k v, ref_map_find reference_map k = Some v -> is_list v = true.

(** A rate as [swap_references] expects it: an object whose
    [provider_references], where present, are a list of ids that can be
    the keys of a dict, and whose [provider_groups], where present, are
    a list. *)
Definition plain_rate (rate : json) : bool :=
  match rate with
  | JObj d =>
      match dict_get d "provider_references" with
      | None => true
      | Some (JArr refs) => forallb hashable refs
      | Some _ => false
      end
      && match dict_get d "provider_groups" with
         | None | Some (JArr _) => true
         | Some _ => false
         end
  | _ => false
  end.

(** An item whose [negotiated_rates] are a list of such rates. *)
Definition rated_item (item : json) : bool :=
  match item with
  | JObj d =>
      match dict_get d "negotiated_rates" with
      | Some (JArr rates) => forallb plain_rate rates
      | _ => false
      end
  | _ => false
  end.

(** The groups a rate has in line. *)
Definition inline_groups (d : dict) : list json :=
  match dict_get d "provider_groups" with
  | Some (JArr groups) => groups
  | _ => []
  end.

(** A rate with references loses them, and its groups are those it had
    in line followed by those the map has for each reference, in the
    order of the references; a rate without references is left alone. *)
Definition swapped_rate (reference_map : ref_map) (rate : json) : json :=
  match rate with
  | JObj d =>
      match dict_get d "provider_references" with
      | Some (JArr (r :: refs)) =>
          JObj (dict_set (dict_pop d "provider_references") "provider_groups"
                  (JArr (inline_groups d
                         ++ flat_map (referenced reference_map) (r :: refs))))
      | _ => rate
      end
  | _ => rate
  end.

(** [rate.get('provider_groups')] is true. *)
Definition with_groups (rate : json) : bool :=
  match rate with
  | JObj d => truthy_opt (dict_get d "provider_groups")
  | _ => false
  end.

(** What is yielded for an item: the item with the swapped rates that
    have groups, or nothing when no rate has any. *)
Definition swapped_item (reference_map : ref_map) (item : json) : list json :=
  match item with
  | JObj d =>
      match dict_get d "negotiated_rates" with
      | Some (JArr rates) =>
          match filter with_groups (map (swapped_rate reference_map) rates) with
          | [] => []
          | kept => [JObj (dict_set d "negotiated_rates" (JArr kept))]
          end
      | _ => []
      end
  | _ => []
  end.

(** The first reference of the first rate of the item is a list or a
    dict. *)
Definition bad_reference (item : json) : bool :=
  match item with
  | JObj d =>
      match dict_get d "negotiated_rates" with
      | Some (JArr (JObj rate :: _)) =>
          match dict_get rate "provider_references" with
          | Some (JArr (r :: _)) => negb (hashable r)
          | _ => false
          end
      | _ => false
      end
  | _ => false
  end.
(* ================================================================== *)
(** * Properties of the stream navigator *)

Lemma for_break_hit (hit : triple -> bool) l1 t l2 fin :
  Forall (fun x => hit x = false) l1 ->
  hit t = true ->
  for_break hit (l1 ++ t :: l2) fin = (Ok tt, mkParser l2 fin).
Proof.
  induction 1 as [|x l1 Hx _ IH]; intros Ht; simpl.
  - now rewrite Ht.
  - rewrite Hx. now apply IH.
Qed.

Lemma for_break_miss (hit : triple -> bool) l fin :
  Forall (fun x => hit x = false) l ->
  for_break hit l fin = (Raise (raised_at_end fin), finished).
Proof.
  induction 1 as [|x l Hx _ IH]; simpl; [reflexivity|].
  now rewrite Hx.
Qed.

Lemma for_break_ext (h1 h2 : triple -> bool) l fin :
  (forall t, h1 t = h2 t) -> for_break h1 l fin = for_break h2 l fin.
Proof.
  intros E. induction l as [|t l IH]; simpl; [reflexivity|].
  rewrite E, IH. reflexivity.
Qed.

(** With exactly one component left out, the loop that [ffwd] runs tests
    the two components that are given. *)
Lemma ffwd_one_wildcard p a b c :
  wildcards a b c = 1 ->
  ffwd p a b c = for_break (pattern_matches a b c) (p_events p) (p_ending p).
Proof.
  destruct p as [evs fin].
  destruct a as [a|], b as [b|], c as [c|]; simpl; try discriminate; intros _;
    unfold ffwd; cbn [p_events p_ending].
  - rewrite (for_break_ext _ (pattern_matches (Some a) (Some b) None)).
    + now destruct (for_break _ evs fin) as [[[]|e] p1].
    + intros t. unfold pattern_matches. simpl. now rewrite andb_true_r.
  - apply for_break_ext. intros t. unfold pattern_matches. simpl.
    now rewrite andb_true_r.
  - rewrite (for_break_ext _ (pattern_matches None (Some b) (Some c))).
    + now destruct (for_break _ evs fin) as [[[]|e] p1].
    + intros t. reflexivity.
Qed.

(** C7 (as amended): with exactly one of [prefix], [event], [value] left
    out, [ffwd] consumes the stream up to and including the first triple
    whose two given components match and leaves the rest; when no triple
    of a complete stream matches, it raises [StopIteration]. *)
Theorem ffwd_one_wildcard_first_match :
  forall a b c, wildcards a b c = 1 ->
    (forall l1 t l2 fin,
        Forall (fun x => pattern_matches a b c x = false) l1 ->
        pattern_matches a b c t = true ->
        ffwd (mkParser (l1 ++ t :: l2) fin) a b c = (Ok tt, mkParser l2 fin))
    /\ (forall l,
        Forall (fun x => pattern_matches a b c x = false) l ->
        ffwd (mkParser l Exhausted) a b c = (Raise StopIteration, finished)).
Proof.
  intros a b c W. split.
  - intros l1 t l2 fin Hl1 Ht. rewrite ffwd_one_wildcard by exact W. simpl.
    now apply for_break_hit.
  - intros l Hl. rewrite ffwd_one_wildcard by exact W. simpl.
    now rewrite for_break_miss.
Qed.

(** The skip of one in-network item, as [skip_item_by_code] asks for it. *)
Lemma ffwd_one_wildcard_first_match_witness :
  let rate := mkTriple "in_network.item.negotiated_rates" "end_array" JNull in
  let close := mkTriple "in_network.item" "end_map" JNull in
  let after := mkTriple "in_network" "end_array" JNull in
  ffwd (mkParser [rate; close; after] Exhausted)
       (Some "in_network.item") (Some "end_map") None
  = (Ok tt, mkParser [after] Exhausted).
Proof.
  intros rate close after.
  refine (proj1 (ffwd_one_wildcard_first_match
                   (Some "in_network.item") (Some "end_map") None _)
                [rate] close [after] Exhausted _ _).
  - reflexivity.
  - repeat constructor.
  - reflexivity.
Defined.

(** C7 (as stated) fails when the pattern leaves out two components: the
    only triple of the stream matches the pattern, and [ffwd] raises
    [StopIteration]; and when nothing is left out, [ffwd] consumes
    nothing. *)
Lemma ffwd_any_subset_counterexample :
  let close := mkTriple "in_network.item" "end_map" JNull in
  pattern_matches None (Some "end_map") None close = true
  /\ ffwd (mkParser [close] Exhausted) None (Some "end_map") None
     = (Raise StopIteration, finished)
  /\ pattern_matches (Some "a") (Some "string") (Some "x")
       (mkTriple "a" "string" (JStr "x")) = true
  /\ ffwd (mkParser [mkTriple "" "start_map" JNull;
                     mkTriple "a" "string" (JStr "x")] Exhausted)
          (Some "a") (Some "string") (Some "x")
     = (Ok tt, mkParser [mkTriple "" "start_map" JNull;
                         mkTriple "a" "string" (JStr "x")] Exhausted).
Proof. repeat split. Qed.

(* ================================================================== *)
(** * Properties of plan extraction *)

Lemma feed_app b l1 l2 :
  feed b (l1 ++ l2) = (b' <- feed b l1 ;; feed b' l2).
Proof.
  revert b. induction l1 as [|t l1 IH]; intros b; simpl; [reflexivity|].
  destruct (b_event b (t_event t) (t_value t)) as [b'|e]; simpl;
    [apply IH | reflexivity].
Qed.

Lemma get_plan_loop_stops b l1 t l2 fin b' v :
  Forall (fun x => names_section (t_value x) = false) l1 ->
  names_section (t_value t) = true ->
  feed b (l1 ++ [t]) = Ok b' ->
  b_value b' = Some v ->
  get_plan_loop b (l1 ++ t :: l2) fin = (Ok v, mkParser l2 fin).
Proof.
  intros Hl1. revert b. induction Hl1 as [|x l1 Hx _ IH]; intros b Ht Hf Hv.
  - simpl in *. destruct (b_event b (t_event t) (t_value t)) as [b1|e];
      [|discriminate]. simpl in Hf. injection Hf as ->.
    now rewrite Ht, Hv.
  - simpl in *. destruct (b_event b (t_event x) (t_value x)) as [b1|e];
      [|discriminate]. simpl in Hf. rewrite Hx. now apply IH.
Qed.

Lemma b_event_not_invalid b ev v :
  b_event b ev v <> Raise InvalidMRF.
Proof.
  unfold b_event, open_new, containers_pop, call_top.
  repeat match goal with
         | |- context [if ?c then _ else _] => destruct c
         | |- context [match ?x with _ => _ end] => destruct x
         end; discriminate.
Qed.

Lemma get_plan_loop_invalid b l fin :
  fst (get_plan_loop b l fin) = Raise InvalidMRF <->
  stream_ends fin = true
  /\ Forall (fun x => names_section (t_value x) = false) l
  /\ is_ok (feed b l) = true.
Proof.
  revert b. induction l as [|t l IH]; intros b; simpl.
  - unfold stream_ends. destruct (raised_at_end fin); simpl; split;
      first [ discriminate | intros [? _]; discriminate | auto ].
  - pose proof (b_event_not_invalid b (t_event t) (t_value t)) as NI.
    destruct (b_event b (t_event t) (t_value t)) as [b1|e]; simpl.
    + destruct (names_section (t_value t)) eqn:Hs.
      * split.
        -- destruct (b_value b1); simpl; discriminate.
        -- intros (_ & HF & _). inversion HF; subst. congruence.
      * rewrite IH. split.
        -- intros (Hfin & HF & Hk). repeat split; auto.
        -- intros (Hfin & HF & Hk). inversion HF; subst. repeat split; auto.
    + split.
      * intros H. congruence.
      * intros (_ & _ & H). discriminate.
Qed.

Lemma get_plan_loop_returns b l fin v :
  fst (get_plan_loop b l fin) = Ok v ->
  exists l1 t l2 b',
    l = l1 ++ t :: l2
    /\ Forall (fun x => names_section (t_value x) = false) l1
    /\ names_section (t_value t) = true
    /\ feed b (l1 ++ [t]) = Ok b'
    /\ b_value b' = Some v.
Proof.
  revert b. induction l as [|t l IH]; intros b; simpl.
  - destruct (raised_at_end fin); discriminate.
  - destruct (b_event b (t_event t) (t_value t)) as [b1|e] eqn:Hb; simpl;
      [|discriminate].
    destruct (names_section (t_value t)) eqn:Hs.
    + destruct (b_value b1) as [v'|] eqn:Hv; simpl; [|discriminate].
      intros [= ->]. exists [], t, l, b1. simpl. rewrite Hb. simpl. auto.
    + intros H. destruct (IH _ H) as (l1 & t' & l2 & b' & -> & HF & Ht & Hf & Hv).
      exists (t :: l1), t', l2, b'. simpl. rewrite Hb. simpl. auto.
Qed.

Lemma get_plan_loop_propagates b l fin :
  Forall (fun x => names_section (t_value x) = false) l ->
  is_ok (feed b l) = true ->
  stream_ends fin = false ->
  fst (get_plan_loop b l fin) = Raise (raised_at_end fin).
Proof.
  intros Hl. revert b. induction Hl as [|x l Hx _ IH]; intros b Hf Hs.
  - simpl. unfold stream_ends in Hs.
    destruct (raised_at_end fin); first [ discriminate | reflexivity ].
  - simpl in *. destruct (b_event b (t_event x) (t_value x)) as [b1|e];
      [|discriminate]. simpl in Hf. rewrite Hx. now apply IH.
Qed.

(** C8 (as amended): the three ways [get_plan] ends on a stream whose
    events the builder takes.
    It raises [InvalidMRF] exactly when the event stream ends before any
    event whose value is ["provider_references"] or ["in_network"], be
    it that the parser stops at the end of a complete document or that
    the input source itself raises [InvalidMRF]; the keys of the plan
    are not looked at.
    It returns exactly when an event with such a value arrives, and what
    it returns is the object the builder holds after the events consumed
    so far, the last of which is the first one with such a value.
    When the stream raises any other exception before such an event, as
    the tokenizer does on a file cut short, it raises that exception:
    neither [InvalidMRF] nor a plan. *)
Theorem get_plan_invalid_iff_stream_ends :
  forall p,
    (fst (get_plan p) = Raise InvalidMRF <->
     stream_ends (p_ending p) = true
     /\ Forall (fun x => names_section (t_value x) = false) (p_events p)
     /\ is_ok (feed ObjectBuilder (p_events p)) = true)
    /\ (forall v, fst (get_plan p) = Ok v <->
         exists l1 t l2 b,
           p_events p = l1 ++ t :: l2
           /\ Forall (fun x => names_section (t_value x) = false) l1
           /\ names_section (t_value t) = true
           /\ feed ObjectBuilder (l1 ++ [t]) = Ok b
           /\ b_value b = Some v)
    /\ (Forall (fun x => names_section (t_value x) = false) (p_events p) ->
        is_ok (feed ObjectBuilder (p_events p)) = true ->
        stream_ends (p_ending p) = false ->
        fst (get_plan p) = Raise (raised_at_end (p_ending p))
        /\ raised_at_end (p_ending p) <> InvalidMRF).
Proof.
  intros [l fin]. unfold get_plan. simpl. split; [|split].
  - apply get_plan_loop_invalid.
  - intros v. split.
    + apply get_plan_loop_returns.
    + intros (l1 & t & l2 & b & -> & Hl1 & Ht & Hf & Hv).
      now rewrite (@get_plan_loop_stops _ _ _ l2 fin _ _ Hl1 Ht Hf Hv).
  - intros Hl Hf Hs. split.
    + now apply get_plan_loop_propagates.
    + unfold stream_ends in Hs. destruct (raised_at_end fin); discriminate.
Qed.

(** On a file cut short inside the plan, the tokenizer's error comes
    out of [get_plan]. *)
Lemma get_plan_invalid_iff_stream_ends_witness :
  let cut := mkParser [mkTriple "" "start_map" JNull;
                       mkTriple "" "map_key" (JStr "plan_name");
                       mkTriple "plan_name" "string" (JStr "test plan")]
                      (Raises JSONError) in
  fst (get_plan cut) = Raise JSONError.
Proof.
  intros cut.
  refine (proj1 (proj2 (proj2 (get_plan_invalid_iff_stream_ends cut)) _ _ _)).
  - simpl. repeat constructor.
  - reflexivity.
  - reflexivity.
Defined.

(** C8 (as stated) fails, in both of its halves.  A document without
    any of the keys of a plan but with an [in_network] array is
    accepted, and the plan returned is empty.  A file cut short before
    the name of a section, on which the tokenizer raises, makes
    [get_plan] raise the tokenizer's error: the stream has no event
    naming a section, and the outcome is neither [InvalidMRF] nor a
    plan. *)
Lemma get_plan_missing_keys_counterexample :
  let doc := JObj [("in_network", JArr [])] in
  let cut := mkParser [mkTriple "" "start_map" JNull;
                       mkTriple "" "map_key" (JStr "plan_name");
                       mkTriple "plan_name" "string" (JStr "test plan")]
                      (Raises JSONError) in
  (Forall (fun k => dict_get [("in_network", JArr [])] k = None) plan_keys
   /\ fst (get_plan (parse doc)) = Ok (JObj [])
   /\ fst (get_plan (parse doc)) <> Raise InvalidMRF)
  /\ (Forall (fun x => names_section (t_value x) = false) (p_events cut)
      /\ fst (get_plan cut) = Raise JSONError
      /\ fst (get_plan cut) <> Raise InvalidMRF
      /\ forall v, fst (get_plan cut) <> Ok v).
Proof.
  simpl. repeat split; try discriminate; repeat constructor.
Qed.

(** C10: [get_plan] stops at the first event whose value is one of the two
    names, whatever its prefix and its event type are, and returns what
    the builder holds then; so a plan whose [plan_name] is ["in_network"]
    is cut short after [plan_name], and a plan with an object that has a
    key [in_network] is cut short inside that object, in both cases
    before the [plan_id] that follows and before the array [in_network]
    of the document. *)
Theorem get_plan_stops_at_first_name :
  (forall l1 t l2 fin b v,
      Forall (fun x => names_section (t_value x) = false) l1 ->
      names_section (t_value t) = true ->
      feed ObjectBuilder (l1 ++ [t]) = Ok b ->
      b_value b = Some v ->
      get_plan (mkParser (l1 ++ t :: l2) fin) = (Ok v, mkParser l2 fin))
  /\ (let doc := JObj [("reporting_entity_name", JStr "acme");
                       ("plan_name", JStr "in_network");
                       ("plan_id", JStr "42");
                       ("in_network", JArr [])] in
      get_plan (parse doc)
      = (Ok (JObj [("reporting_entity_name", JStr "acme");
                   ("plan_name", JStr "in_network")]),
         mkParser [mkTriple "" "map_key" (JStr "plan_id");
                   mkTriple "plan_id" "string" (JStr "42");
                   mkTriple "" "map_key" (JStr "in_network");
                   mkTriple "in_network" "start_array" JNull;
                   mkTriple "in_network" "end_array" JNull;
                   mkTriple "" "end_map" JNull] Exhausted))
  /\ (let doc := JObj [("reporting_entity_name", JStr "acme");
                       ("tiers", JObj [("in_network", JInt 1)]);
                       ("plan_id", JStr "42");
                       ("in_network", JArr [])] in
      fst (get_plan (parse doc))
      = Ok (JObj [("reporting_entity_name", JStr "acme");
                  ("tiers", JObj [])])).
Proof.
  split; [|split; reflexivity].
  intros l1 t l2 fin b v Hl1 Ht Hf Hv. unfold get_plan. simpl.
  now apply get_plan_loop_stops with (b' := b).
Qed.

(** A string event at [plan_name] is enough to stop the extraction. *)
Lemma get_plan_stops_at_first_name_witness :
  get_plan (mkParser [mkTriple "" "start_map" JNull;
                      mkTriple "" "map_key" (JStr "plan_name");
                      mkTriple "plan_name" "string" (JStr "in_network");
                      mkTriple "" "map_key" (JStr "plan_id")] (Raises JSONError))
  = (Ok (JObj [("plan_name", JStr "in_network")]),
     mkParser [mkTriple "" "map_key" (JStr "plan_id")] (Raises JSONError)).
Proof.
  refine (proj1 get_plan_stops_at_first_name
            [mkTriple "" "start_map" JNull;
             mkTriple "" "map_key" (JStr "plan_name")]
            (mkTriple "plan_name" "string" (JStr "in_network"))
            [mkTriple "" "map_key" (JStr "plan_id")] (Raises JSONError)
            (mkBuilder None
               [Open (FMap [("plan_name", JStr "in_network")]) Root; InitialSet]
               (Some "plan_name"))
            _ _ _ _ _).
  - repeat constructor.
  - reflexivity.
  - reflexivity.
  - reflexivity.
Defined.

(* ================================================================== *)
(** * Properties of the sort *)

Section Sorting.

Context {A : Type} (le : A -> A -> bool).
Hypothesis le_total : forall a b, le a b = true \/ le b a = true.
Hypothesis le_trans : forall a b c, le a b = true -> le b c = true -> le a c = true.

Let R (a b : A) : Prop := le a b = true.

Lemma insert_sorted_perm x l : Permutation (x :: l) (insert_sorted le x l).
Proof.
  induction l as [|y l IH]; simpl; [reflexivity|].
  destruct (le y x); [|reflexivity].
  rewrite perm_swap. now apply perm_skip.
Qed.

Lemma insert_sorted_In x y l : In y (insert_sorted le x l) -> y = x \/ In y l.
Proof.
  intros H. apply (Permutation_in _ (Permutation_sym (insert_sorted_perm x l))) in H.
  destruct H; auto.
Qed.

Lemma insert_sorted_sorted x l :
  StronglySorted R l -> StronglySorted R (insert_sorted le x l).
Proof.
  induction 1 as [|y l Hs IH Hy]; simpl.
  - repeat constructor.
  - destruct (le y x) eqn:E.
    + constructor; [exact IH|].
      rewrite Forall_forall in *. intros z Hz.
      apply insert_sorted_In in Hz. destruct Hz as [-> | Hz]; [exact E | auto].
    + assert (Hxy : le x y = true) by (destruct (le_total x y); congruence).
      constructor; [constructor; assumption|].
      constructor; [exact Hxy|].
      rewrite Forall_forall in *. intros z Hz. eapply le_trans; eauto.
      apply Hy, Hz.
Qed.

Lemma fold_insert_perm l acc :
  Permutation (acc ++ l)
    (fold_left (fun acc x => insert_sorted le x acc) l acc).
Proof.
  revert acc. induction l as [|x l IH]; intros acc; simpl.
  - now rewrite app_nil_r.
  - eapply Permutation_trans; [|apply IH].
    eapply Permutation_trans; [apply Permutation_sym, Permutation_middle|].
    change (x :: acc ++ l) with ((x :: acc) ++ l).
    apply Permutation_app_tail, insert_sorted_perm.
Qed.

Lemma fold_insert_sorted l acc :
  StronglySorted R acc ->
  StronglySorted R (fold_left (fun acc x => insert_sorted le x acc) l acc).
Proof.
  revert acc. induction l as [|x l IH]; intros acc H; simpl; [exact H|].
  apply IH. now apply insert_sorted_sorted.
Qed.

Lemma sort_by_perm l : Permutation l (sort_by le l).
Proof. exact (fold_insert_perm l []). Qed.

Lemma sort_by_sorted l : StronglySorted R (sort_by le l).
Proof. apply fold_insert_sorted. constructor. Qed.

(** Two sorted lists with the same elements are equal, provided no two
    elements of them are equivalent. *)
Lemma sorted_perm_unique l1 l2 :
  StronglySorted R l1 -> StronglySorted R l2 -> Permutation l1 l2 ->
  (forall a b, In a l1 -> In b l1 -> le a b = true -> le b a = true -> a = b) ->
  l1 = l2.
Proof.
  intros H1. revert l2. induction H1 as [|x l1 Hs IH Hx]; intros l2 H2 P An.
  - apply Permutation_nil in P. now subst.
  - destruct H2 as [|y l2 Hs2 Hy].
    + apply Permutation_sym, Permutation_nil in P. discriminate.
    + assert (x = y) as <-.
      { assert (Iy : In y (x :: l1))
          by (apply (Permutation_in _ (Permutation_sym P)); left; reflexivity).
        assert (Ix : In x (y :: l2))
          by (apply (Permutation_in _ P); left; reflexivity).
        destruct Iy as [E | Iy]; [exact E|].
        destruct Ix as [E | Ix]; [now symmetry|].
        rewrite Forall_forall in Hx, Hy.
        apply An; [left; reflexivity | right; exact Iy | apply Hx, Iy | apply Hy, Ix]. }
      f_equal. apply IH; [exact Hs2 | eapply Permutation_cons_inv; exact P |].
      intros a b Ia Ib. apply An; right; assumption.
Qed.

Lemma sort_by_perm_invariant l1 l2 :
  Permutation l1 l2 ->
  (forall a b, In a l1 -> In b l1 -> le a b = true -> le b a = true -> a = b) ->
  sort_by le l1 = sort_by le l2.
Proof.
  intros P An. apply sorted_perm_unique.
  - apply sort_by_sorted.
  - apply sort_by_sorted.
  - rewrite <- (sort_by_perm l1), <- (sort_by_perm l2). exact P.
  - intros a b Ia Ib. apply An;
      eapply Permutation_in; try eassumption; apply Permutation_sym, sort_by_perm.
Qed.

End Sorting.

(** The order of strings. *)
Lemma ascii_compare_refl a : Ascii.compare a a = Eq.
Proof. unfold Ascii.compare. apply N.compare_refl. Qed.

Lemma string_leb_trans a b c :
  String.leb a b = true -> String.leb b c = true -> String.leb a c = true.
Proof.
  unfold String.leb. revert b c.
  induction a as [|x a IH]; intros [|y b] [|z c]; simpl; try congruence.
  unfold Ascii.compare.
  destruct (N.compare_spec (N_of_ascii x) (N_of_ascii y)) as [E1|L1|G1];
    destruct (N.compare_spec (N_of_ascii y) (N_of_ascii z)) as [E2|L2|G2];
    try congruence.
  - rewrite E1, E2, N.compare_refl. apply IH.
  - intros _ _. rewrite E1. now apply N.compare_lt_iff in L2 as ->.
  - intros _ _. rewrite <- E2. now apply N.compare_lt_iff in L1 as ->.
  - intros _ _. assert (L : (N_of_ascii x < N_of_ascii z)%N) by lia.
    now apply N.compare_lt_iff in L as ->.
Qed.

(* ================================================================== *)
(** * Properties of dicts *)

Lemma dict_get_set d k v k' :
  dict_get (dict_set d k v) k' = if String.eqb k k' then Some v else dict_get d k'.
Proof.
  induction d as [|[k0 v0] d IH]; simpl.
  - reflexivity.
  - destruct (String.eqb_spec k0 k) as [->|N]; simpl.
    + destruct (String.eqb k k'); reflexivity.
    + rewrite IH. destruct (String.eqb_spec k0 k') as [->|N'].
      * destruct (String.eqb_spec k k'); [congruence | reflexivity].
      * reflexivity.
Qed.

Lemma dict_set_set d k v w : dict_set (dict_set d k v) k w = dict_set d k w.
Proof.
  induction d as [|[k0 v0] d IH]; simpl.
  - now rewrite String.eqb_refl.
  - destruct (String.eqb_spec k0 k) as [->|N]; simpl.
    + now rewrite String.eqb_refl.
    + destruct (String.eqb_spec k0 k); [congruence|]. now rewrite IH.
Qed.

Lemma In_firstn {A} (x : A) k l : In x (firstn k l) -> In x l.
Proof.
  revert l. induction k as [|k IH]; intros [|y l]; simpl; try tauto.
  intros [E | I]; auto.
Qed.

(* ================================================================== *)
(** * Properties of the input source *)

(** C3 (as amended): the constructor of [mrfutils/helpers.py] accepts a
    file name exactly when its combined suffix, in lower case, ends with
    [.json.gz], [.json] or [.zip]; the constructor of
    [processors/mrfutils.py] accepts it exactly when the combined suffix
    is [.json.gz] or [.json], letter case included; both raise
    [InvalidMRF] for any other suffix. *)
Theorem JSONOpen_init_suffix_recognition :
  forall filename,
    let suffix := combined_suffix filename in
    (is_ok (helpers_JSONOpen_init filename) = true <->
     endswith (lower suffix) ".json.gz" = true
     \/ endswith (lower suffix) ".json" = true
     \/ endswith (lower suffix) ".zip" = true)
    /\ (is_ok (helpers_JSONOpen_init filename) = false ->
        helpers_JSONOpen_init filename = Raise InvalidMRF)
    /\ (is_ok (JSONOpen_init filename) = true <->
        suffix = ".json.gz" \/ suffix = ".json")
    /\ (is_ok (JSONOpen_init filename) = false ->
        JSONOpen_init filename = Raise InvalidMRF).
Proof.
  intros filename suffix.
  unfold helpers_JSONOpen_init, JSONOpen_init, in_strings.
  fold (combined_suffix filename). fold suffix. cbn [existsb].
  repeat split.
  - destruct (endswith (lower suffix) ".json.gz");
      destruct (endswith (lower suffix) ".json");
      destruct (endswith (lower suffix) ".zip"); simpl; auto; discriminate.
  - intros [H | [H | H]]; rewrite H; simpl; rewrite ?orb_true_r; reflexivity.
  - destruct (negb _); [reflexivity | discriminate].
  - destruct (String.eqb_spec suffix ".json.gz"); [auto|].
    destruct (String.eqb_spec suffix ".json"); [auto|]. discriminate.
  - intros [-> | ->]; reflexivity.
  - destruct (negb _); [reflexivity | discriminate].
Qed.

(* ================================================================== *)
(** * Properties of the hash *)

Lemma int_from_bytes_little_LE_u64 bs :
  int_from_bytes_little (firstn 8 bs) = LE_u64 bs.
Proof.
  unfold LE_u64.
  do 8 (destruct bs as [|? bs];
        [cbn [firstn int_from_bytes_little seq map nth fold_right];
         change (Byte.to_N Byte.x00) with 0%N; cbn [Z.of_N]; lia|]).
  cbn [firstn int_from_bytes_little seq map nth fold_right]. lia.
Qed.

Lemma int_from_bytes_little_range bs :
  (0 <= int_from_bytes_little bs < 256 ^ Z.of_nat (List.length bs))%Z.
Proof.
  induction bs as [|b bs IH]; [simpl; lia|].
  cbn [int_from_bytes_little List.length].
  rewrite Nat2Z.inj_succ, Z.pow_succ_r by lia.
  assert (Hb : (0 <= Z.of_N (Byte.to_N b) < 256)%Z).
  { pose proof (Byte.to_N_bounded b). lia. }
  lia.
Qed.

Lemma dict_key_functional (d : dict) k v v' :
  NoDup (dict_keys d) -> In (k, v) d -> In (k, v') d -> v = v'.
Proof.
  unfold dict_keys. induction d as [|[k0 v0] d IH]; simpl; [tauto|].
  intros ND [E1 | I1] [E2 | I2]; inversion ND; subst.
  - congruence.
  - injection E1 as -> ->. exfalso. apply H1.
    change k with (fst (k, v')). now apply in_map.
  - injection E2 as -> ->. exfalso. apply H1.
    change k with (fst (k, v)). now apply in_map.
  - now apply IH.
Qed.

Lemma key_leb_total a b : key_leb a b = true \/ key_leb b a = true.
Proof. apply String.leb_total. Qed.

Lemma key_leb_trans a b c :
  key_leb a b = true -> key_leb b c = true -> key_leb a c = true.
Proof. apply string_leb_trans. Qed.

Lemma distinct_NoDup l : distinct l = true -> NoDup l.
Proof.
  induction l as [|k l IH]; simpl; [constructor|].
  intros H. apply andb_prop in H as [N D]. constructor; [|now apply IH].
  intros I. apply negb_true_iff in N. unfold in_strings in N.
  assert (T : existsb (String.eqb k) l = true); [|congruence].
  apply existsb_exists. exists k. split; [exact I | apply String.eqb_refl].
Qed.

Lemma dict_get_In (d : dict) k v : dict_get d k = Some v -> In (k, v) d.
Proof.
  induction d as [|[k0 v0] d IH]; simpl; [discriminate|].
  destruct (String.eqb_spec k0 k) as [->|N]; [|auto].
  intros [= ->]. now left.
Qed.

(** Members with distinct keys are put in one order, whatever order they
    come in. *)
Lemma sorted_members_unique (m1 m2 : list (string * string)) :
  NoDup (map fst m1) -> Permutation m1 m2 ->
  sort_by key_leb m1 = sort_by key_leb m2.
Proof.
  intros ND P.
  apply (sort_by_perm_invariant key_leb key_leb_total key_leb_trans P).
  intros [k1 r1] [k2 r2] I1 I2 L1 L2. unfold key_leb in L1, L2. simpl in L1, L2.
  assert (k1 = k2) as -> by (apply String.leb_antisym; assumption).
  f_equal. clear L1 L2 P. induction m1 as [|[k r] m1 IH]; [contradiction|].
  simpl in ND. inversion ND as [|? ? N ND']; subst.
  destruct I1 as [E1 | I1], I2 as [E2 | I2].
  - congruence.
  - injection E1 as -> ->. exfalso. apply N.
    change k2 with (fst (k2, r2)). now apply in_map.
  - injection E2 as -> ->. exfalso. apply N.
    change k2 with (fst (k2, r1)). now apply in_map.
  - now apply IH.
Qed.

(** The rendering with sorted keys does not see the order in which the
    keys were inserted. *)
Lemma json_dumps_sort_keys_perm d1 d2 :
  NoDup (dict_keys d1) -> Permutation d1 d2 ->
  json_dumps true (JObj d1) = json_dumps true (JObj d2).
Proof.
  intros ND P. cbn [json_dumps]. do 4 f_equal.
  apply sorted_members_unique.
  - now rewrite map_map.
  - now apply Permutation_map.
Qed.

(** Nor does it see the order of insertion of the dicts inside. *)
Lemma json_dumps_sort_keys_same_mapping v1 :
  forall v2, same_mapping v1 v2 -> json_dumps true v1 = json_dumps true v2.
Proof.
  induction v1 as [| b | z | f | s | l IH | d IH] using json_induction;
    intros v2 S; try (simpl in S; now subst v2).
  - destruct v2 as [| | | | | l2 |]; try contradiction.
    cbn [json_dumps]. do 3 f_equal.
    revert l2 S. induction IH as [|x l Hx _ IHl]; intros [|y l2] S;
      try contradiction; [reflexivity|].
    destruct S as [Sx Sl]. cbn [map]. f_equal; [now apply Hx | now apply IHl].
  - destruct v2 as [| | | | | | d2]; try contradiction.
    destruct S as (D1 & D2 & Len & M).
    cbn [json_dumps]. do 4 f_equal.
    set (render := fun kv : string * json => (fst kv, json_dumps true (snd kv))).
    apply sorted_members_unique.
    + rewrite map_map. now apply distinct_NoDup.
    + apply NoDup_Permutation_bis.
      * apply (NoDup_map_inv fst). rewrite map_map. now apply distinct_NoDup.
      * now rewrite !length_map, Len.
      * clear D1 Len. intros m I.
        induction IH as [|[k v] d Hv _ IHd]; [contradiction|].
        destruct M as [(v2 & G & Sv) Md].
        destruct I as [<- | I]; [|now apply IHd].
        apply in_map_iff. exists (k, v2). split.
        -- unfold render. cbn [fst snd] in *. now rewrite (Hv v2 Sv).
        -- now apply dict_get_In.
Qed.

(** C2: on a dict that is not empty [dicthasher] returns the number that
    the first eight bytes of the SHA-256 digest of the UTF-8 encoding of
    [json.dumps(d, sort_keys=True)] spell in little-endian order, a number
    below [2^64]; two dicts with the same keys and values get the same
    hash in whatever order the keys were inserted, in the dict itself and
    in the dicts inside its values; the empty dict raises. *)
Theorem dicthasher_canonical :
  (forall d, d <> [] ->
     dicthasher d
     = Ok (LE_u64 (SHA256.digest (encode_utf8 (json_dumps true (JObj d))))))
  /\ (forall d h, dicthasher d = Ok h -> (0 <= h < 2 ^ 64)%Z)
  /\ (forall d1 d2,
        NoDup (dict_keys d1) -> Permutation d1 d2 ->
        dicthasher d1 = dicthasher d2)
  /\ (forall d1 d2,
        same_mapping (JObj d1) (JObj d2) -> dicthasher d1 = dicthasher d2)
  /\ dicthasher [] = Raise PlainException.
Proof.
  repeat split.
  - intros d Hd. unfold dicthasher, dicthasher_bytes.
    destruct d; [congruence|]. cbn [truthy negb].
    now rewrite int_from_bytes_little_LE_u64.
  - unfold dicthasher, dicthasher_bytes in H.
    destruct (negb _); [discriminate|]. injection H as <-.
    apply int_from_bytes_little_range.
  - unfold dicthasher, dicthasher_bytes in H.
    destruct (negb _); [discriminate|]. injection H as <-.
    set (bs := firstn 8 (SHA256.digest (encode_utf8 (json_dumps true (JObj d))))).
    pose proof (int_from_bytes_little_range bs) as R.
    assert (L : (List.length bs <= 8)%nat) by apply firstn_le_length.
    change (2 ^ 64)%Z with (256 ^ 8)%Z.
    eapply Z.lt_le_trans; [apply R|].
    apply Z.pow_le_mono_r; lia.
  - intros d1 d2 ND P. unfold dicthasher, dicthasher_bytes.
    rewrite (json_dumps_sort_keys_perm ND P).
    destruct d1, d2; try reflexivity.
    + now apply Permutation_nil in P.
    + now apply Permutation_sym, Permutation_nil in P.
  - intros d1 d2 S. unfold dicthasher, dicthasher_bytes.
    rewrite (json_dumps_sort_keys_same_mapping (JObj d1) (JObj d2) S).
    destruct S as (_ & _ & Len & _).
    destruct d1, d2; try reflexivity; discriminate.
Qed.

(* ================================================================== *)
(** * Properties of the NPI filter and of the group row *)

Lemma py_sorted_strings l :
  py_sorted (map JStr l) = Ok (map JStr (sort_by String.leb l)).
Proof.
  destruct l as [|a [|b l]]; try reflexivity.
  unfold py_sorted. cbn [map].
  assert (F : forall l0, forallb is_string (map JStr l0) = true).
  { intros l0. induction l0 as [|x l0 IH0]; simpl; auto. }
  change (JStr a :: JStr b :: map JStr l) with (map JStr (a :: b :: l)).
  rewrite F, map_map. cbn [string_of]. now rewrite map_id.
Qed.

Lemma filter_in_str_set f (l : list string) :
  filter (fun n => in_str_set n f) (map JStr l)
  = map JStr (filter (fun s => in_str_set (JStr s) f) l).
Proof.
  induction l as [|s l IH]; cbn [filter map]; [reflexivity|].
  rewrite IH. now destruct (in_str_set (JStr s) f).
Qed.

Lemma process_group_spec g npi ns f :
  dict_get g "npi" = Some npi ->
  py_iter npi = Ok ns ->
  process_group (JObj g) f
  = Ok (if set_truthy f && match kept_npis ns f with [] => true | _ => false end
        then None
        else Some (JObj (dict_set g "npi" (JArr (map JStr (kept_npis ns f)))))).
Proof.
  intros Hg Hn. unfold process_group, kept_npis.
  cbn [py_getitem]. rewrite Hg. cbn [bind]. rewrite Hn. cbn [bind py_setitem].
  destruct (set_truthy f) eqn:T; cbn [negb andb py_getitem].
  - rewrite dict_get_set, String.eqb_refl. cbn [bind py_iter py_setitem py_getitem].
    rewrite dict_set_set, dict_get_set, String.eqb_refl. cbn [bind].
    rewrite <- (map_map py_str JStr), filter_in_str_set.
    now destruct (filter _ (map py_str ns)).
  - now rewrite <- (map_map py_str JStr).
Qed.

Lemma group_row_from_dict_spec g strs tin tin_type tin_value :
  dict_get g "npi" = Some (JArr (map JStr strs)) ->
  dict_get g "tin" = Some tin ->
  py_getitem tin "type" = Ok tin_type ->
  py_getitem tin "value" = Ok tin_value ->
  exists h,
    group_row_from_dict (JObj g)
    = Ok [("npi_numbers",
           JStr (json_dumps false (JArr (map JStr (sort_by String.leb strs)))));
          ("tin_type", tin_type); ("tin_value", tin_value);
          ("provider_group_hash", JInt h)].
Proof.
  intros Hn Ht Hty Hv. unfold group_row_from_dict.
  cbn [py_getitem]. rewrite Hn, Ht. cbn [bind py_iter].
  rewrite py_sorted_strings. cbn [bind]. rewrite Hty, Hv. cbn [bind].
  unfold append_hash, dicthasher, dicthasher_bytes. cbn [truthy negb bind].
  eexists. reflexivity.
Qed.

(** C5 (as amended): under a filter that is not empty, [process_group]
    keeps a group if and only if the string of one of its NPIs is in the
    filter; the [npi_numbers] of the row of a group that is kept is the
    JSON array, as [json.dumps] writes it with [", "] between the
    elements, of the strings of the NPIs that are in the filter, in
    ascending order; under an empty or absent filter the group is kept
    with all its NPIs, as strings, and the row lists them in ascending
    order. *)
Theorem process_group_then_row :
  forall g npi ns tin tin_type tin_value f,
    dict_get g "npi" = Some npi ->
    py_iter npi = Ok ns ->
    dict_get g "tin" = Some tin ->
    py_getitem tin "type" = Ok tin_type ->
    py_getitem tin "value" = Ok tin_value ->
    let survivors :=
      filter (fun s => in_str_set (JStr s) f) (map py_str ns) in
    let listed := if set_truthy f then survivors else map py_str ns in
    (set_truthy f = true ->
       (is_ok (process_group (JObj g) f) = true)
       /\ ((exists g', process_group (JObj g) f = Ok (Some g')) <->
           (exists n, In n ns /\ in_str_set (JStr (py_str n)) f = true)))
    /\ (set_truthy f = false ->
        exists g', process_group (JObj g) f = Ok (Some g'))
    /\ (forall g', process_group (JObj g) f = Ok (Some g') ->
        exists row,
          group_row_from_dict g' = Ok row
          /\ dict_get row "npi_numbers"
             = Some (JStr (json_dumps false
                             (JArr (map JStr (sort_by String.leb listed))))))
    /\ StronglySorted (fun a b => String.leb a b = true)
         (sort_by String.leb listed)
    /\ Permutation listed (sort_by String.leb listed).
Proof.
  intros g npi ns tin tin_type tin_value f Hg Hn Ht Hty Hv survivors listed.
  pose proof (process_group_spec g f Hg Hn) as PG.
  assert (K : kept_npis ns f = listed) by reflexivity. rewrite K in PG.
  split; [|split; [|split; [|split]]].
  - intros T. rewrite T in PG. subst listed. rewrite T in *. cbn [andb] in PG.
    split; [rewrite PG; reflexivity|].
    split.
    + intros [g' E]. rewrite PG in E.
      destruct survivors as [|s l] eqn:S; [discriminate|].
      assert (I : In s survivors) by (rewrite S; left; reflexivity).
      apply filter_In in I as [I B]. apply in_map_iff in I as (n & <- & I).
      now exists n.
    + intros (n & I & B). rewrite PG.
      assert (I' : In (py_str n) survivors).
      { apply filter_In. split; [now apply in_map | exact B]. }
      destruct survivors; [destruct I' | eexists; reflexivity].
  - intros T. rewrite T in PG. cbn [andb] in PG. eexists. exact PG.
  - intros g' E. rewrite PG in E.
    destruct (set_truthy f && _); [discriminate|]. injection E as <-.
    destruct (@group_row_from_dict_spec
                (dict_set g "npi" (JArr (map JStr listed)))
                listed tin tin_type tin_value) as [h Hrow]; auto.
    + now rewrite dict_get_set.
    + now rewrite dict_get_set.
    + eexists. split; [exact Hrow | reflexivity].
  - apply sort_by_sorted.
    + apply String.leb_total.
    + apply string_leb_trans.
  - apply sort_by_perm.
Qed.

(* ================================================================== *)
(** * What the writers append *)

Lemma appends_lift {A} P (r : result A) : appends P (lift r).
Proof.
  intros log r' log' [= <- <-]. exists []. now rewrite app_nil_r.
Qed.

Lemma appends_ret {A} P (a : A) : appends P (ret a).
Proof. exact (@appends_lift A P (Ok a)). Qed.

Lemma appends_and_then {A B} P (m : writing A) (k : A -> writing B) :
  appends P m -> (forall a, appends P (k a)) -> appends P (and_then m k).
Proof.
  intros Hm Hk log r log'. unfold and_then.
  destruct (m log) as [[a|e] l1] eqn:E.
  - intros H. destruct (Hm _ _ _ E) as (m1 & -> & F1).
    destruct (Hk a _ _ _ H) as (m2 & -> & F2).
    exists (m1 ++ m2). rewrite app_assoc. split; [reflexivity|].
    now apply Forall_app.
  - intros [= <- <-]. exact (Hm _ _ _ E).
Qed.

Lemma appends_weaken {A} (P Q : table -> Prop) (m : writing A) :
  (forall t, P t -> Q t) -> appends P m -> appends Q m.
Proof.
  intros PQ Hm log r log' E. destruct (Hm _ _ _ E) as (more & -> & F).
  exists more. split; [reflexivity|].
  eapply Forall_impl; [|exact F]. intros x. apply PQ.
Qed.

(** The rows a call of [write_rows] appends are the first rows it was
    given, all of them when it returns. *)
Lemma write_rows_log t rows room log r log' :
  write_rows t rows room log = (r, log') ->
  exists k,
    log' = log ++ map (pair t) (firstn k rows)
    /\ (r = Ok tt -> firstn k rows = rows).
Proof.
  revert room log. induction rows as [|row rows IH]; intros room log; simpl.
  - destruct room; intros [= <- <-]; exists 0%nat;
      (split; [now rewrite app_nil_r | auto]).
  - destruct room as [[|n]|].
    + intros [= <- <-]. exists 0%nat. simpl.
      split; [now rewrite app_nil_r | discriminate].
    + destruct (forallb _ _).
      * intros H. destruct (IH _ _ H) as (k & -> & Hk). exists (S k). simpl.
        rewrite <- app_assoc. split; [reflexivity|].
        intros E. now rewrite (Hk E).
      * intros [= <- <-]. exists 0%nat. simpl.
        split; [now rewrite app_nil_r | discriminate].
    + destruct (forallb _ _).
      * intros H. destruct (IH _ _ H) as (k & -> & Hk). exists (S k). simpl.
        rewrite <- app_assoc. split; [reflexivity|].
        intros E. now rewrite (Hk E).
      * intros [= <- <-]. exists 0%nat. simpl.
        split; [now rewrite app_nil_r | discriminate].
Qed.

Lemma write_table_log rows t log r log' :
  write_table rows t log = (r, log') ->
  exists k,
    log' = log ++ map (pair t) (firstn k rows)
    /\ (r = Ok tt -> firstn k rows = rows).
Proof. apply write_rows_log. Qed.

Lemma appends_write_table rows t : appends (eq t) (write_table rows t).
Proof.
  intros log r log' E. destruct (write_table_log _ _ _ E) as (k & -> & _).
  eexists. split; [reflexivity|].
  apply Forall_forall. intros x Hx. apply in_map_iff in Hx as (? & <- & _).
  reflexivity.
Qed.

Lemma appends_write_table_in (P : table -> Prop) rows t :
  P t -> appends P (write_table rows t).
Proof.
  intros Pt. eapply appends_weaken; [|apply appends_write_table].
  now intros ? <-.
Qed.

Create HintDb appends.
#[local] Hint Resolve appends_and_then appends_lift appends_ret
  appends_write_table_in : appends.
#[local] Hint Unfold in_network_table plan_table : appends.

Lemma appends_write_rate rate code_hash filename_hash :
  appends in_network_table (write_rate rate code_hash filename_hash).
Proof. unfold write_rate. auto 20 with appends. Qed.

Lemma appends_write_rates rates code_hash filename_hash :
  appends in_network_table (write_rates rates code_hash filename_hash).
Proof.
  induction rates as [|rate rates IH]; simpl.
  - apply appends_ret.
  - apply appends_and_then; [apply appends_write_rate | intros _; exact IH].
Qed.

Lemma appends_write_in_network_item item filename_hash :
  appends in_network_table (write_in_network_item item filename_hash).
Proof.
  pose proof appends_write_rates.
  unfold write_in_network_item. auto 20 with appends.
Qed.

Lemma appends_write_items items upstream filename_hash :
  appends in_network_table (write_items items upstream filename_hash).
Proof.
  induction items as [|item items IH]; simpl.
  - apply appends_lift.
  - apply appends_and_then;
      [apply appends_write_in_network_item | intros _; exact IH].
Qed.

Lemma appends_write_plan plan filename_hash filename url :
  appends plan_table (write_plan plan filename_hash filename url).
Proof. unfold write_plan. auto 20 with appends. Qed.

(* ================================================================== *)
(** * The order of the rows of a run *)

Lemma write_items_ok items upstream filename_hash log log' :
  write_items items upstream filename_hash log = (Ok tt, log') ->
  upstream = Ok tt.
Proof.
  revert log. induction items as [|item l IH]; intros l0; simpl.
  - unfold lift. intros [= -> _]. reflexivity.
  - unfold and_then.
    destruct (write_in_network_item item filename_hash l0) as [[[]|e] l1];
      [apply IH | discriminate].
Qed.

(** C1: the rows a run of [json_mrf_to_csv] appends are in-network rows
    followed by plan-level rows; and when a single plan-level row is
    there, the plan was extracted, the stream of the items came to its
    end without an exception and every item was written in full: the
    in-network rows of the run are those of the complete loop.  A run
    that is cut short before the end of the loop, whatever the reason,
    appends no plan-level row. *)
Theorem plan_rows_after_all_items :
  forall url file code_filter npi_filter log0 r log,
    json_mrf_to_csv url file code_filter npi_filter log0 = (r, log) ->
    let file := match file with None => url | Some f => f end in
    exists item_rows plan_rows,
      log = log0 ++ item_rows ++ plan_rows
      /\ Forall (fun x => in_network_table (fst x)) item_rows
      /\ Forall (fun x => plan_table (fst x)) plan_rows
      /\ (plan_rows <> [] ->
          exists filename_hash content items,
            filename_hasher file = Ok filename_hash
            /\ start_conn file code_filter npi_filter = Ok content
            /\ in_network_items content = Ok items
            /\ stopped items = Ok tt
            /\ write_items (yielded items) (stopped items) filename_hash log0
               = (Ok tt, log0 ++ item_rows)).
Proof.
  intros url file0 code_filter npi_filter log0 r log H file.
  unfold json_mrf_to_csv in H. fold file in H.
  unfold and_then, lift, make_dir, raise, ret in H.
  assert (Stop : forall e, (Raise e, log0) = (r, log) ->
            exists item_rows plan_rows,
              log = log0 ++ item_rows ++ plan_rows
              /\ Forall (fun x => in_network_table (fst x)) item_rows
              /\ Forall (fun x => plan_table (fst x)) plan_rows
              /\ (plan_rows <> [] ->
                  exists filename_hash content items,
                    filename_hasher file = Ok filename_hash
                    /\ start_conn file code_filter npi_filter = Ok content
                    /\ in_network_items content = Ok items
                    /\ stopped items = Ok tt
                    /\ write_items (yielded items) (stopped items)
                         filename_hash log0
                       = (Ok tt, log0 ++ item_rows))).
  { intros e [= <- <-]. exists [], []. rewrite !app_nil_r.
    repeat split; auto. intros N. now contradiction N. }
  destruct (filename_hasher file) as [fh|e] eqn:Efh; [|eauto].
  destruct (start_conn file code_filter npi_filter) as [content|e] eqn:Ec;
    [|eauto].
  destruct (in_network_items content) as [items|e] eqn:Ei; [|eauto].
  destruct (w_mkdir_fails env); [eauto|].
  destruct (write_items (yielded items) (stopped items) fh log0)
    as [[[]|e] log1] eqn:Ew.
  - destruct (appends_write_items _ _ _ _ Ew) as (item_rows & -> & Fi).
    destruct (appends_write_plan _ _ _ _ _ H) as (plan_rows & -> & Fp).
    exists item_rows, plan_rows. rewrite app_assoc.
    repeat split; auto. intros _.
    exists fh, content, items. repeat split; auto.
    exact (write_items_ok _ _ _ _ Ew).
  - injection H as <- <-.
    destruct (appends_write_items _ _ _ _ Ew) as (item_rows & -> & Fi).
    exists item_rows, []. rewrite app_nil_r.
    repeat split; auto. intros N. now contradiction N.
Qed.

(* ================================================================== *)
(** * Links and their groups *)

Lemma preserves_lift {A} I (r : result A) : preserves I (lift r).
Proof. intros log r' log' H [= <- <-]. exact H. Qed.

Lemma preserves_ret {A} I (a : A) : preserves I (ret a).
Proof. exact (@preserves_lift A I (Ok a)). Qed.

Lemma preserves_and_then {A B} I (m : writing A) (k : A -> writing B) :
  preserves I m -> (forall a, preserves I (k a)) -> preserves I (and_then m k).
Proof.
  intros Hm Hk log r log' H. unfold and_then.
  destruct (m log) as [[a|e] l1] eqn:E.
  - apply (Hk a). exact (Hm _ _ _ H E).
  - intros [= <- <-]. exact (Hm _ _ _ H E).
Qed.

Lemma linked_app log more :
  linked log ->
  (forall row, In (prices_provider_groups, row) more ->
     exists h group_row,
       dict_get row "provider_group_hash" = Some h
       /\ In (provider_groups, group_row) (log ++ more)
       /\ dict_get group_row "provider_group_hash" = Some h) ->
  linked (log ++ more).
Proof.
  intros L M row I. apply in_app_or in I as [I | I].
  - destruct (L row I) as (h & g & E & Ig & Eg). exists h, g.
    repeat split; auto. apply in_or_app. now left.
  - exact (M row I).
Qed.

Lemma preserves_write_table rows t :
  t <> prices_provider_groups -> preserves linked (write_table rows t).
Proof.
  intros N log r log' L E.
  destruct (write_table_log _ _ _ E) as (k & -> & _).
  apply linked_app; [exact L|].
  intros row I. apply in_map_iff in I as (x & Ex & _).
  injection Ex as Et _. congruence.
Qed.

Lemma mapM_In {A B} (f : A -> result B) l bs b :
  mapM f l = Ok bs -> In b bs -> exists a, In a l /\ f a = Ok b.
Proof.
  revert bs. induction l as [|a l IH]; simpl; intros bs.
  - intros [= <-] [].
  - destruct (f a) as [b0|e] eqn:E; simpl; [|discriminate].
    destruct (mapM f l) as [bs0|e]; simpl; [|discriminate].
    intros [= <-] [<- | I].
    + exists a. auto.
    + destruct (IH _ eq_refl I) as (a' & Ia & Ea). exists a'. auto.
Qed.

Lemma mapM_length {A B} (f : A -> result B) l bs :
  mapM f l = Ok bs -> List.length bs = List.length l.
Proof.
  revert bs. induction l as [|a l IH]; simpl; intros bs.
  - now intros [= <-].
  - destruct (f a) as [b0|e]; simpl; [|discriminate].
    destruct (mapM f l) as [bs0|e]; simpl; [|discriminate].
    intros [= <-]. simpl. now rewrite (IH _ eq_refl).
Qed.

(** The link rows are the product of the price rows and the group rows,
    and each carries the hash of its group row. *)
Lemma prices_groups_rows_product price_rows group_rows rows :
  prices_groups_rows_from_dicts price_rows group_rows = Ok rows ->
  List.length rows = (List.length price_rows * List.length group_rows)%nat
  /\ forall row, In row rows ->
       exists h group_row,
         dict_get row "provider_group_hash" = Some h
         /\ In group_row group_rows
         /\ dict_get group_row "provider_group_hash" = Some h.
Proof.
  unfold prices_groups_rows_from_dicts.
  destruct (mapM _ price_rows) as [rws|e] eqn:E; simpl; [|discriminate].
  intros [= <-]. split.
  - revert rws E. induction price_rows as [|p ps IH]; simpl; intros rws.
    + now intros [= <-].
    + destruct (mapM _ group_rows) as [r1|e] eqn:E1; simpl; [|discriminate].
      destruct (mapM _ ps) as [r2|e] eqn:E2; simpl; [|discriminate].
      intros [= <-]. simpl. rewrite length_app, (IH _ eq_refl).
      now rewrite (mapM_length _ _ E1).
  - intros row I. apply in_concat in I as (rs & Irs & Irow).
    destruct (mapM_In _ _ _ E Irs) as (p & _ & Ep).
    destruct (mapM_In _ _ _ Ep Irow) as (g & Ig & Eg).
    unfold prices_groups_row in Eg. cbn [py_getitem] in Eg.
    destruct (dict_get g "provider_group_hash") as [h|] eqn:Eh; [|discriminate].
    cbn [bind] in Eg.
    destruct (dict_get p "price_hash") as [ph|]; [|discriminate].
    cbn [bind] in Eg. injection Eg as <-.
    exists h, g. simpl. auto.
Qed.

Lemma preserves_write_rate rate code_hash filename_hash :
  preserves linked (write_rate rate code_hash filename_hash).
Proof.
  unfold write_rate.
  apply preserves_and_then; [apply preserves_lift | intros prices_].
  apply preserves_and_then; [apply preserves_lift | intros groups].
  apply preserves_and_then; [apply preserves_lift | intros price_rows].
  apply preserves_and_then;
    [apply preserves_write_table; discriminate | intros _].
  apply preserves_and_then; [apply preserves_lift | intros group_rows].
  intros log r log' L. unfold and_then.
  destruct (write_table group_rows provider_groups log) as [[[]|e] l1] eqn:Eg.
  - destruct (write_table_log _ _ _ Eg) as (k & -> & Full).
    rewrite (Full eq_refl).
    unfold lift.
    destruct (prices_groups_rows_from_dicts price_rows group_rows)
      as [links|e] eqn:El.
    + intros Ew. destruct (write_table_log _ _ _ Ew) as (k' & -> & _).
      rewrite <- app_assoc. apply linked_app; [exact L|].
      intros row I. apply in_app_or in I as [I | I].
      * apply in_map_iff in I as (x & [= _] & _).
      * apply in_map_iff in I as (x & [= <-] & I).
        apply In_firstn in I.
        destruct (prices_groups_rows_product _ _ El) as (_ & P).
        destruct (P _ I) as (h & g & E1 & Ig & E2).
        exists h, g. repeat split; auto.
        apply in_or_app. right. apply in_or_app. left.
        now apply in_map.
    + intros [= <- <-].
      refine (@preserves_write_table group_rows provider_groups _
                log (Ok tt) _ L _); [discriminate|].
      rewrite Eg, (Full eq_refl). reflexivity.
  - intros [= <- <-].
    refine (@preserves_write_table group_rows provider_groups _
              log (Raise e) _ L Eg). discriminate.
Qed.

Lemma preserves_write_rates rates code_hash filename_hash :
  preserves linked (write_rates rates code_hash filename_hash).
Proof.
  induction rates as [|rate rates IH]; simpl.
  - apply preserves_ret.
  - apply preserves_and_then;
      [apply preserves_write_rate | intros _; exact IH].
Qed.

Lemma preserves_write_in_network_item item filename_hash :
  preserves linked (write_in_network_item item filename_hash).
Proof.
  unfold write_in_network_item.
  apply preserves_and_then; [apply preserves_lift | intros code_row].
  apply preserves_and_then;
    [apply preserves_write_table; discriminate | intros _].
  apply preserves_and_then; [apply preserves_lift | intros code_hash].
  apply preserves_and_then; [apply preserves_lift | intros rates].
  apply preserves_and_then; [apply preserves_write_rates | intros _].
  apply preserves_and_then; [apply preserves_lift | intros _].
  apply preserves_and_then; [apply preserves_lift | intros _].
  apply preserves_ret.
Qed.

Lemma preserves_write_items items upstream filename_hash :
  preserves linked (write_items items upstream filename_hash).
Proof.
  induction items as [|item items IH]; simpl.
  - apply preserves_lift.
  - apply preserves_and_then;
      [apply preserves_write_in_network_item | intros _; exact IH].
Qed.

Lemma preserves_write_plan plan filename_hash filename url :
  preserves linked (write_plan plan filename_hash filename url).
Proof.
  unfold write_plan.
  apply preserves_and_then;
    [apply preserves_write_table; discriminate | intros _].
  apply preserves_and_then; [apply preserves_lift | intros plan_row].
  apply preserves_and_then;
    [apply preserves_write_table; discriminate | intros _].
  apply preserves_and_then; [apply preserves_lift | intros plan_file_row].
  apply preserves_write_table; discriminate.
Qed.

Lemma preserves_json_mrf_to_csv url file code_filter npi_filter :
  preserves linked (json_mrf_to_csv url file code_filter npi_filter).
Proof.
  unfold json_mrf_to_csv.
  apply preserves_and_then; [apply preserves_lift | intros filename_hash].
  apply preserves_and_then; [apply preserves_lift | intros content].
  apply preserves_and_then; [apply preserves_lift | intros items].
  apply preserves_and_then.
  - unfold make_dir. destruct (w_mkdir_fails env);
      [apply (@preserves_lift unit linked (Raise OSError)) | apply preserves_ret].
  - intros _. apply preserves_and_then;
      [apply preserves_write_items | intros _; apply preserves_write_plan].
Qed.

(** What a rate appends when [write_rate] returns. *)
Lemma write_rate_rows rate code_hash filename_hash log log' :
  write_rate rate code_hash filename_hash log = (Ok tt, log') ->
  exists price_rows group_rows links,
    log' = log ++ map (pair prices) price_rows
               ++ map (pair provider_groups) group_rows
               ++ map (pair prices_provider_groups) links
    /\ prices_groups_rows_from_dicts price_rows group_rows = Ok links.
Proof.
  unfold write_rate, and_then, lift.
  destruct (py_getitem rate "negotiated_prices") as [prices_|e];
    [|discriminate].
  destruct (bind (py_get rate "provider_groups") _) as [groups|e];
    [|discriminate].
  destruct (price_rows_from_dicts _ _ _) as [price_rows|e]; [|discriminate].
  destruct (write_table price_rows prices log) as [[[]|e] l1] eqn:E1;
    [|discriminate].
  destruct (group_rows_from_dicts groups) as [group_rows|e]; [|discriminate].
  destruct (write_table group_rows provider_groups l1) as [[[]|e] l2] eqn:E2;
    [|discriminate].
  destruct (prices_groups_rows_from_dicts price_rows group_rows)
    as [links|e] eqn:El; [|discriminate].
  intros E3.
  destruct (write_table_log _ _ _ E1) as (k1 & -> & F1).
  destruct (write_table_log _ _ _ E2) as (k2 & -> & F2).
  destruct (write_table_log _ _ _ E3) as (k3 & -> & F3).
  rewrite (F1 eq_refl), (F2 eq_refl), (F3 eq_refl).
  exists price_rows, group_rows, links. rewrite <- !app_assoc. auto.
Qed.

(** C9: in what a run of [json_mrf_to_csv] leaves in the tables, every
    row of [prices_provider_groups] carries a [provider_group_hash] that a
    row of [provider_groups] carries as well, however the run ends; the
    link rows a rate appends are the product of the price rows and of the
    group rows that were appended for this rate just before. *)
Theorem every_link_row_has_its_group_row :
  (forall url file code_filter npi_filter log0 r log,
      linked log0 ->
      json_mrf_to_csv url file code_filter npi_filter log0 = (r, log) ->
      forall row,
        In (prices_provider_groups, row) log ->
        exists h group_row,
          dict_get row "provider_group_hash" = Some h
          /\ In (provider_groups, group_row) log
          /\ dict_get group_row "provider_group_hash" = Some h)
  /\ (forall rate code_hash filename_hash log log',
        write_rate rate code_hash filename_hash log = (Ok tt, log') ->
        exists price_rows group_rows links,
          log' = log ++ map (pair prices) price_rows
                     ++ map (pair provider_groups) group_rows
                     ++ map (pair prices_provider_groups) links
          /\ prices_groups_rows_from_dicts price_rows group_rows = Ok links
          /\ List.length links
             = (List.length price_rows * List.length group_rows)%nat
          /\ forall row, In row links ->
               exists h group_row,
                 dict_get row "provider_group_hash" = Some h
                 /\ In group_row group_rows
                 /\ dict_get group_row "provider_group_hash" = Some h).
Proof.
  split.
  - intros url file code_filter npi_filter log0 r log L E.
    exact (@preserves_json_mrf_to_csv url file code_filter npi_filter
             log0 r log L E).
  - intros rate code_hash filename_hash log log' E.
    destruct (write_rate_rows _ _ _ _ E) as (ps & gs & ls & -> & El).
    exists ps, gs, ls. destruct (prices_groups_rows_product _ _ El). auto.
Qed.

(* ================================================================== *)
(** * Properties of the stream of in-network items *)

(** ** The loop does not depend on its fuel *)

Lemma for_break_shorter hit l fin :
  (List.length (p_events (snd (for_break hit l fin))) <= List.length l)%nat.
Proof.
  induction l as [|t l IH]; simpl; [lia|].
  destruct (hit t); simpl; lia.
Qed.

Lemma skip_item_by_code_shorter p b cf :
  (List.length (p_events (snd (skip_item_by_code p b cf)))
   <= List.length (p_events p))%nat.
Proof.
  unfold skip_item_by_code.
  destruct (wants_skip cf (b_value b)) as [[|]|e]; simpl; try lia.
  unfold skip_to_end_of_item.
  rewrite ffwd_one_wildcard by reflexivity.
  pose proof (for_break_shorter
                (pattern_matches (Some "in_network.item") (Some "end_map") None)
                (p_events p) (p_ending p)) as L.
  destruct (for_break _ _ _) as [[[]|e] p']; simpl in *; exact L.
Qed.

Lemma turn_ext k1 k2 p b cf :
  (forall p2 b2,
      (List.length (p_events p2) < List.length (p_events p))%nat ->
      k1 p2 b2 = k2 p2 b2) ->
  gen_in_network_items_turn k1 p b cf = gen_in_network_items_turn k2 p b cf.
Proof.
  intros E. unfold gen_in_network_items_turn, next.
  destruct p as [[|t rest] fin]; simpl; [reflexivity|].
  destruct (b_event b (t_event t) (t_value t)) as [b1|e]; [|reflexivity].
  destruct (has_value (b_value b1)) as [check|e]; [|reflexivity].
  assert (L : (List.length
                 (p_events (snd (if check
                                 then skip_item_by_code (mkParser rest fin) b1 cf
                                 else (Ok b1, mkParser rest fin))))
               <= List.length rest)%nat).
  { destruct check; [apply (skip_item_by_code_shorter (mkParser rest fin))|].
    simpl. lia. }
  destruct (if check then _ else _) as [[b2|e] p2]; [|reflexivity].
  simpl in L, E.
  destruct (at_place t "in_network.item" "end_map").
  - destruct (value_pop b2) as [[x b3]|e]; [|reflexivity].
    rewrite E by lia. reflexivity.
  - destruct (at_place t "in_network" "end_array"); [reflexivity|].
    apply E. lia.
Qed.

Lemma loop_fuel cf fuel1 :
  forall fuel2 p b,
    (List.length (p_events p) < fuel1)%nat ->
    (List.length (p_events p) < fuel2)%nat ->
    gen_in_network_items_loop fuel1 cf p b
    = gen_in_network_items_loop fuel2 cf p b.
Proof.
  induction fuel1 as [|fuel1 IH]; intros [|fuel2] p b L1 L2; try lia.
  simpl. apply turn_ext. intros p2 b2 L. apply IH; lia.
Qed.

(** One turn of the loop followed by the loop. *)
Lemma gen_loop_turn cf p b :
  gen_loop cf p b = gen_in_network_items_turn (gen_loop cf) p b cf.
Proof.
  unfold gen_loop at 1. simpl. apply turn_ext. intros p2 b2 L.
  unfold gen_loop. apply loop_fuel; lia.
Qed.

(** ** One quiet turn *)

Lemma quiet_turn cf t rest fin b b1 :
  b_event b (t_event t) (t_value t) = Ok b1 ->
  quiet cf (b_value b1) ->
  at_place t "in_network.item" "end_map" = false ->
  at_place t "in_network" "end_array" = false ->
  gen_loop cf (mkParser (t :: rest) fin) b = gen_loop cf (mkParser rest fin) b1.
Proof.
  intros Hb [Hv Hs] A1 A2. rewrite gen_loop_turn.
  unfold gen_in_network_items_turn, next. cbn [p_events p_ending].
  rewrite Hb, Hv. unfold skip_item_by_code. rewrite Hs, A1, A2. reflexivity.
Qed.

Lemma deep_sub p name : deep p -> deep (sub_prefix p name).
Proof.
  intros [s ->]. unfold sub_prefix. cbn [String.eqb Ascii.eqb].
  exists (s ++ "." ++ name)%string. cbn [String.append].
  do 16 f_equal. induction s as [|a s IH]; simpl; congruence.
Qed.

Lemma deep_not_item p ev v :
  deep p -> at_place (mkTriple p ev v) "in_network.item" "end_map" = false.
Proof. intros [s ->]. reflexivity. Qed.

Lemma deep_not_array p ev v :
  deep p -> at_place (mkTriple p ev v) "in_network" "end_array" = false.
Proof. intros [s ->]. reflexivity. Qed.

Lemma quiet_b_value cf b :
  quiet cf (fold_open None (b_containers b)) -> quiet cf (b_value b).
Proof.
  unfold b_value. destruct (fold_open None (b_containers b)); [auto|].
  intros [H _]. discriminate.
Qed.

Lemma calm_below_top cf h tail c root key :
  calm_below cf h tail ->
  quiet cf (b_value (mkBuilder root (Open c h :: tail) key)).
Proof. intros C. apply quiet_b_value. exact (C [] c). Qed.

Lemma calm_below_push cf h tail c h2 :
  calm_below cf h tail -> calm_below cf h2 (Open c h :: tail).
Proof.
  intros C above c2.
  change (opens above ++ Open c2 h2 :: Open c h :: tail)
    with (opens above ++ opens [(c2, h2)] ++ Open c h :: tail).
  rewrite app_assoc. unfold opens. rewrite <- map_app. apply C.
Qed.

Lemma dict_set_fresh d k v :
  in_strings k (map fst d) = false -> dict_set d k v = d ++ [(k, v)].
Proof.
  unfold in_strings. induction d as [|[k0 v0] d IH]; simpl; [reflexivity|].
  rewrite String.eqb_sym.
  destruct (String.eqb k0 k); simpl; [discriminate|].
  intros H. now rewrite IH.
Qed.

Lemma distinct_app_cons acc k (rest : list string) :
  distinct (acc ++ k :: rest) = true ->
  in_strings k acc = false /\ distinct ((acc ++ [k]) ++ rest) = true.
Proof.
  intros H. split.
  - induction acc as [|a acc IH]; simpl in *; [reflexivity|].
    apply andb_prop in H as [N D]. rewrite (IH D), orb_false_r.
    apply negb_true_iff in N. unfold in_strings in N.
    rewrite existsb_app in N. apply orb_false_elim in N as [_ N].
    simpl in N. apply orb_false_elim in N as [N _].
    now rewrite String.eqb_sym.
  - now rewrite <- app_assoc.
Qed.

(** ** Values below an item *)

Lemma scalar_runs_through cf v ev :
  events_of_scalar v ev ->
  runs_through cf v.
Proof.
  intros [E Hev] p c h tail root key rest fin Dp C K.
  exists key. rewrite (E p). cbn [app].
  apply quiet_turn.
  - cbn [t_event t_value]. unfold b_event.
    destruct Hev as [-> | [-> | [-> | ->]]]; cbn [String.eqb Ascii.eqb orb];
      unfold call_top; cbn [b_containers b_root b_key];
      destruct c as [m|l]; try reflexivity;
      (destruct key as [k|]; [reflexivity | now contradiction K]).
  - apply calm_below_top, C.
  - now apply deep_not_item.
  - now apply deep_not_array.
Qed.

(** The elements of a list go to the end of the list on top, one after
    the other. *)
Lemma elements_run cf l :
  Forall (runs_through cf) l ->
  forall p acc h tail root key rest fin,
    deep p -> calm_below cf h tail ->
    exists key',
      gen_loop cf (mkParser (flat_map (events_of p) l ++ rest) fin)
        (mkBuilder root (Open (FArr acc) h :: tail) key)
      = gen_loop cf (mkParser rest fin)
          (mkBuilder root (Open (FArr (acc ++ l)) h :: tail) key').
Proof.
  induction 1 as [|x l Hx _ IH]; intros p acc h tail root key rest fin Dp C.
  - exists key. simpl. now rewrite app_nil_r.
  - cbn [flat_map]. rewrite <- app_assoc.
    destruct (Hx p (FArr acc) h tail root key
                 (flat_map (events_of p) l ++ rest) fin Dp C I) as [k1 E1].
    rewrite E1. cbn [put].
    destruct (IH p (acc ++ [x]) h tail root k1 rest fin Dp C) as [k2 E2].
    exists k2. rewrite E2, <- app_assoc. reflexivity.
Qed.

(** The members of a dict with distinct keys go to the dict on top, in
    their order. *)
Lemma members_run cf d :
  Forall (fun kv => runs_through cf (snd kv)) d ->
  forall p acc h tail root key rest fin,
    deep p -> calm_below cf h tail ->
    distinct (map fst (acc ++ d)) = true ->
    exists key',
      gen_loop cf (mkParser (member_events p d ++ rest) fin)
        (mkBuilder root (Open (FMap acc) h :: tail) key)
      = gen_loop cf (mkParser rest fin)
          (mkBuilder root (Open (FMap (acc ++ d)) h :: tail) key').
Proof.
  induction 1 as [|[k v] d Hv _ IH];
    intros p acc h tail root key rest fin Dp C Dk.
  - exists key. simpl. now rewrite app_nil_r.
  - unfold member_events. cbn [flat_map fst snd]. cbn [app].
    rewrite <- app_assoc. fold (member_events p d). cbn [snd] in Hv.
    rewrite (@quiet_turn cf _ _ fin _
               (mkBuilder root (Open (FMap acc) h :: tail) (Some k))).
    + destruct (Hv (sub_prefix p k) (FMap acc) h tail root (Some k)
                   (member_events p d ++ rest) fin
                   (deep_sub k Dp) C) as [k1 E1]; [discriminate|].
      rewrite E1. cbn [put].
      rewrite map_app in Dk. cbn [map fst] in Dk.
      apply distinct_app_cons in Dk as [Fresh Dk].
      rewrite dict_set_fresh by exact Fresh.
      destruct (IH p (acc ++ [(k, v)]) h tail root k1 rest fin Dp C)
        as [k2 E2].
      { rewrite !map_app. exact Dk. }
      exists k2. rewrite E2, <- app_assoc. reflexivity.
    + reflexivity.
    + apply calm_below_top, C.
    + now apply deep_not_item.
    + now apply deep_not_array.
Qed.

Lemma hang_on_put c key v :
  hang_on v (hang_in c key) c = put c key v.
Proof. destruct c as [m|l], key as [k|]; reflexivity. Qed.

(** The start of a container below an item. *)
Lemma start_turn cf p ev new c h tail root key rest fin :
  (ev = "start_map" /\ new = FMap []) \/ (ev = "start_array" /\ new = FArr []) ->
  deep p -> key_ready c key ->
  quiet cf (fold_open None (Open new (hang_in c key) :: Open c h :: tail)) ->
  gen_loop cf (mkParser (mkTriple p ev JNull :: rest) fin)
    (mkBuilder root (Open c h :: tail) key)
  = gen_loop cf (mkParser rest fin)
      (mkBuilder root (Open new (hang_in c key) :: Open c h :: tail) key).
Proof.
  intros Hev Dp K Q. apply quiet_turn.
  - cbn [t_event t_value]. unfold b_event.
    destruct Hev as [[-> ->] | [-> ->]]; cbn [String.eqb Ascii.eqb];
      unfold open_new; cbn [b_containers b_root b_key];
      destruct c as [m|l]; try reflexivity;
      (destruct key as [k|]; [reflexivity | now contradiction K]).
  - apply quiet_b_value, Q.
  - now apply deep_not_item.
  - now apply deep_not_array.
Qed.

(** The end of a container below an item. *)
Lemma end_turn cf p ev inner c h tail root key key0 rest fin :
  ev = "end_map" \/ ev = "end_array" ->
  deep p ->
  quiet cf (fold_open None (Open (put c key0 (json_of_frame inner)) h :: tail)) ->
  gen_loop cf (mkParser (mkTriple p ev JNull :: rest) fin)
    (mkBuilder root (Open inner (hang_in c key0) :: Open c h :: tail) key)
  = gen_loop cf (mkParser rest fin)
      (mkBuilder root (Open (put c key0 (json_of_frame inner)) h :: tail) key).
Proof.
  intros Hev Dp Q. apply quiet_turn.
  - cbn [t_event t_value]. unfold b_event.
    destruct Hev as [-> | ->]; cbn [String.eqb Ascii.eqb orb];
      unfold containers_pop; cbn [b_containers b_root b_key];
      rewrite <- (hang_on_put c key0);
      destruct c as [m|l], key0 as [k|]; reflexivity.
  - apply quiet_b_value, Q.
  - now apply deep_not_item.
  - now apply deep_not_array.
Qed.

(** A container with distinct keys, hanging where the tests stay quiet,
    is taken in as it is. *)
Lemma container_run cf v p c h tail root key rest fin :
  is_container v = true ->
  distinct_keys v = true ->
  match v with
  | JArr l => Forall (runs_through cf) l
  | JObj d => Forall (fun kv => runs_through cf (snd kv)) d
  | _ => True
  end ->
  deep p -> key_ready c key ->
  calm_below cf (hang_in c key) (Open c h :: tail) ->
  quiet cf (fold_open None (Open (put c key v) h :: tail)) ->
  exists key',
    gen_loop cf (mkParser (events_of p v ++ rest) fin)
      (mkBuilder root (Open c h :: tail) key)
    = gen_loop cf (mkParser rest fin)
        (mkBuilder root (Open (put c key v) h :: tail) key').
Proof.
  intros Cv Dv R Dp K C Q. destruct v as [| | | | | l | d]; try discriminate.
  - cbn [events_of]. cbn [app]. rewrite <- app_assoc.
    rewrite (@start_turn cf p "start_array" (FArr [])); auto;
      [|exact (C [] (FArr []))].
    destruct (@elements_run cf l R (sub_prefix p "item") []
                (hang_in c key) (Open c h :: tail) root key
                ([mkTriple p "end_array" JNull] ++ rest) fin
                (deep_sub "item" Dp) C) as [k1 E1].
    rewrite E1. cbn [app].
    rewrite (@end_turn cf p "end_array") by auto.
    exists k1. reflexivity.
  - cbn [events_of]. cbn [app]. rewrite <- app_assoc.
    rewrite (@start_turn cf p "start_map" (FMap [])); auto;
      [|exact (C [] (FMap []))].
    cbn [distinct_keys] in Dv. apply andb_prop in Dv as [Dk Dv].
    fold (member_events p d).
    destruct (@members_run cf d R p []
                (hang_in c key) (Open c h :: tail) root key
                ([mkTriple p "end_map" JNull] ++ rest) fin
                Dp C Dk) as [k1 E1].
    rewrite E1. cbn [app].
    rewrite (@end_turn cf p "end_map") by auto.
    exists k1. reflexivity.
Qed.

(** Every value with distinct keys is taken in as it is. *)
Lemma value_runs_through cf v :
  distinct_keys v = true -> runs_through cf v.
Proof.
  induction v as [| b | z | f | s | l IH | d IH] using json_induction;
    intros Dv.
  - apply scalar_runs_through with (ev := "null"). split; auto.
  - apply scalar_runs_through with (ev := "boolean"). split; auto.
  - apply scalar_runs_through with (ev := "number"). split; auto.
  - apply scalar_runs_through with (ev := "number"). split; auto.
  - apply scalar_runs_through with (ev := "string"). split; auto.
  - intros p c h tail root key rest fin Dp C K.
    apply container_run; auto.
    + cbn [distinct_keys] in Dv. rewrite forallb_forall in Dv.
      rewrite Forall_forall in *. intros x Hx. apply IH; auto.
    + now apply calm_below_push.
    + exact (C [] _).
  - intros p c h tail root key rest fin Dp C K.
    apply container_run; auto.
    + cbn [distinct_keys] in Dv. apply andb_prop in Dv as [_ Dv].
      rewrite forallb_forall in Dv.
      rewrite Forall_forall in *. intros x Hx. apply IH; auto.
    + now apply calm_below_push.
    + exact (C [] _).
Qed.

(** ** The members of an item *)

Lemma fold_open_above above acc cs :
  exists acc', fold_open acc (opens above ++ cs) = fold_open acc' cs.
Proof.
  revert acc. induction above as [|[c h] above IH]; intros acc.
  - now exists acc.
  - cbn [opens map app fst snd fold_open]. apply IH.
Qed.

Lemma view_under acc c k d :
  exists x,
    fold_open acc (Open c (Under k) :: in_item d)
    = Some (JArr [JObj (dict_set d k x)]).
Proof. destruct acc as [[u h]|]; eexists; reflexivity. Qed.

Lemma not_skip_key k :
  in_strings k skip_keys = false ->
  String.eqb k "billing_code_type" = false
  /\ String.eqb k "billing_code" = false
  /\ String.eqb k "negotiation_arrangement" = false.
Proof.
  unfold in_strings, skip_keys. cbn [existsb].
  destruct (String.eqb k "billing_code_type"),
    (String.eqb k "billing_code"),
    (String.eqb k "negotiation_arrangement"); simpl; auto; discriminate.
Qed.

Lemma wants_skip_other_key cf d k x :
  in_strings k skip_keys = false ->
  wants_skip cf (Some (JArr [JObj (dict_set d k x)]))
  = wants_skip cf (Some (JArr [JObj d])).
Proof.
  intros N. apply not_skip_key in N as (N1 & N2 & N3).
  unfold wants_skip. cbn [bind py_last last py_get].
  rewrite !dict_get_set, N1, N2, N3. reflexivity.
Qed.

Lemma early_skip_other_key cf d k x :
  in_strings k skip_keys = false ->
  early_skip cf (JObj (dict_set d k x)) = early_skip cf (JObj d).
Proof.
  intros N. apply not_skip_key in N as (N1 & N2 & N3).
  unfold early_skip. rewrite !dict_get_set, N1, N2, N3. reflexivity.
Qed.

Lemma scalar_fields_get d s v :
  scalar_fields d = true -> in_strings s skip_keys = true ->
  dict_get d s = Some v -> is_container v = false.
Proof.
  unfold scalar_fields. induction d as [|[k0 v0] d IH]; simpl; [discriminate|].
  intros H S. apply andb_prop in H as [H0 H].
  destruct (String.eqb_spec k0 s) as [->|N].
  - intros [= <-]. rewrite S in H0. simpl in H0.
    now destruct (is_container v0).
  - now apply IH.
Qed.

Lemma wants_skip_item cf d :
  scalar_fields d = true ->
  wants_skip cf (Some (JArr [JObj d])) = Ok (early_skip cf (JObj d)).
Proof.
  intros S. unfold wants_skip, early_skip. cbn [bind py_last last py_get].
  pose proof (fun v => @scalar_fields_get d "billing_code_type" v S eq_refl)
    as Ct.
  destruct (dict_get d "billing_code_type") as [ct|];
    destruct (dict_get d "billing_code") as [c|];
    destruct (dict_get d "negotiation_arrangement") as [a|];
    cbn [truthy_opt andb get_or_none bind orb negb];
    rewrite ?andb_false_r; cbn [bind orb andb];
    try reflexivity;
    try (specialize (Ct _ eq_refl));
    destruct (truthy c); cbn [andb bind orb]; try reflexivity;
    destruct (truthy ct) eqn:Tt; cbn [andb bind orb]; try reflexivity;
    destruct (code_set_truthy cf) eqn:Tc; cbn [andb bind orb];
    try reflexivity;
    destruct ct; try discriminate; cbn [in_code_set bind negb];
    destruct cf as [l|]; try discriminate;
    try (destruct (negb _); reflexivity);
    reflexivity.
Qed.

Lemma quiet_in_item cf d :
  scalar_fields d = true -> early_skip cf (JObj d) = false ->
  quiet cf (Some (JArr [JObj d])).
Proof.
  intros S E. split; [reflexivity|]. now rewrite wants_skip_item, E.
Qed.

Lemma calm_item_container cf d k :
  in_strings k skip_keys = false ->
  scalar_fields d = true -> early_skip cf (JObj d) = false ->
  calm_below cf (Under k) (in_item d).
Proof.
  intros N S E above c.
  destruct (fold_open_above above None (Open c (Under k) :: in_item d))
    as [acc ->].
  destruct (view_under acc c k d) as [x ->].
  split; [reflexivity|].
  now rewrite wants_skip_other_key, wants_skip_item, E.
Qed.

(** The events of a value below an item are all below the item. *)
Lemma events_deep v :
  forall p, deep p -> Forall (fun t => deep (t_prefix t)) (events_of p v).
Proof.
  induction v as [| b | z | f | s | l IH | d IH] using json_induction;
    intros p Dp; cbn [events_of]; try (repeat constructor; exact Dp).
  - constructor; [exact Dp|]. apply Forall_app. split.
    + apply Forall_flat_map. rewrite Forall_forall in *.
      intros x Hx. apply IH; [exact Hx | now apply deep_sub].
    + repeat constructor. exact Dp.
  - constructor; [exact Dp|]. apply Forall_app. split.
    + apply Forall_flat_map. rewrite Forall_forall in *.
      intros x Hx. constructor; [exact Dp|].
      apply IH; [exact Hx | now apply deep_sub].
    + repeat constructor. exact Dp.
Qed.

Lemma deep_item_member k : deep (sub_prefix "in_network.item" k).
Proof. exists k. reflexivity. Qed.

Lemma member_events_no_end d :
  Forall (fun t => pattern_matches (Some "in_network.item") (Some "end_map")
                     None t = false)
         (member_events "in_network.item" d).
Proof.
  unfold member_events. apply Forall_flat_map, Forall_forall.
  intros [k v] _. constructor; [reflexivity|].
  eapply Forall_impl; [|apply (events_deep v (deep_item_member k))].
  intros t [s E]. unfold pattern_matches. rewrite E. reflexivity.
Qed.

(** From anywhere among the members of an item, [ffwd] goes past the end
    of the item. *)
Lemma ffwd_item_end d rest fin :
  ffwd (mkParser (member_events "in_network.item" d
                  ++ mkTriple "in_network.item" "end_map" JNull :: rest) fin)
       (Some "in_network.item") (Some "end_map") None
  = (Ok tt, mkParser rest fin).
Proof.
  rewrite ffwd_one_wildcard by reflexivity. cbn [p_events p_ending].
  apply for_break_hit; [apply member_events_no_end | reflexivity].
Qed.

Lemma dict_get_app a b k :
  dict_get (a ++ b) k
  = match dict_get a k with Some v => Some v | None => dict_get b k end.
Proof.
  induction a as [|[k0 v0] a IH]; simpl; [reflexivity|].
  now destruct (String.eqb k0 k).
Qed.

(** Once the tests ask for the skip they keep asking for it. *)
Lemma early_skip_stays cf a b :
  early_skip cf (JObj a) = true -> early_skip cf (JObj (a ++ b)) = true.
Proof.
  unfold early_skip. rewrite !dict_get_app. intros H.
  apply orb_prop in H as [H | H].
  - apply andb_prop in H as [H N]. apply andb_prop in H as [H T].
    apply andb_prop in H as [C Ct].
    destruct (dict_get a "billing_code") as [c|]; [|discriminate].
    destruct (dict_get a "billing_code_type") as [ct|]; [|discriminate].
    now rewrite C, Ct, T, N.
  - apply andb_prop in H as [A F].
    destruct (dict_get a "negotiation_arrangement") as [ar|]; [|discriminate].
    rewrite A, F. apply orb_true_r.
Qed.

Lemma scalar_events v :
  is_container v = false -> exists ev, events_of_scalar v ev.
Proof.
  destruct v; try discriminate; intros _;
    [exists "null" | exists "boolean" | exists "number" | exists "number"
     | exists "string"]; split; auto.
Qed.

Lemma scalar_fields_app a b :
  scalar_fields (a ++ b) = scalar_fields a && scalar_fields b.
Proof. apply forallb_app. Qed.

Arguments gen_loop : simpl never.
Arguments wants_skip : simpl never.
Arguments early_skip : simpl never.

Lemma has_value_one x : has_value (Some (JArr [x])) = Ok true.
Proof. reflexivity. Qed.

(** The end of an item that was not skipped: the item is yielded. *)
Lemma end_of_item_turn cf d root key rest fin :
  scalar_fields d = true -> early_skip cf (JObj d) = false ->
  gen_loop cf (mkParser (mkTriple "in_network.item" "end_map" JNull :: rest) fin)
    (mkBuilder root (in_item d) key)
  = yield_first (JObj d)
      (gen_loop cf (mkParser rest fin) (mkBuilder root between_items key)).
Proof.
  intros S E. rewrite gen_loop_turn.
  unfold gen_in_network_items_turn, next. cbn [p_events p_ending].
  assert (B : b_event (mkBuilder root (in_item d) key)
                (t_event (mkTriple "in_network.item" "end_map" JNull))
                (t_value (mkTriple "in_network.item" "end_map" JNull))
              = Ok (mkBuilder root [Open (FArr [JObj d]) Root; InitialSet] key))
    by reflexivity.
  rewrite B.
  assert (V : b_value (mkBuilder root [Open (FArr [JObj d]) Root; InitialSet] key)
              = Some (JArr [JObj d])) by reflexivity.
  unfold skip_item_by_code. rewrite V, has_value_one.
  rewrite wants_skip_item, E by exact S.
  assert (A : at_place (mkTriple "in_network.item" "end_map" JNull)
                "in_network.item" "end_map" = true) by reflexivity.
  rewrite A.
  assert (P : value_pop (mkBuilder root [Open (FArr [JObj d]) Root; InitialSet] key)
              = Ok (JObj d, mkBuilder root between_items key)) by reflexivity.
  rewrite P. unfold yield_first.
  now destruct (gen_loop cf (mkParser rest fin) (mkBuilder root between_items key)).
Qed.

(** A scalar member after which the tests ask for the skip: the rest of
    the item is passed over and nothing is yielded. *)
Lemma skip_turn cf d k v ev es root rest fin :
  events_of_scalar v ev ->
  scalar_fields (d ++ [(k, v)]) = true ->
  in_strings k (map fst d) = false ->
  early_skip cf (JObj (d ++ [(k, v)])) = true ->
  gen_loop cf
    (mkParser (mkTriple (sub_prefix "in_network.item" k) ev v
               :: member_events "in_network.item" es
               ++ mkTriple "in_network.item" "end_map" JNull :: rest) fin)
    (mkBuilder root (in_item d) (Some k))
  = gen_loop cf (mkParser rest fin) (mkBuilder root between_items (Some k)).
Proof.
  intros [_ Hev] S F E. rewrite gen_loop_turn.
  unfold gen_in_network_items_turn, next. cbn [p_events p_ending].
  assert (B : b_event (mkBuilder root (in_item d) (Some k)) ev v
              = Ok (mkBuilder root (in_item (d ++ [(k, v)])) (Some k))).
  { unfold b_event, call_top, in_item. cbn [b_containers b_root b_key].
    rewrite (@dict_set_fresh d k v F).
    destruct Hev as [-> | [-> | [-> | ->]]]; reflexivity. }
  cbn [t_event t_value]. rewrite B.
  assert (V : b_value (mkBuilder root (in_item (d ++ [(k, v)])) (Some k))
              = Some (JArr [JObj (d ++ [(k, v)])])) by reflexivity.
  unfold skip_item_by_code. rewrite V, has_value_one.
  rewrite wants_skip_item, E by exact S.
  unfold skip_to_end_of_item. rewrite ffwd_item_end.
  assert (P : value_pop (mkBuilder root (in_item (d ++ [(k, v)])) (Some k))
              = Ok (JObj (d ++ [(k, v)]),
                    mkBuilder root
                      (Open (FMap (d ++ [(k, v)])) Loose :: between_items)
                      (Some k))) by reflexivity.
  rewrite P. cbn [bind snd].
  assert (C : containers_pop
                (mkBuilder root
                   (Open (FMap (d ++ [(k, v)])) Loose :: between_items)
                   (Some k))
              = Ok (mkBuilder root between_items (Some k))) by reflexivity.
  rewrite C.
  rewrite (deep_not_item ev v (deep_item_member k)).
  rewrite (deep_not_array ev v (deep_item_member k)).
  reflexivity.
Qed.

Lemma scalar_field_key d k v :
  scalar_fields (d ++ [(k, v)]) = true -> is_container v = true ->
  in_strings k skip_keys = false.
Proof.
  rewrite scalar_fields_app. intros H C. apply andb_prop in H as [_ H].
  unfold scalar_fields in H. cbn [forallb fst snd] in H.
  rewrite C, andb_true_r, andb_true_r in H.
  now apply negb_true_iff in H.
Qed.

(** The members of an item, from any point among them to the end of the
    item: the item is yielded at its end unless the tests ask for the
    skip on the way. *)
Lemma item_members cf es :
  forall d root key rest fin,
    distinct (map fst (d ++ es)) = true ->
    forallb (fun kv => distinct_keys (snd kv)) es = true ->
    scalar_fields (d ++ es) = true ->
    early_skip cf (JObj d) = false ->
    exists key',
      gen_loop cf
        (mkParser (member_events "in_network.item" es
                   ++ mkTriple "in_network.item" "end_map" JNull :: rest) fin)
        (mkBuilder root (in_item d) key)
      = if early_skip cf (JObj (d ++ es))
        then gen_loop cf (mkParser rest fin)
               (mkBuilder root between_items key')
        else yield_first (JObj (d ++ es))
               (gen_loop cf (mkParser rest fin)
                  (mkBuilder root between_items key')).
Proof.
  induction es as [|[k v] es IH]; intros d root key rest fin Dk Dv S E.
  - exists key. rewrite app_nil_r in *. rewrite E. cbn [member_events flat_map app].
    now apply end_of_item_turn.
  - unfold member_events. cbn [flat_map fst snd]. cbn [app].
    rewrite <- app_assoc. fold (member_events "in_network.item" es).
    replace (d ++ (k, v) :: es) with ((d ++ [(k, v)]) ++ es) in *
      by now rewrite <- app_assoc.
    rewrite map_app in Dk.
    assert (Dk' := Dk). rewrite map_app in Dk'. cbn [map fst] in Dk'.
    rewrite <- app_assoc in Dk'. cbn [app] in Dk'.
    apply distinct_app_cons in Dk' as [Fresh _].
    rewrite <- map_app in Dk.
    cbn [forallb snd] in Dv. apply andb_prop in Dv as [Dv1 Dv].
    assert (S1 : scalar_fields (d ++ [(k, v)]) = true).
    { rewrite scalar_fields_app in S. now apply andb_prop in S as [S _]. }
    assert (S0 : scalar_fields d = true).
    { rewrite scalar_fields_app in S1. now apply andb_prop in S1 as [S1 _]. }
    rewrite (@quiet_turn cf _ _ fin _ (mkBuilder root (in_item d) (Some k)));
      [| reflexivity
       | apply quiet_b_value; now apply quiet_in_item
       | reflexivity | reflexivity].
    destruct (is_container v) eqn:Cv.
    + pose proof (scalar_field_key _ _ _ S1 Cv) as N.
      assert (E1 : early_skip cf (JObj (d ++ [(k, v)])) = false).
      { rewrite <- (dict_set_fresh d k v Fresh).
        now rewrite early_skip_other_key. }
      destruct (@container_run cf v (sub_prefix "in_network.item" k)
                  (FMap d) Last between_items root (Some k)
                  (member_events "in_network.item" es
                   ++ mkTriple "in_network.item" "end_map" JNull :: rest)
                  fin Cv Dv1) as [k1 R1].
      * destruct v as [| | | | | l | m]; try discriminate.
        -- cbn [distinct_keys] in Dv1. rewrite forallb_forall in Dv1.
           apply Forall_forall. intros x Hx.
           apply value_runs_through. now apply Dv1.
        -- cbn [distinct_keys] in Dv1. apply andb_prop in Dv1 as [_ Dv1].
           rewrite forallb_forall in Dv1.
           apply Forall_forall. intros x Hx.
           apply value_runs_through. now apply Dv1.
      * apply deep_item_member.
      * discriminate.
      * now apply calm_item_container.
      * cbn [put]. rewrite (dict_set_fresh d k v Fresh).
        now apply quiet_in_item.
      * cbn [put] in R1. rewrite (dict_set_fresh d k v Fresh) in R1.
        change (Open (FMap d) Last :: between_items) with (in_item d) in R1.
        change (Open (FMap (d ++ [(k, v)])) Last :: between_items)
          with (in_item (d ++ [(k, v)])) in R1.
        rewrite R1.
        apply (IH (d ++ [(k, v)]) root k1 rest fin); auto.
    + destruct (scalar_events v Cv) as [ev Hev].
      rewrite (proj1 Hev).
      destruct (early_skip cf (JObj (d ++ [(k, v)]))) eqn:E1.
      * rewrite (early_skip_stays _ _ es E1).
        exists (Some k). cbn [app].
        now apply skip_turn.
      * cbn [app].
        rewrite (@quiet_turn cf _ _ fin _
                   (mkBuilder root (in_item (d ++ [(k, v)])) (Some k))).
        -- apply (IH (d ++ [(k, v)]) root (Some k) rest fin); auto.
        -- cbn [t_event t_value]. unfold b_event, call_top, in_item.
           cbn [b_containers b_root b_key].
           rewrite (dict_set_fresh d k v Fresh).
           destruct Hev as [_ [-> | [-> | [-> | ->]]]]; reflexivity.
        -- apply quiet_b_value. now apply quiet_in_item.
        -- apply deep_not_item, deep_item_member.
        -- apply deep_not_array, deep_item_member.
Qed.

(** ** The items of the array *)

Lemma item_run cf d root key rest fin :
  plain_item (JObj d) = true ->
  exists key',
    gen_loop cf (mkParser (events_of "in_network.item" (JObj d) ++ rest) fin)
      (mkBuilder root between_items key)
    = if early_skip cf (JObj d)
      then gen_loop cf (mkParser rest fin) (mkBuilder root between_items key')
      else yield_first (JObj d)
             (gen_loop cf (mkParser rest fin)
                (mkBuilder root between_items key')).
Proof.
  intros Pl. unfold plain_item in Pl. apply andb_prop in Pl as [Dv S].
  cbn [distinct_keys] in Dv. apply andb_prop in Dv as [Dk Dv].
  cbn [events_of]. fold (member_events "in_network.item" d).
  cbn [app]. rewrite <- app_assoc. cbn [app].
  rewrite (@quiet_turn cf _ _ fin _ (mkBuilder root (in_item []) key));
    [| reflexivity
     | apply quiet_b_value; now apply quiet_in_item
     | reflexivity | reflexivity].
  apply (@item_members cf d [] root key rest fin); auto.
Qed.

Lemma yield_first_all x xs r :
  yield_first x (yield_all xs r) = yield_all (x :: xs) r.
Proof. reflexivity. Qed.

Lemma items_run cf items :
  forallb plain_item items = true ->
  forall root key rest fin,
    exists key',
      gen_loop cf
        (mkParser (flat_map (events_of "in_network.item") items ++ rest) fin)
        (mkBuilder root between_items key)
      = yield_all (filter (fun item => negb (early_skip cf item)) items)
          (gen_loop cf (mkParser rest fin)
             (mkBuilder root between_items key')).
Proof.
  induction items as [|item items IH]; intros Pl root key rest fin.
  - exists key. cbn [flat_map app filter]. unfold yield_all. cbn [app].
    now destruct (gen_loop cf _ _) as [[ys st] p].
  - cbn [forallb] in Pl. apply andb_prop in Pl as [P1 Pl].
    destruct item as [| | | | | |d]; try discriminate.
    cbn [flat_map filter]. rewrite <- app_assoc.
    destruct (@item_run cf d root key
                (flat_map (events_of "in_network.item") items ++ rest) fin P1)
      as [k1 E1].
    rewrite E1.
    destruct (IH Pl root k1 rest fin) as [k2 E2]. rewrite E2. exists k2.
    destruct (early_skip cf (JObj d)); cbn [negb]; [reflexivity|].
    apply yield_first_all.
Qed.

(** The first and the last turn of the loop. *)
Lemma start_of_array_turn cf rest fin :
  gen_loop cf (mkParser (mkTriple "in_network" "start_array" JNull :: rest) fin)
    ObjectBuilder
  = gen_loop cf (mkParser rest fin) (mkBuilder None between_items None).
Proof. rewrite gen_loop_turn. reflexivity. Qed.

Lemma end_of_array_turn cf root key rest fin :
  gen_loop cf (mkParser (mkTriple "in_network" "end_array" JNull :: rest) fin)
    (mkBuilder root between_items key)
  = (gen_done (Ok tt), mkParser rest fin).
Proof. rewrite gen_loop_turn. reflexivity. Qed.

(** C4 (as amended): over the events of an array of in-network items,
    each an object with distinct keys in which the code, its type and the
    arrangement are scalars where present, [gen_in_network_items] yields,
    complete and in their order, exactly the items that are not skipped
    early, returns at the end of the array and leaves the events that
    follow; an item is skipped early exactly when a code filter is set
    and is not empty, the code and its type are both known and true, and
    the pair of the type and the string of the code is not in the
    filter, or when the arrangement is known and true and is not [ffs],
    whatever the code and the filter are. *)
Theorem gen_in_network_items_yields_unskipped :
  forall code_filter items rest fin,
    forallb plain_item items = true ->
    gen_in_network_items
      (mkParser (events_of "in_network" (JArr items) ++ rest) fin) code_filter
    = (mkGen (filter (fun item => negb (early_skip code_filter item)) items)
             (Ok tt),
       mkParser rest fin).
Proof.
  intros cf items rest fin Pl.
  change (gen_in_network_items
            (mkParser (events_of "in_network" (JArr items) ++ rest) fin) cf)
    with (gen_loop cf
            (mkParser (events_of "in_network" (JArr items) ++ rest) fin)
            ObjectBuilder).
  cbn [events_of]. cbn [app]. rewrite <- app_assoc.
  change (sub_prefix "in_network" "item") with "in_network.item".
  rewrite start_of_array_turn.
  destruct (@items_run cf items Pl None None
              ([mkTriple "in_network" "end_array" JNull] ++ rest) fin)
    as [k E].
  rewrite E. cbn [app]. rewrite end_of_array_turn.
  unfold yield_all. cbn [fst snd yielded stopped gen_done].
  now rewrite app_nil_r.
Qed.

(* ================================================================== *)
(** * Rows: what they are made of *)

Lemma mapM_pure {A B} (f : A -> B) l :
  mapM (fun a => Ok (f a)) l = Ok (map f l).
Proof. induction l as [|a l IH]; simpl; [reflexivity|]. now rewrite IH. Qed.

(** A dict that is not empty has a hash. *)
Lemma dicthasher_cons kv d :
  dicthasher (kv :: d)
  = Ok (int_from_bytes_little
          (firstn 8 (SHA256.digest (encode_utf8 (json_dumps true (JObj (kv :: d))))))).
Proof. reflexivity. Qed.

(** X12: [plan_row_from_dict] takes any dict: the row has the eight plan keys
    in their order, [None] under those the plan lacks, and the hash of
    these eight columns last; nothing else of the plan is looked at, so
    two plans that agree on the eight keys get the same row.  What is not
    a dict has no [get]. *)
Theorem plan_row_from_dict_any_dict :
  (forall d, exists h,
      dicthasher (plan_fields d) = Ok h
      /\ plan_row_from_dict (JObj d)
         = Ok (plan_fields d ++ [("plan_hash", JInt h)]))
  /\ (forall d1 d2,
        (forall k, In k plan_keys -> dict_get d1 k = dict_get d2 k) ->
        plan_row_from_dict (JObj d1) = plan_row_from_dict (JObj d2))
  /\ (forall plan,
        (forall d, plan <> JObj d) ->
        plan_row_from_dict plan = Raise AttributeError).
Proof.
  assert (Row : forall d,
             plan_row_from_dict (JObj d)
             = append_hash (plan_fields d) "plan_hash").
  { intros d. unfold plan_row_from_dict. cbn [py_get].
    rewrite (mapM_pure (fun key => (key, get_or_none (dict_get d key)))).
    reflexivity. }
  split; [|split].
  - intros d. eexists. split; [reflexivity|]. rewrite Row. reflexivity.
  - intros d1 d2 E. rewrite !Row. f_equal. unfold plan_fields.
    apply map_ext_in. intros k I. now rewrite (E k I).
  - intros plan N. destruct plan; try reflexivity. now destruct (N d).
Qed.

(** The columns of a code row, before the hash. *)
Lemma code_row_from_dict_strings d t ver c :
  is_str (dict_get d "billing_code_type") t ->
  is_str (dict_get d "billing_code_type_version") ver ->
  is_str (dict_get d "billing_code") c ->
  code_row_from_dict (JObj d)
  = append_hash [("billing_code_type", JStr (strip t));
                 ("billing_code_type_version", JStr (strip ver));
                 ("billing_code", JStr (strip c))] "code_hash".
Proof.
  unfold is_str. intros Ht Hv Hc. unfold code_row_from_dict.
  cbn [mapM py_getitem]. rewrite Ht, Hv, Hc. reflexivity.
Qed.

(** X11: [code_row_from_dict] succeeds exactly on a dict in which the three
    code keys are present with strings for values (a missing key is a
    [KeyError], a number for a code an [AttributeError]); the row then
    has the three strings without the white space around them and the
    hash of these three columns, so that two items whose codes differ in
    the white space around them only, or in any other key, get the same
    code row. *)
Theorem code_row_from_dict_needs_three_strings :
  (forall item,
      is_ok (code_row_from_dict item) = true <->
      exists d t ver c,
        item = JObj d
        /\ is_str (dict_get d "billing_code_type") t
        /\ is_str (dict_get d "billing_code_type_version") ver
        /\ is_str (dict_get d "billing_code") c)
  /\ (forall d t ver c,
        is_str (dict_get d "billing_code_type") t ->
        is_str (dict_get d "billing_code_type_version") ver ->
        is_str (dict_get d "billing_code") c ->
        exists h,
          code_row_from_dict (JObj d)
          = Ok [("billing_code_type", JStr (strip t));
                ("billing_code_type_version", JStr (strip ver));
                ("billing_code", JStr (strip c));
                ("code_hash", JInt h)])
  /\ (forall d1 d2,
        (forall k, In k code_keys ->
           exists s1 s2, is_str (dict_get d1 k) s1 /\ is_str (dict_get d2 k) s2
                         /\ strip s1 = strip s2) ->
        code_row_from_dict (JObj d1) = code_row_from_dict (JObj d2))
  /\ (forall d k,
        In k code_keys -> dict_get d k = None ->
        (forall k', In k' code_keys -> k' <> k ->
           exists s, is_str (dict_get d k') s) ->
        code_row_from_dict (JObj d) = Raise KeyError)
  /\ (forall d t ver z,
        is_str (dict_get d "billing_code_type") t ->
        is_str (dict_get d "billing_code_type_version") ver ->
        dict_get d "billing_code" = Some (JInt z) ->
        code_row_from_dict (JObj d) = Raise AttributeError).
Proof.
  split; [|split; [|split; [|split]]].
  - intros item. split.
    + unfold code_row_from_dict. cbn [mapM].
      destruct item as [| | | | | |d]; try (cbn; discriminate).
      cbn [py_getitem].
      destruct (dict_get d "billing_code_type") as [[| | | |t| |]|] eqn:Ht;
        try (cbn; discriminate).
      destruct (dict_get d "billing_code_type_version")
        as [[| | | |ver| |]|] eqn:Hv; try (cbn; discriminate).
      destruct (dict_get d "billing_code") as [[| | | |c| |]|] eqn:Hc;
        try (cbn; discriminate).
      intros _. exists d, t, ver, c. repeat split; assumption.
    + intros (d & t & ver & c & -> & Ht & Hv & Hc).
      rewrite (code_row_from_dict_strings d Ht Hv Hc). reflexivity.
  - intros d t ver c Ht Hv Hc.
    rewrite (code_row_from_dict_strings d Ht Hv Hc). eexists. reflexivity.
  - intros d1 d2 E.
    destruct (E "billing_code_type") as (t1 & t2 & Ht1 & Ht2 & Et);
      [simpl; auto 10|].
    destruct (E "billing_code_type_version") as (v1 & v2 & Hv1 & Hv2 & Ev);
      [simpl; auto 10|].
    destruct (E "billing_code") as (c1 & c2 & Hc1 & Hc2 & Ec); [simpl; auto 10|].
    rewrite (code_row_from_dict_strings d1 Ht1 Hv1 Hc1).
    rewrite (code_row_from_dict_strings d2 Ht2 Hv2 Hc2).
    now rewrite Et, Ev, Ec.
  - intros d k I N O. unfold code_row_from_dict. cbn [mapM py_getitem].
    destruct I as [<- | [<- | [<- | []]]].
    + now rewrite N.
    + destruct (O "billing_code_type") as [s Hs]; [simpl; auto 10 | discriminate|].
      rewrite Hs, N. reflexivity.
    + destruct (O "billing_code_type") as [s Hs]; [simpl; auto 10 | discriminate|].
      destruct (O "billing_code_type_version") as [s' Hs'];
        [simpl; auto 10 | discriminate|].
      rewrite Hs, Hs', N. reflexivity.
  - intros d t ver z Ht Hv Hc. unfold code_row_from_dict.
    cbn [mapM py_getitem]. rewrite Ht, Hv, Hc. reflexivity.
Qed.

(** The order of the strings is antisymmetric. *)
Lemma sort_strings_perm l1 l2 :
  Permutation l1 l2 -> sort_by String.leb l1 = sort_by String.leb l2.
Proof.
  intros P.
  apply (sort_by_perm_invariant String.leb String.leb_total string_leb_trans P).
  intros a b _ _. apply String.leb_antisym.
Qed.

(** X10: The row of a provider group, and with it the hash of the group, does
    not depend on the order in which the NPIs of the group are listed:
    two groups with the same tax number whose NPIs, as strings, are a
    permutation of each other get the same row. *)
Theorem group_row_from_dict_any_npi_order :
  forall g1 g2 npis1 npis2,
    dict_get g1 "npi" = Some (JArr (map JStr npis1)) ->
    dict_get g2 "npi" = Some (JArr (map JStr npis2)) ->
    Permutation npis1 npis2 ->
    dict_get g1 "tin" = dict_get g2 "tin" ->
    group_row_from_dict (JObj g1) = group_row_from_dict (JObj g2).
Proof.
  intros g1 g2 npis1 npis2 H1 H2 P T. unfold group_row_from_dict.
  cbn [py_getitem]. rewrite H1, H2, T. cbn [bind py_iter].
  rewrite !py_sorted_strings, (sort_strings_perm P). reflexivity.
Qed.

(** What is kept of a list of strings under a filter is kept again. *)
Lemma kept_npis_again ns f :
  kept_npis (map JStr (kept_npis ns f)) f = kept_npis ns f.
Proof.
  unfold kept_npis. rewrite !map_map. cbn [py_str]. rewrite !map_id.
  destruct (set_truthy f); [|reflexivity].
  induction (map py_str ns) as [|s l IH]; [reflexivity|].
  cbn [filter]. destruct (in_str_set (JStr s) f) eqn:E; [|exact IH].
  cbn [filter]. now rewrite E, IH.
Qed.

Lemma process_group_dict g f r :
  process_group g f = Ok r ->
  exists d npi ns,
    g = JObj d /\ dict_get d "npi" = Some npi /\ py_iter npi = Ok ns.
Proof.
  unfold process_group. destruct g as [| | | | | |d]; try discriminate.
  cbn [py_getitem]. destruct (dict_get d "npi") as [npi|] eqn:E;
    [|discriminate].
  cbn [bind]. destruct (py_iter npi) as [ns|e] eqn:I; [|discriminate].
  intros _. now exists d, npi, ns.
Qed.

(** X8: A group that went through [process_group] goes through it again
    unchanged.  The groups of a provider reference are processed twice,
    once when the reference map is made and once with the rates they
    were swapped into. *)
Theorem process_group_twice :
  forall group npi_filter group',
    process_group group npi_filter = Ok (Some group') ->
    process_group group' npi_filter = Ok (Some group').
Proof.
  intros g f g' H.
  destruct (process_group_dict g f H) as (d & npi & ns & -> & Hn & Hi).
  rewrite (process_group_spec d f Hn Hi) in H.
  destruct (set_truthy f && _) eqn:T; [discriminate|]. injection H as <-.
  rewrite (@process_group_spec _ (JArr (map JStr (kept_npis ns f)))
             (map JStr (kept_npis ns f)) f).
  - rewrite kept_npis_again, T, dict_set_set. reflexivity.
  - now rewrite dict_get_set, String.eqb_refl.
  - reflexivity.
Qed.

(* ================================================================== *)
(** * The name a file is known by *)

Lemma split_on_app c a b :
  split_on c (a ++ String c b) = split_on c a ++ split_on c b.
Proof.
  induction a as [|x a IH]; cbn [String.append split_on app].
  - now rewrite Ascii.eqb_refl.
  - destruct (Ascii.eqb x c); [now rewrite IH|].
    rewrite IH. destruct (split_on c a) as [|h t] eqn:E; [|reflexivity].
    destruct a; simpl in E; [discriminate|].
    destruct (Ascii.eqb a c); [discriminate|].
    destruct (split_on c a0); discriminate.
Qed.

Lemma split_on_without c s :
  string_has c s = false -> split_on c s = [s].
Proof.
  induction s as [|x s IH]; cbn [string_has split_on]; [reflexivity|].
  intros H. apply orb_false_iff in H as [X S].
  rewrite X, (IH S). reflexivity.
Qed.

Lemma string_has_app c a b :
  string_has c (a ++ b) = string_has c a || string_has c b.
Proof.
  induction a as [|x a IH]; cbn [String.append string_has]; [reflexivity|].
  now rewrite IH, orb_assoc.
Qed.

(** The last component of a path is its name. *)
Lemma path_name_of_file dir name :
  string_has "/" name = false -> name <> "" -> name <> "." ->
  path_name (dir ++ "/" ++ name) = name.
Proof.
  intros S N D. unfold path_name.
  change (dir ++ "/" ++ name)%string with (dir ++ String "/" name)%string.
  rewrite split_on_app, (split_on_without _ _ S), filter_app. cbn [filter].
  destruct (String.eqb_spec name ""); [contradiction|].
  destruct (String.eqb_spec name "."); [contradiction|].
  cbn [orb negb]. apply last_last.
Qed.

Lemma path_name_plain name :
  string_has "/" name = false -> name <> "" -> name <> "." ->
  path_name name = name.
Proof.
  intros S N D. unfold path_name. rewrite (split_on_without _ _ S).
  cbn [filter].
  destruct (String.eqb_spec name ""); [contradiction|].
  destruct (String.eqb_spec name "."); [contradiction|]. reflexivity.
Qed.

(** Cutting a string at one of its separators leaves its first piece as
    it is. *)
Lemma first_piece_cut c s :
  forall i, String.get i s = Some c ->
    hd "" (split_on c (substring 0 i s)) = hd "" (split_on c s).
Proof.
  induction s as [|x s IH]; intros i G; [destruct i; discriminate|].
  destruct i as [|i].
  - simpl in G. injection G as ->. cbn [substring split_on].
    now rewrite Ascii.eqb_refl.
  - cbn [String.get] in G. cbn [substring split_on].
    destruct (Ascii.eqb x c); [reflexivity|].
    specialize (IH i G).
    destruct (split_on c (substring 0 i s)), (split_on c s); simpl in *;
      congruence.
Qed.

Lemma rfind_get c s i : rfind c s = Some i -> String.get i s = Some c.
Proof.
  revert i. induction s as [|x s IH]; intros i; cbn [rfind]; [discriminate|].
  destruct (rfind c s) as [j|].
  - intros [= <-]. cbn [String.get]. now apply IH.
  - destruct (Ascii.eqb_spec x c) as [->|]; [|discriminate].
    intros [= <-]. reflexivity.
Qed.

(** The name a file is known by is what its name has before the first
    dot. *)
Lemma file_stem_first_piece filename :
  file_stem filename = hd "" (split_on "." (path_name filename)).
Proof.
  unfold file_stem, path_stem.
  destruct (rfind "." (path_name filename)) as [i|] eqn:R; [|reflexivity].
  destruct (_ && _); [|reflexivity].
  apply first_piece_cut. now apply rfind_get.
Qed.

Lemma first_piece_of base tail :
  string_has "." base = false ->
  hd "" (split_on "." (base ++ "." ++ tail)) = base.
Proof.
  intros B.
  change (base ++ "." ++ tail)%string with (base ++ String "." tail)%string.
  now rewrite split_on_app, (split_on_without _ _ B).
Qed.

Lemma named_file_stem dir base tail :
  string_has "/" base = false -> string_has "." base = false ->
  string_has "/" tail = false -> base <> "" ->
  file_stem (dir ++ "/" ++ base ++ "." ++ tail) = base
  /\ file_stem (base ++ "." ++ tail) = base.
Proof.
  intros S B T N.
  assert (S' : string_has "/" (base ++ "." ++ tail) = false).
  { rewrite !string_has_app, S, T. reflexivity. }
  assert (N' : (base ++ "." ++ tail)%string <> "").
  { destruct base; [contradiction | discriminate]. }
  assert (D' : (base ++ "." ++ tail)%string <> ".").
  { destruct base as [|x base]; [contradiction|].
    simpl. intros [= _ E]. destruct base; discriminate. }
  rewrite !file_stem_first_piece.
  rewrite (path_name_of_file dir S' N' D'), (path_name_plain S' N' D').
  split; now apply first_piece_of.
Qed.

(** X13: The hash of a file is the hash of what its name has before the first
    dot: the directory or the address the file is under and all that
    follows the first dot of the name ([.json], [.json.gz], a version) have
    no part in it.  A file has the same hash as a local copy and as a
    copy that is compressed; it also has the same hash as any other file
    of the same name up to the first dot. *)
Theorem filename_hasher_of_the_name :
  forall dir base tail,
    string_has "/" base = false -> string_has "." base = false ->
    string_has "/" tail = false -> base <> "" ->
    filename_hasher (dir ++ "/" ++ base ++ "." ++ tail)
    = dicthasher [("filename", JStr base)]
    /\ filename_hasher (base ++ "." ++ tail)
       = dicthasher [("filename", JStr base)]
    /\ (forall filename_hash url,
          file_row_from_filename (dir ++ "/" ++ base ++ "." ++ tail)
            filename_hash url
          = [("filename", JStr base); ("filename_hash", JInt filename_hash);
             ("url", JStr url)]).
Proof.
  intros dir base tail S B T N.
  destruct (@named_file_stem dir base tail S B T N) as [E1 E2].
  unfold filename_hasher, file_row_from_filename.
  rewrite E1, E2. repeat split.
Qed.

(* ================================================================== *)
(** * A file that is refused *)

Lemma filename_hasher_ok filename : exists h, filename_hasher filename = Ok h.
Proof. eexists. reflexivity. Qed.

(** X6: When the suffix of the file is not one [JSONOpen] takes,
    [json_mrf_to_csv] raises [InvalidMRF] and has written nothing: the
    refusal comes when [get_plan] asks the parser for its first event,
    before the directory is made and before any row is written. *)
Theorem json_mrf_to_csv_refused_file_writes_nothing :
  forall url file code_filter npi_filter log,
    is_ok (JSONOpen_init (match file with None => url | Some f => f end))
    = false ->
    json_mrf_to_csv url file code_filter npi_filter log
    = (Raise InvalidMRF, log).
Proof.
  intros url file cf nf log H. unfold json_mrf_to_csv.
  set (f := match file with None => url | Some f => f end) in *.
  destruct (filename_hasher_ok f) as [h Eh].
  unfold and_then at 1. unfold lift at 1. rewrite Eh.
  unfold and_then at 1. unfold lift at 1.
  unfold start_conn, start_parser.
  unfold JSONOpen_init in *. destruct (negb _); [reflexivity | discriminate].
Qed.

(* ================================================================== *)
(** * The keys the tables are joined by *)

(** The three hashes of a price row. *)
Lemma price_row_hashes price code_hash filename_hash row :
  price_row_from_dict price code_hash filename_hash = Ok row ->
  dict_get row "code_hash" = Some code_hash
  /\ dict_get row "filename_hash" = Some filename_hash
  /\ exists h, dict_get row "price_hash" = Some (JInt h).
Proof.
  unfold price_row_from_dict.
  destruct (mapM _ _) as [fields|e]; [|discriminate]. cbn [bind].
  destruct (fold_left _ _ _) as [price_row|e]; [|discriminate]. cbn [bind].
  unfold append_hash, dict_update. cbn [fold_left fst snd].
  destruct (dicthasher _) as [h|e]; [|discriminate]. cbn [bind].
  intros [= <-]. rewrite !dict_get_set. cbn [String.eqb Ascii.eqb Bool.eqb].
  repeat split. now exists h.
Qed.

Lemma price_rows_hashes prices_ code_hash filename_hash rows row :
  price_rows_from_dicts prices_ code_hash filename_hash = Ok rows ->
  In row rows ->
  dict_get row "code_hash" = Some code_hash
  /\ dict_get row "filename_hash" = Some filename_hash
  /\ exists h, dict_get row "price_hash" = Some (JInt h).
Proof.
  unfold price_rows_from_dicts.
  destruct (py_iter prices_) as [l|e]; [|discriminate]. cbn [bind].
  intros M I. destruct (mapM_In _ _ _ M I) as (price & _ & E).
  exact (@price_row_hashes _ _ _ _ E).
Qed.

(** Each link row carries the hash of one of the price rows. *)
Lemma prices_groups_rows_price price_rows group_rows rows row :
  prices_groups_rows_from_dicts price_rows group_rows = Ok rows ->
  In row rows ->
  exists h price_row,
    dict_get row "price_hash" = Some h
    /\ In price_row price_rows
    /\ dict_get price_row "price_hash" = Some h.
Proof.
  unfold prices_groups_rows_from_dicts.
  destruct (mapM _ price_rows) as [rws|e] eqn:E; simpl; [|discriminate].
  intros [= <-] I. apply in_concat in I as (rs & Irs & Irow).
  destruct (mapM_In _ _ _ E Irs) as (p & Ip & Ep).
  destruct (mapM_In _ _ _ Ep Irow) as (g & Ig & Eg).
  unfold prices_groups_row in Eg. cbn [py_getitem] in Eg.
  destruct (dict_get g "provider_group_hash") as [gh|]; [|discriminate].
  cbn [bind] in Eg.
  destruct (dict_get p "price_hash") as [ph|] eqn:Eh; [|discriminate].
  cbn [bind] in Eg. injection Eg as <-.
  exists ph, p. simpl. auto.
Qed.

(** What a rate appends, whether [write_rate] returns or raises: price
    rows with the hashes of the code and the file, group rows, and link
    rows to price rows that were appended before them. *)
Lemma write_rate_appends rate code_hash filename_hash log r log' :
  write_rate rate code_hash filename_hash log = (r, log') ->
  exists price_rows group_rows links,
    log' = log ++ map (pair prices) price_rows
               ++ map (pair provider_groups) group_rows
               ++ map (pair prices_provider_groups) links
    /\ (forall row, In row price_rows ->
          dict_get row "code_hash" = Some code_hash
          /\ dict_get row "filename_hash" = Some (JInt filename_hash))
    /\ (forall row, In row links ->
          exists h price_row,
            dict_get row "price_hash" = Some h
            /\ In price_row price_rows
            /\ dict_get price_row "price_hash" = Some h).
Proof.
  unfold write_rate, and_then, lift.
  destruct (py_getitem rate "negotiated_prices") as [prices_|e].
  2: { intros [= <- <-]. exists [], [], []. simpl. rewrite app_nil_r.
       split; [reflexivity | split; intros ? []]. }
  destruct (bind (py_get rate "provider_groups") _) as [groups|e].
  2: { intros [= <- <-]. exists [], [], []. simpl. rewrite app_nil_r.
       split; [reflexivity | split; intros ? []]. }
  destruct (price_rows_from_dicts prices_ code_hash (JInt filename_hash))
    as [price_rows|e] eqn:Ep.
  2: { intros [= <- <-]. exists [], [], []. simpl. rewrite app_nil_r.
       split; [reflexivity | split; intros ? []]. }
  assert (Hp : forall k row, In row (firstn k price_rows) ->
                 dict_get row "code_hash" = Some code_hash
                 /\ dict_get row "filename_hash" = Some (JInt filename_hash)).
  { intros k row I. apply In_firstn in I.
    destruct (@price_rows_hashes _ _ _ _ _ Ep I) as (E1 & E2 & _). now split. }
  destruct (write_table price_rows prices log) as [[[]|e] l1] eqn:Wp;
    destruct (write_table_log _ _ _ Wp) as (k1 & -> & Full1).
  2: { intros [= <- <-]. exists (firstn k1 price_rows), [], []. simpl.
       rewrite app_nil_r. split; [reflexivity | split; [apply Hp | intros ? []]]. }
  destruct (group_rows_from_dicts groups) as [group_rows|e].
  2: { intros [= <- <-]. exists (firstn k1 price_rows), [], []. simpl.
       rewrite app_nil_r. split; [reflexivity | split; [apply Hp | intros ? []]]. }
  destruct (write_table group_rows provider_groups _) as [[[]|e] l2] eqn:Wg;
    destruct (write_table_log _ _ _ Wg) as (k2 & -> & Full2).
  2: { intros [= <- <-]. exists (firstn k1 price_rows), (firstn k2 group_rows), [].
       simpl. rewrite app_nil_r, <- app_assoc.
       split; [reflexivity | split; [apply Hp | intros ? []]]. }
  destruct (prices_groups_rows_from_dicts price_rows group_rows)
    as [links|e] eqn:El.
  2: { intros [= <- <-]. exists (firstn k1 price_rows), (firstn k2 group_rows), [].
       simpl. rewrite app_nil_r, <- app_assoc.
       split; [reflexivity | split; [apply Hp | intros ? []]]. }
  intros Wl. destruct (write_table_log _ _ _ Wl) as (k3 & -> & _).
  exists (firstn k1 price_rows), (firstn k2 group_rows), (firstn k3 links).
  rewrite <- !app_assoc. split; [reflexivity | split; [apply Hp|]].
  intros row I. apply In_firstn in I. rewrite (Full1 eq_refl).
  exact (@prices_groups_rows_price _ _ _ _ El I).
Qed.

Lemma refers_app child key parent log more :
  refers child key parent log ->
  (forall row, In (child, row) more ->
     exists h parent_row,
       dict_get row key = Some h
       /\ In (parent, parent_row) (log ++ more)
       /\ dict_get parent_row key = Some h) ->
  refers child key parent (log ++ more).
Proof.
  intros L M row I. apply in_app_or in I as [I | I].
  - destruct (L row I) as (h & g & E & Ig & Eg). exists h, g.
    repeat split; auto. apply in_or_app. now left.
  - exact (M row I).
Qed.

(** Rows of another table break no reference. *)
Lemma preserves_refers_write_table child key parent rows t :
  t <> child -> preserves (refers child key parent) (write_table rows t).
Proof.
  intros N log r log' L E.
  destruct (write_table_log _ _ _ E) as (k & -> & _).
  apply refers_app; [exact L|].
  intros row I. apply in_map_iff in I as (x & Ex & _).
  injection Ex as Et _. congruence.
Qed.

(** An invariant the writes of the single tables keep is kept by the
    loops over them. *)
Lemma preserves_write_rates_of I code_hash filename_hash :
  (forall rate, preserves I (write_rate rate code_hash filename_hash)) ->
  forall rates, preserves I (write_rates rates code_hash filename_hash).
Proof.
  intros H rates. induction rates as [|rate rates IH]; simpl.
  - apply preserves_ret.
  - apply preserves_and_then; [apply H | intros _; exact IH].
Qed.

Lemma preserves_write_items_of I filename_hash :
  (forall item, preserves I (write_in_network_item item filename_hash)) ->
  forall items upstream, preserves I (write_items items upstream filename_hash).
Proof.
  intros H items upstream. induction items as [|item items IH]; simpl.
  - apply preserves_lift.
  - apply preserves_and_then; [apply H | intros _; exact IH].
Qed.

Lemma preserves_run_of I url file code_filter npi_filter :
  (forall item filename_hash,
      preserves I (write_in_network_item item filename_hash)) ->
  (forall plan filename_hash filename url',
      preserves I (write_plan plan filename_hash filename url')) ->
  preserves I (json_mrf_to_csv url file code_filter npi_filter).
Proof.
  intros Hi Hp. unfold json_mrf_to_csv.
  apply preserves_and_then; [apply preserves_lift | intros filename_hash].
  apply preserves_and_then; [apply preserves_lift | intros content].
  apply preserves_and_then; [apply preserves_lift | intros items].
  apply preserves_and_then.
  - unfold make_dir. destruct (w_mkdir_fails env);
      [apply (@preserves_lift unit I (Raise OSError)) | apply preserves_ret].
  - intros _. apply preserves_and_then; [|intros _; apply Hp].
    apply preserves_write_items_of. intros item. apply Hi.
Qed.

Lemma preserves_write_plan_of I plan filename_hash filename url :
  (forall rows t, plan_table t -> preserves I (write_table rows t)) ->
  preserves I (write_plan plan filename_hash filename url).
Proof.
  intros H. unfold write_plan.
  apply preserves_and_then; [apply H; unfold plan_table; auto | intros _].
  apply preserves_and_then; [apply preserves_lift | intros plan_row].
  apply preserves_and_then; [apply H; unfold plan_table; auto | intros _].
  apply preserves_and_then; [apply preserves_lift | intros plan_file_row].
  apply H; unfold plan_table; auto.
Qed.

Lemma preserves_write_item_of I item filename_hash :
  (forall rows, preserves I (write_table rows codes)) ->
  (forall rate code_hash, preserves I (write_rate rate code_hash filename_hash)) ->
  preserves I (write_in_network_item item filename_hash).
Proof.
  intros Hc Hr. unfold write_in_network_item.
  apply preserves_and_then; [apply preserves_lift | intros code_row].
  apply preserves_and_then; [apply Hc | intros _].
  apply preserves_and_then; [apply preserves_lift | intros code_hash].
  apply preserves_and_then; [apply preserves_lift | intros rates].
  apply preserves_and_then;
    [apply preserves_write_rates_of; intros rate; apply Hr | intros _].
  apply preserves_and_then; [apply preserves_lift | intros _].
  apply preserves_and_then; [apply preserves_lift | intros _].
  apply preserves_ret.
Qed.

Lemma in_pairs_other (t t' : table) (row : dict) rows :
  t <> t' -> ~ In (t, row) (map (pair t') rows).
Proof.
  intros N I. apply in_map_iff in I as (x & [= E _] & _). congruence.
Qed.

Lemma in_pairs_same (t : table) (row : dict) rows :
  In (t, row) (map (pair t) rows) -> In row rows.
Proof. intros I. apply in_map_iff in I as (x & [= <-] & I). exact I. Qed.

(** The link rows and their price rows. *)
Lemma priced_write_rate rate code_hash filename_hash :
  preserves (refers prices_provider_groups "price_hash" prices)
            (write_rate rate code_hash filename_hash).
Proof.
  intros log r log' L E.
  destruct (write_rate_appends _ _ _ _ E) as (P & G & K & -> & _ & HK).
  apply refers_app; [exact L|].
  intros row I. apply in_app_or in I as [I | I];
    [now apply in_pairs_other in I|].
  apply in_app_or in I as [I | I]; [now apply in_pairs_other in I|].
  apply in_pairs_same in I. destruct (HK row I) as (h & p & E1 & Ip & E2).
  exists h, p. repeat split; auto.
  apply in_or_app. right. apply in_or_app. left. now apply in_map.
Qed.

(** X16: After a run of [json_mrf_to_csv], however it ends, every row of
    [prices_provider_groups] carries the [price_hash] of a row of
    [prices], provided this was so before: a link row is appended after
    the price rows of its rate are, all of them. *)
Theorem every_link_row_has_its_price_row :
  forall url file code_filter npi_filter log0 r log,
    refers prices_provider_groups "price_hash" prices log0 ->
    json_mrf_to_csv url file code_filter npi_filter log0 = (r, log) ->
    refers prices_provider_groups "price_hash" prices log.
Proof.
  intros url file cf nf log0 r log L E.
  refine (@preserves_run_of _ url file cf nf _ _ log0 r log L E).
  - intros item fh. apply preserves_write_item_of.
    + intros rows. apply preserves_refers_write_table. discriminate.
    + intros rate ch. apply priced_write_rate.
  - intros plan fh f u. apply preserves_write_plan_of.
    intros rows t [-> | [-> | ->]];
      apply preserves_refers_write_table; discriminate.
Qed.

(** The price rows of a rate refer to the code row that is in the log. *)
Lemma coded_write_rate rate code_hash filename_hash :
  preserves (fun log => refers prices "code_hash" codes log
                        /\ has_code code_hash log)
            (write_rate rate code_hash filename_hash).
Proof.
  intros log r log' [L (code_row & Ic & Ec)] E.
  destruct (write_rate_appends _ _ _ _ E) as (P & G & K & -> & HP & _).
  split.
  - apply refers_app; [exact L|].
    intros row I. apply in_app_or in I as [I | I].
    + apply in_pairs_same in I. destruct (HP row I) as [E1 _].
      exists code_hash, code_row. repeat split; auto.
      apply in_or_app. now left.
    + apply in_app_or in I as [I | I]; now apply in_pairs_other in I.
  - exists code_row. split; [|exact Ec]. apply in_or_app. now left.
Qed.

Lemma coded_write_in_network_item item filename_hash :
  preserves (refers prices "code_hash" codes)
            (write_in_network_item item filename_hash).
Proof.
  intros log r log' L. unfold write_in_network_item.
  unfold and_then at 1. unfold lift at 1.
  destruct (code_row_from_dict item) as [code_row|e];
    [|intros [= <- <-]; exact L].
  unfold and_then at 1.
  destruct (write_table [code_row] codes log) as [[[]|e] l1] eqn:W.
  2: { intros [= <- <-].
       refine (@preserves_refers_write_table prices "code_hash" codes
                 [code_row] codes _ log (Raise e) l1 L W). discriminate. }
  assert (L1 : refers prices "code_hash" codes l1).
  { refine (@preserves_refers_write_table prices "code_hash" codes
              [code_row] codes _ log (Ok tt) l1 L W). discriminate. }
  destruct (write_table_log _ _ _ W) as (k & -> & Full).
  rewrite (Full eq_refl) in *.
  unfold and_then at 1. unfold lift at 1. cbn [py_getitem].
  destruct (dict_get code_row "code_hash") as [code_hash|] eqn:Eh;
    [|intros [= <- <-]; exact L1].
  assert (J : refers prices "code_hash" codes (log ++ map (pair codes) [code_row])
              /\ has_code code_hash (log ++ map (pair codes) [code_row])).
  { split; [exact L1|]. exists code_row. split; [|exact Eh].
    apply in_or_app. right. now left. }
  match goal with
  | |- ?m ?l = _ -> _ =>
      assert (T : preserves (fun log => refers prices "code_hash" codes log
                                        /\ has_code code_hash log) m)
  end.
  { apply preserves_and_then; [apply preserves_lift | intros rates].
    apply preserves_and_then;
      [apply preserves_write_rates_of; intros rate; apply coded_write_rate
      | intros _].
    apply preserves_and_then; [apply preserves_lift | intros _].
    apply preserves_and_then; [apply preserves_lift | intros _].
    apply preserves_ret. }
  intros E. exact (proj1 (T _ _ _ J E)).
Qed.

(** X15: After a run of [json_mrf_to_csv], however it ends, every row of
    [prices] carries the [code_hash] of a row of [codes], provided this
    was so before: the code row of an item is appended before the price
    rows of its rates, and no price row is appended when the code row
    could not be. *)
Theorem every_price_row_has_its_code_row :
  forall url file code_filter npi_filter log0 r log,
    refers prices "code_hash" codes log0 ->
    json_mrf_to_csv url file code_filter npi_filter log0 = (r, log) ->
    refers prices "code_hash" codes log.
Proof.
  intros url file cf nf log0 r log L E.
  refine (@preserves_run_of _ url file cf nf _ _ log0 r log L E).
  - intros item fh. apply coded_write_in_network_item.
  - intros plan fh f u. apply preserves_write_plan_of.
    intros rows t [-> | [-> | ->]];
      apply preserves_refers_write_table; discriminate.
Qed.

(** Writing one row appends it or nothing. *)
Lemma write_table_one row t log r log' :
  write_table [row] t log = (r, log') ->
  (log' = log /\ r <> Ok tt) \/ log' = log ++ [(t, row)].
Proof.
  intros W. destruct (write_table_log _ _ _ W) as (k & -> & Full).
  destruct k as [|k]; cbn [firstn map] in *.
  - left. split; [apply app_nil_r|]. intros ->. now specialize (Full eq_refl).
  - right. now rewrite firstn_nil.
Qed.

(** What [write_plan] appends, whether it returns or raises: the first
    rows of the three it is to write. *)
Lemma write_plan_appends plan filename_hash filename url log r log' :
  write_plan plan filename_hash filename url log = (r, log') ->
  let file_row := file_row_from_filename filename filename_hash url in
  (r <> Ok tt
   /\ (log' = log \/ log' = log ++ [(files, file_row)]
       \/ exists plan_row,
            plan_row_from_dict plan = Ok plan_row
            /\ log' = log ++ [(files, file_row); (plans, plan_row)]))
  \/ exists plan_row plan_hash,
       plan_row_from_dict plan = Ok plan_row
       /\ dict_get plan_row "plan_hash" = Some plan_hash
       /\ log' = log ++ [(files, file_row); (plans, plan_row);
                         (plans_files,
                          [("plan_hash", plan_hash);
                           ("filename_hash", JInt filename_hash)])].
Proof.
  intros W file_row. revert W. unfold write_plan. fold file_row.
  unfold and_then at 1.
  destruct (write_table [file_row] files log) as [[[]|e] l1] eqn:W1;
    destruct (write_table_one _ _ _ W1) as [[-> N] | ->];
    try (now contradiction N).
  2: { intros [= <- <-]. left. split; [discriminate | auto]. }
  2: { intros [= <- <-]. left. split; [discriminate | auto]. }
  unfold and_then at 1. unfold lift at 1.
  destruct (plan_row_from_dict plan) as [plan_row|e] eqn:Ep.
  2: { intros [= <- <-]. left. split; [discriminate | auto]. }
  unfold and_then at 1.
  destruct (write_table [plan_row] plans _) as [[[]|e] l2] eqn:W2;
    destruct (write_table_one _ _ _ W2) as [[-> N] | ->];
    try (now contradiction N).
  2: { intros [= <- <-]. left. split; [discriminate | auto]. }
  2: { intros [= <- <-]. left. split; [discriminate|].
       right. right. exists plan_row. rewrite <- app_assoc. auto. }
  unfold and_then at 1. unfold lift at 1.
  unfold plan_file_row_from_row. cbn [py_getitem].
  destruct (dict_get plan_row "plan_hash") as [plan_hash|] eqn:Eh.
  2: { intros [= <- <-]. left. split; [discriminate|].
       right. right. exists plan_row. rewrite <- app_assoc. auto. }
  cbn [bind]. intros W3.
  destruct (write_table_one _ _ _ W3) as [[-> N] | ->].
  - left. split; [exact N|].
    right. right. exists plan_row. rewrite <- app_assoc. auto.
  - right. exists plan_row, plan_hash. rewrite <- !app_assoc. auto.
Qed.

(** X14: When [write_plan] returns it has appended three rows: the row of the
    file, the row of the plan, and a row of [plans_files] that has the
    hash of this plan row and the hash of this file row.  However it
    ends, a row of [plans_files] it has appended is this row, and the
    file row and the plan row were appended before it. *)
Theorem write_plan_three_rows :
  forall plan filename_hash filename url log r log',
    write_plan plan filename_hash filename url log = (r, log') ->
    let file_row := file_row_from_filename filename filename_hash url in
    (r = Ok tt ->
     exists plan_row plan_hash,
       plan_row_from_dict plan = Ok plan_row
       /\ dict_get plan_row "plan_hash" = Some plan_hash
       /\ log' = log ++ [(files, file_row); (plans, plan_row);
                         (plans_files,
                          [("plan_hash", plan_hash);
                           ("filename_hash", JInt filename_hash)])])
    /\ (forall row,
          In (plans_files, row) log' ->
          In (plans_files, row) log
          \/ exists plan_row plan_hash,
               plan_row_from_dict plan = Ok plan_row
               /\ dict_get plan_row "plan_hash" = Some plan_hash
               /\ row = [("plan_hash", plan_hash);
                         ("filename_hash", JInt filename_hash)]
               /\ log' = log ++ [(files, file_row); (plans, plan_row);
                                 (plans_files, row)]).
Proof.
  intros plan fh filename url log r log' W file_row.
  destruct (write_plan_appends _ _ _ _ _ W)
    as [[N [-> | [-> | (plan_row & Ep & ->)]]]
       | (plan_row & plan_hash & Ep & Eh & ->)]; fold file_row; split;
    try (intros E; now contradiction N).
  - auto.
  - intros row I. apply in_app_or in I as [I | [[=] | []]]. now left.
  - intros row I. apply in_app_or in I as [I | [[=] | [[=] | []]]]. now left.
  - intros _. now exists plan_row, plan_hash.
  - intros row I. apply in_app_or in I as [I | [[=] | [[=] | [[= <-] | []]]]];
      [now left|].
    right. now exists plan_row, plan_hash.
Qed.

Lemma joined_write_plan plan filename_hash filename url :
  preserves (fun log => refers plans_files "plan_hash" plans log
                        /\ refers plans_files "filename_hash" files log)
            (write_plan plan filename_hash filename url).
Proof.
  intros log r log' [L1 L2] W.
  assert (Old : forall key parent more,
             refers plans_files key parent log ->
             (forall row, ~ In (plans_files, row) more) ->
             refers plans_files key parent (log ++ more)).
  { intros key parent more L N. apply refers_app; [exact L|].
    intros row I. now apply N in I. }
  destruct (write_plan_appends _ _ _ _ _ W)
    as [[N [-> | [-> | (plan_row & Ep & ->)]]]
       | (plan_row & plan_hash & Ep & Eh & ->)].
  - now split.
  - split; apply Old; auto; intros row [[=] | []].
  - split; apply Old; auto; intros row [[=] | [[=] | []]].
  - split; (apply refers_app; [assumption|]);
      intros row [[=] | [[=] | [[= <-] | []]]].
    + exists plan_hash, plan_row. repeat split; auto.
      apply in_or_app. right. simpl. auto.
    + exists (JInt filename_hash),
        (file_row_from_filename filename filename_hash url).
      repeat split. apply in_or_app. right. simpl. auto.
Qed.

(** X17: After a run of [json_mrf_to_csv], however it ends, every row of
    [plans_files] carries the [plan_hash] of a row of [plans] and the
    [filename_hash] of a row of [files], provided this was so before. *)
Theorem every_plan_file_row_has_its_plan_and_file :
  forall url file code_filter npi_filter log0 r log,
    refers plans_files "plan_hash" plans log0 ->
    refers plans_files "filename_hash" files log0 ->
    json_mrf_to_csv url file code_filter npi_filter log0 = (r, log) ->
    refers plans_files "plan_hash" plans log
    /\ refers plans_files "filename_hash" files log.
Proof.
  intros url file cf nf log0 r log L1 L2 E.
  refine (@preserves_run_of
            (fun log => refers plans_files "plan_hash" plans log
                        /\ refers plans_files "filename_hash" files log)
            url file cf nf _ _ log0 r log (conj L1 L2) E).
  - intros item fh.
    assert (T : forall rows t, t <> plans_files ->
              preserves (fun log => refers plans_files "plan_hash" plans log
                         /\ refers plans_files "filename_hash" files log)
                        (write_table rows t)).
    { intros rows t N l r0 l' [A B] W. split.
      - exact (@preserves_refers_write_table _ _ _ rows t N l r0 l' A W).
      - exact (@preserves_refers_write_table _ _ _ rows t N l r0 l' B W). }
    apply preserves_write_item_of.
    + intros rows. apply T. discriminate.
    + intros rate ch. unfold write_rate.
      apply preserves_and_then; [apply preserves_lift | intros prices_].
      apply preserves_and_then; [apply preserves_lift | intros groups].
      apply preserves_and_then; [apply preserves_lift | intros price_rows].
      apply preserves_and_then; [apply T; discriminate | intros _].
      apply preserves_and_then; [apply preserves_lift | intros group_rows].
      apply preserves_and_then; [apply T; discriminate | intros _].
      apply preserves_and_then; [apply preserves_lift | intros links].
      apply T; discriminate.
  - intros plan fh f u. apply joined_write_plan.
Qed.

(* ================================================================== *)
(** * One hash for the file *)

Lemma adds_lift {A} Q (r : result A) : adds Q (lift r).
Proof.
  intros log r' log' [= <- <-]. exists []. now rewrite app_nil_r.
Qed.

Lemma adds_and_then {A B} Q (m : writing A) (k : A -> writing B) :
  adds Q m -> (forall a, adds Q (k a)) -> adds Q (and_then m k).
Proof.
  intros Hm Hk log r log'. unfold and_then.
  destruct (m log) as [[a|e] l1] eqn:E.
  - intros H. destruct (Hm _ _ _ E) as (m1 & -> & F1).
    destruct (Hk a _ _ _ H) as (m2 & -> & F2).
    exists (m1 ++ m2). rewrite app_assoc. split; [reflexivity|].
    now apply Forall_app.
  - intros [= <- <-]. exact (Hm _ _ _ E).
Qed.

Lemma adds_write_table (Q : written -> Prop) rows t :
  (forall row, In row rows -> Q (t, row)) -> adds Q (write_table rows t).
Proof.
  intros H log r log' E. destruct (write_table_log _ _ _ E) as (k & -> & _).
  eexists. split; [reflexivity|].
  apply Forall_forall. intros x Hx. apply in_map_iff in Hx as (row & <- & I).
  apply H. now apply In_firstn in I.
Qed.

Lemma stamped_write_rate rate code_hash filename_hash :
  adds (stamped filename_hash) (write_rate rate code_hash filename_hash).
Proof.
  intros log r log' E.
  destruct (write_rate_appends _ _ _ _ E) as (P & G & K & -> & HP & _).
  eexists. split; [reflexivity|].
  apply Forall_app. split; [|apply Forall_app; split];
    apply Forall_forall; intros x I;
    apply in_map_iff in I as (row & <- & I); unfold stamped; cbn [fst snd];
    [apply (HP row I) | exact Logic.I | exact Logic.I].
Qed.

Lemma stamped_write_items items upstream filename_hash :
  adds (stamped filename_hash) (write_items items upstream filename_hash).
Proof.
  induction items as [|item items IH]; simpl; [apply adds_lift|].
  apply adds_and_then; [|intros _; exact IH].
  unfold write_in_network_item.
  apply adds_and_then; [apply adds_lift | intros code_row].
  apply adds_and_then;
    [apply adds_write_table; intros row _; exact Logic.I | intros _].
  apply adds_and_then; [apply adds_lift | intros code_hash].
  apply adds_and_then; [apply adds_lift | intros rates].
  apply adds_and_then.
  - induction rates as [|rate rates IHr]; simpl;
      [apply (@adds_lift unit _ (Ok tt))|].
    apply adds_and_then; [apply stamped_write_rate | intros _; exact IHr].
  - intros _. apply adds_and_then; [apply adds_lift | intros _].
    apply adds_and_then; [apply adds_lift | intros _].
    apply (@adds_lift unit _ (Ok tt)).
Qed.

Lemma stamped_write_plan plan filename_hash filename url :
  adds (stamped filename_hash) (write_plan plan filename_hash filename url).
Proof.
  unfold write_plan.
  apply adds_and_then;
    [apply adds_write_table; intros row [<- | []]; reflexivity | intros _].
  apply adds_and_then; [apply adds_lift | intros plan_row].
  apply adds_and_then;
    [apply adds_write_table; intros row _; exact Logic.I | intros _].
  unfold plan_file_row_from_row. cbn [py_getitem].
  destruct (dict_get plan_row "plan_hash") as [plan_hash|].
  - cbn [bind]. intros log r log'. unfold and_then, lift.
    apply adds_write_table. intros row [<- | []]. reflexivity.
  - cbn [bind]. intros log r log'. unfold and_then, lift.
    intros [= <- <-]. exists []. now rewrite app_nil_r.
Qed.

(** X18: The rows a run of [json_mrf_to_csv] appends to [prices], [files] and
    [plans_files] all carry one [filename_hash], the hash of the name of
    the file, which is computed once before anything is read; and when
    the run returns, the row of the file is among them, so that every
    price row of the run refers to it. *)
Theorem one_filename_hash_in_a_run :
  forall url file code_filter npi_filter log0 r log,
    json_mrf_to_csv url file code_filter npi_filter log0 = (r, log) ->
    let file := match file with None => url | Some f => f end in
    exists h more,
      filename_hasher file = Ok h
      /\ log = log0 ++ more
      /\ Forall (stamped h) more
      /\ (r = Ok tt ->
          In (files, file_row_from_filename file h url) more).
Proof.
  intros url file0 cf nf log0 r log. cbv zeta.
  set (file := match file0 with None => url | Some f => f end).
  destruct (filename_hasher_ok file) as [h Eh]. intros E.
  exists h. unfold json_mrf_to_csv in E. fold file in E.
  unfold and_then at 1 in E. unfold lift at 1 in E. rewrite Eh in E.
  assert (Stop : forall e, (Raise e, log0) = (r, log) ->
            exists more, filename_hasher file = Ok h /\ log = log0 ++ more
              /\ Forall (stamped h) more
              /\ (r = Ok tt ->
                  In (files, file_row_from_filename file h url) more)).
  { intros e [= <- <-]. exists []. rewrite app_nil_r.
    split; [exact Eh | split; [reflexivity | split; [constructor | discriminate]]]. }
  unfold and_then at 1 in E. unfold lift at 1 in E.
  destruct (start_conn file cf nf) as [content|e]; [|exact (Stop e E)].
  unfold and_then at 1 in E. unfold lift at 1 in E.
  destruct (in_network_items content) as [items|e]; [|exact (Stop e E)].
  unfold and_then at 1 in E. unfold make_dir in E.
  destruct (w_mkdir_fails env); [exact (Stop OSError E)|].
  unfold ret in E. unfold and_then in E.
  destruct (write_items (yielded items) (stopped items) h log0)
    as [[[]|e] l1] eqn:Wi;
    pose proof (@stamped_write_items (yielded items) (stopped items) h) as SW;
    destruct (SW _ _ _ Wi) as (m1 & -> & F1).
  2: { injection E as <- <-. exists m1.
       split; [exact Eh | split; [reflexivity | split; [exact F1 | discriminate]]]. }
  pose proof (@stamped_write_plan (c_plan content) h file url) as SP.
  destruct (SP _ _ _ E) as (m2 & -> & F2).
  exists (m1 ++ m2). rewrite app_assoc.
  split; [exact Eh | split; [reflexivity | split]].
  - now apply Forall_app.
  - intros ->. apply in_or_app. right.
    destruct (write_plan_appends _ _ _ _ _ E)
      as [[N _] | (plan_row & plan_hash & _ & _ & Ea)];
      [now contradiction N|].
    apply app_inv_head in Ea. rewrite Ea. now left.
Qed.

(* ================================================================== *)
(** * What comes out of the NPI filter *)

Lemma gen_for_yielded {A B} (body : A -> result (option B)) xs upstream y :
  In y (yielded (gen_for body xs upstream)) ->
  exists x, In x xs /\ body x = Ok (Some y).
Proof.
  induction xs as [|x xs IH]; simpl; [intros []|].
  destruct (body x) as [[b|]|e] eqn:E; simpl.
  - intros [<- | I]; [exists x; auto|].
    destruct (IH I) as (x' & Ix & Ex). exists x'. auto.
  - intros I. destruct (IH I) as (x' & Ix & Ex). exists x'. auto.
  - intros [].
Qed.

Lemma process_arr_loop_In func items out y :
  process_arr_loop func items = Ok out -> In y out ->
  exists x, In x items /\ func x = Ok (Some y) /\ truthy y = true.
Proof.
  revert out. induction items as [|x items IH]; simpl; intros out.
  - intros [= <-] [].
  - destruct (func x) as [o|e] eqn:E; simpl; [|discriminate].
    destruct (process_arr_loop func items) as [rest|e]; simpl; [|discriminate].
    intros [= <-] I.
    assert (Rest : In y rest ->
              exists x0, (x = x0 \/ In x0 items) /\ func x0 = Ok (Some y)
                         /\ truthy y = true).
    { intros Ir. destruct (IH _ eq_refl Ir) as (x' & Ix & Ex). exists x'. tauto. }
    destruct o as [v|]; simpl in I; [|auto].
    destruct (truthy v) eqn:T; [|auto].
    destruct I as [<- | I]; [|auto]. exists x. auto.
Qed.

Lemma process_arr_list func arr out :
  process_arr func arr = Ok out -> exists l, out = JArr l.
Proof.
  unfold process_arr. destruct (py_iter arr) as [items|]; [|discriminate].
  simpl. destruct (process_arr_loop func items); [|discriminate]. simpl.
  intros [= <-]. eauto.
Qed.

Lemma process_arr_In func arr l y :
  process_arr func arr = Ok (JArr l) -> In y l ->
  exists x, func x = Ok (Some y).
Proof.
  unfold process_arr. destruct (py_iter arr) as [items|]; [|discriminate].
  simpl. destruct (process_arr_loop func items) as [out|] eqn:E;
    [|discriminate].
  simpl. intros [= <-] I.
  destruct (@process_arr_loop_In _ _ _ _ E I) as (x & _ & Ex & _). eauto.
Qed.

Lemma filter_all {A} (f : A -> bool) l :
  Forall (fun x => f x = true) (filter f l).
Proof.
  apply Forall_forall. intros x I. now apply filter_In in I.
Qed.

Lemma process_group_filtered group npi_filter group' :
  process_group group npi_filter = Ok (Some group') ->
  filtered_group npi_filter group'.
Proof.
  intros H.
  destruct (process_group_dict group npi_filter H) as (d & npi & ns & -> & Hn & Hi).
  rewrite (process_group_spec d npi_filter Hn Hi) in H.
  destruct (set_truthy npi_filter && _) eqn:T; [discriminate|].
  injection H as <-.
  exists (dict_set d "npi" (JArr (map JStr (kept_npis ns npi_filter)))),
    (kept_npis ns npi_filter).
  split; [reflexivity|]. split; [now rewrite dict_get_set, String.eqb_refl|].
  intros S. rewrite S in T. cbn [andb] in T. split.
  - intros E. now rewrite E in T.
  - unfold kept_npis. rewrite S. apply filter_all.
Qed.

Lemma process_rate_filtered rate npi_filter rate' :
  process_rate rate npi_filter = Ok (Some rate') ->
  filtered_rate npi_filter rate'.
Proof.
  unfold process_rate. destruct rate as [| | | | | |d]; try discriminate.
  cbn [py_get bind].
  destruct (truthy_opt (dict_get d "provider_groups")) eqn:T.
  2: { cbn [bind py_get]. rewrite T. discriminate. }
  destruct (dict_get d "provider_groups") as [groups|]; [|discriminate].
  destruct (process_groups groups npi_filter) as [groups'|e] eqn:P;
    [|discriminate].
  cbn [bind py_setitem py_get]. rewrite dict_get_set, String.eqb_refl.
  unfold process_groups in P.
  destruct (@process_arr_list _ _ _ P) as [l ->].
  cbn [truthy_opt truthy]. destruct l as [|g l]; [discriminate|].
  intros [= <-].
  exists (dict_set d "provider_groups" (JArr (g :: l))), (g :: l).
  split; [reflexivity|]. split; [now rewrite dict_get_set, String.eqb_refl|].
  split; [discriminate|].
  apply Forall_forall. intros y I.
  destruct (@process_arr_In _ _ _ _ P I) as (x & Ex).
  exact (@process_group_filtered _ _ _ Ex).
Qed.

(** X7: Every item [process_in_network] yields has at least one rate, every
    rate of it has at least one provider group, and every group lists
    its NPIs as strings: under an NPI filter that is set, at least one,
    and none that is not in the filter.  Rates without a group and items
    without a rate do not come out. *)
Theorem process_in_network_yields_filtered_items :
  forall in_network_items npi_filter item,
    In item (yielded (process_in_network in_network_items npi_filter)) ->
    filtered_item npi_filter item.
Proof.
  intros items f item I. unfold process_in_network in I.
  destruct (@gen_for_yielded _ _ _ _ _ _ I) as (x & _ & E).
  unfold process_item in E. destruct x as [| | | | | |d]; try discriminate.
  cbn [py_getitem] in E.
  destruct (dict_get d "negotiated_rates") as [rates|]; [|discriminate].
  cbn [bind] in E.
  destruct (process_rates rates f) as [rates'|e] eqn:P; [|discriminate].
  cbn [bind] in E. unfold process_rates in P.
  destruct (@process_arr_list _ _ _ P) as [l ->].
  destruct l as [|r l]; [discriminate|]. cbn [truthy py_setitem bind] in E.
  injection E as <-.
  exists (dict_set d "negotiated_rates" (JArr (r :: l))), (r :: l).
  split; [reflexivity|]. split; [now rewrite dict_get_set, String.eqb_refl|].
  split; [discriminate|].
  apply Forall_forall. intros y Iy.
  destruct (@process_arr_In _ _ _ _ P Iy) as (x & Ex).
  exact (@process_rate_filtered _ _ _ Ex).
Qed.

(* ================================================================== *)
(** * The builder on the events of a value *)

Lemma scalar_feeds_through v ev : events_of_scalar v ev -> feeds_through v.
Proof.
  intros [E Hev] p c h tail root key K. exists key. rewrite (E p).
  cbn [feed t_event t_value]. unfold b_event.
  destruct Hev as [-> | [-> | [-> | ->]]]; cbn [String.eqb Ascii.eqb orb];
    unfold call_top; cbn [b_containers b_root b_key];
    destruct c as [m|l]; try reflexivity;
    (destruct key as [k|]; [reflexivity | now contradiction K]).
Qed.

Lemma elements_feed l :
  Forall feeds_through l ->
  forall p acc h tail root key,
    exists key',
      feed (mkBuilder root (Open (FArr acc) h :: tail) key)
           (flat_map (events_of p) l)
      = Ok (mkBuilder root (Open (FArr (acc ++ l)) h :: tail) key').
Proof.
  induction 1 as [|x l Hx _ IH]; intros p acc h tail root key.
  - exists key. simpl. now rewrite app_nil_r.
  - cbn [flat_map]. rewrite feed_app.
    destruct (Hx p (FArr acc) h tail root key I) as [k1 E1].
    rewrite E1. cbn [bind put].
    destruct (IH p (acc ++ [x]) h tail root k1) as [k2 E2].
    exists k2. rewrite E2, <- app_assoc. reflexivity.
Qed.

Lemma members_feed d :
  Forall (fun kv => feeds_through (snd kv)) d ->
  forall p acc h tail root key,
    distinct (map fst (acc ++ d)) = true ->
    exists key',
      feed (mkBuilder root (Open (FMap acc) h :: tail) key) (member_events p d)
      = Ok (mkBuilder root (Open (FMap (acc ++ d)) h :: tail) key').
Proof.
  induction 1 as [|[k v] d Hv _ IH]; intros p acc h tail root key Dk.
  - exists key. simpl. now rewrite app_nil_r.
  - unfold member_events. cbn [flat_map fst snd]. cbn [app feed].
    fold (member_events p d). cbn [snd] in Hv.
    cbn [t_event t_value b_event String.eqb Ascii.eqb Bool.eqb bind
         b_root b_containers].
    rewrite feed_app.
    destruct (Hv (sub_prefix p k) (FMap acc) h tail root (Some k))
      as [k1 E1]; [discriminate|].
    rewrite E1. cbn [bind put].
    rewrite map_app in Dk. cbn [map fst] in Dk.
    apply distinct_app_cons in Dk as [Fresh Dk].
    rewrite dict_set_fresh by exact Fresh.
    destruct (IH p (acc ++ [(k, v)]) h tail root k1) as [k2 E2].
    { rewrite !map_app. exact Dk. }
    exists k2. rewrite E2, <- app_assoc. reflexivity.
Qed.

(** The events of a value with distinct keys build the value. *)
Lemma value_feeds_through v : distinct_keys v = true -> feeds_through v.
Proof.
  induction v as [| b | z | f | s | l IH | d IH] using json_induction;
    intros D.
  - apply (@scalar_feeds_through _ "null"). split; [reflexivity | auto].
  - apply (@scalar_feeds_through _ "boolean"). split; [reflexivity | auto].
  - apply (@scalar_feeds_through _ "number"). split; [reflexivity | auto].
  - apply (@scalar_feeds_through _ "number"). split; [reflexivity | auto].
  - apply (@scalar_feeds_through _ "string"). split; [reflexivity | auto 6].
  - intros p c h tail root key K. cbn [events_of feed t_event t_value].
    assert (Hl : Forall feeds_through l).
    { cbn [distinct_keys] in D. rewrite forallb_forall in D.
      rewrite Forall_forall in *. intros x Ix. apply (IH x Ix), (D x Ix). }
    assert (O : b_event (mkBuilder root (Open c h :: tail) key)
                  "start_array" JNull
                = Ok (mkBuilder root (Open (FArr []) (hang_in c key)
                                      :: Open c h :: tail) key)).
    { unfold b_event. cbn [String.eqb Ascii.eqb Bool.eqb].
      unfold open_new. cbn [b_containers b_root b_key].
      destruct c as [m|l0]; [|reflexivity].
      destruct key as [k|]; [reflexivity | now contradiction K]. }
    rewrite O. cbn [bind]. rewrite feed_app.
    destruct (elements_feed Hl (sub_prefix p "item") [] (hang_in c key)
                (Open c h :: tail) root key) as [k1 E1].
    rewrite E1. cbn [bind app feed t_event t_value].
    exists k1. unfold b_event. cbn [String.eqb Ascii.eqb Bool.eqb orb].
    unfold containers_pop. cbn [b_containers b_root b_key].
    rewrite <- (hang_on_put c key (JArr l)).
    destruct c as [m|l0], key as [k|]; reflexivity.
  - intros p c h tail root key K. cbn [events_of feed t_event t_value].
    cbn [distinct_keys] in D. apply andb_prop in D as [Dk Dv].
    assert (Hd : Forall (fun kv => feeds_through (snd kv)) d).
    { rewrite forallb_forall in Dv.
      rewrite Forall_forall in *. intros x Ix. apply (IH x Ix), (Dv x Ix). }
    assert (O : b_event (mkBuilder root (Open c h :: tail) key)
                  "start_map" JNull
                = Ok (mkBuilder root (Open (FMap []) (hang_in c key)
                                      :: Open c h :: tail) key)).
    { unfold b_event. cbn [String.eqb Ascii.eqb Bool.eqb].
      unfold open_new. cbn [b_containers b_root b_key].
      destruct c as [m|l0]; [|reflexivity].
      destruct key as [k|]; [reflexivity | now contradiction K]. }
    rewrite O. cbn [bind]. fold (member_events p d). rewrite feed_app.
    destruct (members_feed Hd p [] (hang_in c key)
                (Open c h :: tail) root key Dk) as [k1 E1].
    rewrite E1. cbn [bind app feed t_event t_value].
    exists k1. unfold b_event. cbn [String.eqb Ascii.eqb Bool.eqb orb].
    unfold containers_pop. cbn [b_containers b_root b_key].
    rewrite <- (hang_on_put c key (JObj d)).
    destruct c as [m|l0], key as [k|]; reflexivity.
Qed.

(* ================================================================== *)
(** * The plan of a document *)

Lemma events_no_section v :
  names_no_section v = true ->
  forall p, Forall (fun t => names_section (t_value t) = false) (events_of p v).
Proof.
  induction v as [| b | z | f | s | l IH | d IH] using json_induction;
    intros N p; try (repeat constructor; fail).
  - constructor; [|constructor]. cbn [t_value].
    now apply negb_true_iff in N.
  - cbn [events_of]. constructor; [reflexivity|].
    apply Forall_app. split; [|repeat constructor].
    cbn [names_no_section] in N. rewrite forallb_forall in N.
    apply Forall_flat_map. rewrite Forall_forall in *.
    intros x Ix. apply (IH x Ix), (N x Ix).
  - cbn [events_of]. constructor; [reflexivity|].
    apply Forall_app. split; [|repeat constructor].
    cbn [names_no_section] in N. rewrite forallb_forall in N.
    apply Forall_flat_map. rewrite Forall_forall in *.
    intros x Ix. specialize (N x Ix). apply andb_prop in N as [Nk Nv].
    constructor; [now apply negb_true_iff in Nk|].
    apply (IH x Ix), Nv.
Qed.

Lemma member_events_no_section d :
  names_no_section (JObj d) = true ->
  forall p, Forall (fun t => names_section (t_value t) = false)
                   (member_events p d).
Proof.
  intros N p. pose proof (events_no_section (JObj d) N p) as F.
  cbn [events_of] in F. inversion F as [|? ? _ F']; subst.
  apply Forall_app in F' as [F' _]. exact F'.
Qed.

(** The builder after the members of the document that come before a
    section, and the key of the section. *)
Lemma feed_plan_members fields section :
  distinct_keys (JObj fields) = true ->
  exists b,
    feed ObjectBuilder
         ((mkTriple "" "start_map" JNull :: member_events "" fields)
          ++ [mkTriple "" "map_key" (JStr section)])
    = Ok b
    /\ b_value b = Some (JObj fields).
Proof.
  intros D. cbn [distinct_keys] in D. apply andb_prop in D as [Dk Dv].
  assert (Hd : Forall (fun kv => feeds_through (snd kv)) fields).
  { rewrite forallb_forall in Dv. apply Forall_forall.
    intros x Ix. apply value_feeds_through, (Dv x Ix). }
  rewrite feed_app. cbn [feed t_event t_value bind].
  change (b_event ObjectBuilder "start_map" JNull)
    with (Ok (mkBuilder None [Open (FMap []) Root; InitialSet] None)).
  cbn [bind].
  destruct (members_feed Hd "" [] Root [InitialSet] None None Dk) as [k1 E1].
  rewrite E1. cbn [bind app]. eexists. split; reflexivity.
Qed.

(** [get_plan] over the events of the members that come before a
    section. *)
Lemma plan_of_members fields section rest fin :
  distinct_keys (JObj fields) = true ->
  names_no_section (JObj fields) = true ->
  names_section (JStr section) = true ->
  get_plan (mkParser ((mkTriple "" "start_map" JNull
                       :: member_events "" fields)
                      ++ mkTriple "" "map_key" (JStr section) :: rest) fin)
  = (Ok (JObj fields), mkParser rest fin).
Proof.
  intros D N S.
  destruct (@feed_plan_members fields section D) as (b & F & V).
  unfold get_plan. cbn [p_events p_ending].
  apply (@get_plan_loop_stops ObjectBuilder _ _ rest fin b (JObj fields)).
  - constructor; [reflexivity|]. now apply member_events_no_section.
  - exact S.
  - exact F.
  - exact V.
Qed.

(* ================================================================== *)
(** * The references of a document *)

Lemma append_assoc (a b c : string) : ((a ++ b) ++ c = a ++ (b ++ c))%string.
Proof. induction a as [|x a IH]; simpl; [reflexivity | now rewrite IH]. Qed.

Lemma below_not_empty base p : below base p -> String.eqb p "" = false.
Proof. intros [s ->]. destruct base; reflexivity. Qed.

Lemma below_sub base p name : below base p -> below base (sub_prefix p name).
Proof.
  intros B. unfold sub_prefix. rewrite (below_not_empty B).
  destruct B as [s ->]. exists (s ++ "." ++ name)%string.
  now rewrite !append_assoc.
Qed.

(** The events of a value below [base] are all below [base]. *)
Lemma events_below base v :
  forall p, below base p ->
    Forall (fun t => below base (t_prefix t)) (events_of p v).
Proof.
  induction v as [| b | z | f | s | l IH | d IH] using json_induction;
    intros p Dp; cbn [events_of]; try (repeat constructor; exact Dp).
  - constructor; [exact Dp|]. apply Forall_app. split.
    + apply Forall_flat_map. rewrite Forall_forall in *.
      intros x Hx. apply IH; [exact Hx | now apply below_sub].
    + repeat constructor. exact Dp.
  - constructor; [exact Dp|]. apply Forall_app. split.
    + apply Forall_flat_map. rewrite Forall_forall in *.
      intros x Hx. constructor; [exact Dp|].
      apply IH; [exact Hx | now apply below_sub].
    + repeat constructor. exact Dp.
Qed.

(** The loop of [gen_references] over events it stops at none of. *)
Lemma gen_references_loop_pass evs :
  forall b b' rest fin,
    Forall (fun t => passes_references t = true) evs ->
    feed b evs = Ok b' ->
    gen_references_loop (evs ++ rest) fin b = gen_references_loop rest fin b'.
Proof.
  induction evs as [|t evs IH]; intros b b' rest fin F E.
  - simpl in E. injection E as <-. reflexivity.
  - inversion F as [|? ? Ft F']; subst. cbn [feed] in E. cbn [app].
    cbn [gen_references_loop].
    destruct (b_event b (t_event t) (t_value t)) as [b1|e]; [|discriminate].
    cbn [bind] in E. unfold passes_references in Ft.
    apply andb_prop in Ft as [A1 A2].
    apply negb_true_iff in A1. apply negb_true_iff in A2.
    rewrite A1, A2. now apply IH.
Qed.

Lemma member_events_pass_references d :
  Forall (fun t => passes_references t = true)
         (member_events "provider_references.item" d).
Proof.
  unfold member_events. apply Forall_flat_map, Forall_forall.
  intros [k v] _. constructor; [reflexivity|].
  assert (B : below "provider_references.item"
                (sub_prefix "provider_references.item" (fst (k, v)))).
  { exists k. reflexivity. }
  eapply Forall_impl; [|apply (events_below v B)].
  intros t [s E]. unfold passes_references, at_place. rewrite E. reflexivity.
Qed.

(** One reference: its events build it, and it is yielded at its end. *)
Lemma reference_run d root key rest fin :
  distinct_keys (JObj d) = true ->
  exists key',
    gen_references_loop
      (events_of "provider_references.item" (JObj d) ++ rest) fin
      (mkBuilder root between_references key)
    = yield_first (JObj d)
        (gen_references_loop rest fin
           (mkBuilder root between_references key')).
Proof.
  intros D. cbn [distinct_keys] in D. apply andb_prop in D as [Dk Dv].
  assert (Hd : Forall (fun kv => feeds_through (snd kv)) d).
  { rewrite forallb_forall in Dv. apply Forall_forall.
    intros x Ix. apply value_feeds_through, (Dv x Ix). }
  destruct (members_feed Hd "provider_references.item" [] Last
              between_references root key Dk) as [k1 E1].
  exists k1. cbn [events_of]. fold (member_events "provider_references.item" d).
  cbn [app]. rewrite <- app_assoc. cbn [app].
  change (mkTriple "provider_references.item" "start_map" JNull
          :: member_events "provider_references.item" d
             ++ mkTriple "provider_references.item" "end_map" JNull :: rest)
    with ((mkTriple "provider_references.item" "start_map" JNull
           :: member_events "provider_references.item" d)
          ++ mkTriple "provider_references.item" "end_map" JNull :: rest).
  rewrite (@gen_references_loop_pass _ _
             (mkBuilder root (in_reference d) k1)).
  - cbn [gen_references_loop]. unfold yield_first.
    change (b_event (mkBuilder root (in_reference d) k1)
              (t_event (mkTriple "provider_references.item" "end_map" JNull))
              (t_value (mkTriple "provider_references.item" "end_map" JNull)))
      with (Ok (mkBuilder root [Open (FArr [JObj d]) Root; InitialSet] k1)).
    cbn match.
    change (at_place (mkTriple "provider_references.item" "end_map" JNull)
              "provider_references.item" "end_map") with true.
    cbn match.
    change (value_pop (mkBuilder root [Open (FArr [JObj d]) Root; InitialSet] k1))
      with (Ok (JObj d, mkBuilder root between_references k1)).
    cbn match.
    now destruct (gen_references_loop rest fin _).
  - constructor; [reflexivity | apply member_events_pass_references].
  - cbn [feed t_event t_value].
    change (b_event (mkBuilder root between_references key) "start_map" JNull)
      with (Ok (mkBuilder root (Open (FMap []) Last :: between_references) key)).
    cbn [bind]. exact E1.
Qed.

Lemma references_run refs :
  forallb plain_reference refs = true ->
  forall root key rest fin,
    exists key',
      gen_references_loop
        (flat_map (events_of "provider_references.item") refs ++ rest) fin
        (mkBuilder root between_references key)
      = yield_all refs
          (gen_references_loop rest fin
             (mkBuilder root between_references key')).
Proof.
  induction refs as [|ref refs IH]; intros Pl root key rest fin.
  - exists key. cbn [flat_map app]. unfold yield_all. cbn [app].
    now destruct (gen_references_loop rest fin _) as [[ys st] p].
  - cbn [forallb] in Pl. apply andb_prop in Pl as [P1 Pl].
    unfold plain_reference in P1. apply andb_prop in P1 as [O D].
    destruct ref as [| | | | | |d]; try discriminate.
    cbn [flat_map]. rewrite <- app_assoc.
    destruct (@reference_run d root key
                (flat_map (events_of "provider_references.item") refs ++ rest)
                fin D) as [k1 E1].
    rewrite E1.
    destruct (IH Pl root k1 rest fin) as [k2 E2]. rewrite E2. exists k2.
    apply yield_first_all.
Qed.

Lemma references_of_array refs rest fin :
  forallb plain_reference refs = true ->
  gen_references
    (mkParser (events_of "provider_references" (JArr refs) ++ rest) fin)
  = (mkGen refs (Ok tt), mkParser rest fin).
Proof.
  intros Pl. unfold gen_references. cbn [p_events p_ending events_of].
  change (sub_prefix "provider_references" "item")
    with "provider_references.item".
  cbn [app gen_references_loop].
  change (b_event ObjectBuilder
            (t_event (mkTriple "provider_references" "start_array" JNull))
            (t_value (mkTriple "provider_references" "start_array" JNull)))
    with (Ok (mkBuilder None between_references None)).
  cbn match.
  change (at_place (mkTriple "provider_references" "start_array" JNull)
            "provider_references.item" "end_map") with false.
  change (at_place (mkTriple "provider_references" "start_array" JNull)
            "provider_references" "end_array") with false.
  cbn match. rewrite <- app_assoc.
  destruct (@references_run refs Pl None None
              ([mkTriple "provider_references" "end_array" JNull] ++ rest) fin)
    as [k E].
  rewrite E. cbn [app gen_references_loop].
  unfold yield_all. cbn. now rewrite app_nil_r.
Qed.

(** X2: Over the events of the array of the provider references, each an
    object with distinct keys, [gen_references] yields every reference,
    complete and in the order of the file, returns at the end of the
    array and leaves the events that follow to its caller. *)
Theorem gen_references_yields_the_references :
  forall refs rest fin,
    forallb plain_reference refs = true ->
    gen_references
      (mkParser (events_of "provider_references" (JArr refs) ++ rest) fin)
    = (mkGen refs (Ok tt), mkParser rest fin).
Proof.
  intros refs rest fin Pl. unfold gen_references.
  cbn [p_events p_ending events_of].
  change (sub_prefix "provider_references" "item")
    with "provider_references.item".
  cbn [app gen_references_loop].
  change (b_event ObjectBuilder
            (t_event (mkTriple "provider_references" "start_array" JNull))
            (t_value (mkTriple "provider_references" "start_array" JNull)))
    with (Ok (mkBuilder None between_references None)).
  cbn match.
  change (at_place (mkTriple "provider_references" "start_array" JNull)
            "provider_references.item" "end_map") with false.
  change (at_place (mkTriple "provider_references" "start_array" JNull)
            "provider_references" "end_array") with false.
  cbn match. rewrite <- app_assoc.
  destruct (@references_run refs Pl None None
              ([mkTriple "provider_references" "end_array" JNull] ++ rest) fin)
    as [k E].
  rewrite E. cbn [app gen_references_loop].
  unfold yield_all. cbn. now rewrite app_nil_r.
Qed.

(* ================================================================== *)
(** * The two sections of a document, in either order *)

Lemma member_events_app p a b :
  member_events p (a ++ b) = member_events p a ++ member_events p b.
Proof. apply flat_map_app. Qed.

(** The events of a document with a member [(k, v)] after [fields]. *)
Lemma events_of_document fields k v more :
  events_of "" (JObj (fields ++ (k, v) :: more))
  = (mkTriple "" "start_map" JNull :: member_events "" fields)
    ++ mkTriple "" "map_key" (JStr k)
    :: events_of k v ++ member_events "" more
    ++ [mkTriple "" "end_map" JNull].
Proof.
  cbn [events_of]. fold (member_events "" (fields ++ (k, v) :: more)).
  rewrite member_events_app. unfold member_events at 2.
  cbn [flat_map fst snd]. fold (member_events "" more).
  change (sub_prefix "" k) with k.
  cbn [app]. rewrite <- !app_assoc. cbn [app]. now rewrite <- !app_assoc.
Qed.


(** Where [ffwd] stops on its way to a key of the document. *)
Lemma ffwd_to_key name evs rest fin :
  Forall (fun t => pattern_matches (Some "") None (Some name) t = false) evs ->
  ffwd (mkParser (evs ++ mkTriple "" "map_key" (JStr name) :: rest) fin)
       (Some "") None (Some name)
  = (Ok tt, mkParser rest fin).
Proof.
  intros F. rewrite ffwd_one_wildcard by reflexivity. cbn [p_events p_ending].
  apply for_break_hit; [exact F|].
  unfold pattern_matches. cbn [t_prefix t_event t_value eq_str].
  now rewrite (String.eqb_refl name).
Qed.


(** Events below a key that is not empty are not events of the
    document itself. *)
Lemma sub_prefix_not_empty p name :
  String.eqb p "" = false -> String.eqb (sub_prefix p name) "" = false.
Proof.
  intros N. unfold sub_prefix. rewrite N. destruct p; [discriminate|].
  reflexivity.
Qed.

Lemma events_not_top v :
  forall p, String.eqb p "" = false ->
    Forall (fun t => String.eqb (t_prefix t) "" = false) (events_of p v).
Proof.
  induction v as [| b | z | f | s | l IH | d IH] using json_induction;
    intros p Dp; cbn [events_of]; try (repeat constructor; exact Dp).
  - constructor; [exact Dp|]. apply Forall_app. split.
    + apply Forall_flat_map. rewrite Forall_forall in *.
      intros x Hx. apply IH; [exact Hx | now apply sub_prefix_not_empty].
    + repeat constructor. exact Dp.
  - constructor; [exact Dp|]. apply Forall_app. split.
    + apply Forall_flat_map. rewrite Forall_forall in *.
      intros x Hx. constructor; [exact Dp|].
      apply IH; [exact Hx | now apply sub_prefix_not_empty].
    + repeat constructor. exact Dp.
Qed.

Lemma not_top_no_match name evs :
  Forall (fun t => String.eqb (t_prefix t) "" = false) evs ->
  Forall (fun t => pattern_matches (Some "") None (Some name) t = false) evs.
Proof.
  apply Forall_impl. intros t E. unfold pattern_matches. now rewrite E.
Qed.



Lemma plan_of_document fields section body more :
  plan_members fields = true ->
  names_section (JStr section) = true ->
  get_plan (parse (JObj (fields ++ (section, body) :: more)))
  = (Ok (JObj fields),
     mkParser (events_of section body ++ member_events "" more
               ++ [mkTriple "" "end_map" JNull]) Exhausted).
Proof.
  intros P S. unfold plan_members in P. apply andb_prop in P as [D N].
  unfold parse, parse_at. rewrite events_of_document.
  now apply plan_of_members.
Qed.

(** X1: [get_plan] on a document whose members before the first section
    name neither section, as a key or as a string: the plan is the object
    of these members, in their order and with their values in full, and
    the parser is left right after the key of the section, at the first
    event of its value.  The members after the section are not in the
    plan. *)
Theorem get_plan_returns_the_members_before_the_section :
  (forall fields section rest fin,
      plan_members fields = true ->
      names_section (JStr section) = true ->
      get_plan (mkParser (mkTriple "" "start_map" JNull
                          :: member_events "" fields
                          ++ mkTriple "" "map_key" (JStr section) :: rest) fin)
      = (Ok (JObj fields), mkParser rest fin))
  /\ (forall fields section body more,
        plan_members fields = true ->
        names_section (JStr section) = true ->
        get_plan (parse (JObj (fields ++ (section, body) :: more)))
        = (Ok (JObj fields),
           mkParser (events_of section body ++ member_events "" more
                     ++ [mkTriple "" "end_map" JNull]) Exhausted)).
Proof.
  split.
  - intros fields section rest fin P S.
    unfold plan_members in P. apply andb_prop in P as [D N].
    exact (@plan_of_members fields section rest fin D N S).
  - intros fields section body more P S. now apply plan_of_document.
Qed.

Lemma start_parser_reads file doc k :
  is_ok (JSONOpen_init file) = true ->
  w_content env k = parse doc ->
  start_parser file k = parse doc.
Proof.
  intros A R. unfold start_parser.
  destruct (JSONOpen_init file); [exact R | discriminate].
Qed.


Lemma peek_array p l rest fin :
  peek (mkParser (events_of p (JArr l) ++ rest) fin)
  = Ok (Some (mkTriple p "start_array" JNull),
        mkParser (events_of p (JArr l) ++ rest) fin,
        mkParser ((flat_map (events_of (sub_prefix p "item")) l
                   ++ [mkTriple p "end_array" JNull]) ++ rest) fin).
Proof. reflexivity. Qed.

Lemma member_events_cons p k v d :
  member_events p ((k, v) :: d)
  = mkTriple p "map_key" (JStr k)
    :: events_of (sub_prefix p k) v ++ member_events p d.
Proof. reflexivity. Qed.


Lemma items_no_match name items :
  Forall (fun t => pattern_matches (Some "") None (Some name) t = false)
         (events_of "in_network" (JArr items)).
Proof. apply not_top_no_match, events_not_top. reflexivity. Qed.




(* ================================================================== *)
(** * A member after the references *)

(** The loop of [gen_in_network_items] when the first event it gets is a
    string that is not empty. *)
Lemma gen_loop_on_a_string cf k s rest fin :
  s <> "" ->
  fst (gen_loop cf (mkParser (mkTriple k "string" (JStr s) :: rest) fin)
         ObjectBuilder)
  = mkGen [] (Raise AttributeError).
Proof.
  intros N. destruct s as [|a s]; [contradiction|].
  rewrite gen_loop_turn. unfold gen_in_network_items_turn.
  cbn [next p_events p_ending t_event t_value].
  change (b_event ObjectBuilder "string" (JStr (String a s)))
    with (Ok (mkBuilder (Some (JStr (String a s))) [InitialSet] None)).
  cbn match.
  change (b_value (mkBuilder (Some (JStr (String a s))) [InitialSet] None))
    with (Some (JStr (String a s))).
  cbn [has_value py_len bind String.length Nat.ltb Nat.leb].
  unfold skip_item_by_code, wants_skip. cbn [bind py_last].
  destruct s; reflexivity.
Qed.

Lemma nothing_processed e m nf :
  process_in_network (swap_references (mkGen [] (Raise e)) m) nf
  = mkGen [] (Raise e).
Proof. destruct m as [[|x m]|]; reflexivity. Qed.

(** What [prepare_in_network] and the generators make of the events
    that follow the references when the first of them is the key of a
    string member. *)
Lemma in_network_items_after_member file cf nf plan m k s more :
  s <> "" ->
  in_network_items
    (mkContent file cf nf
       (mkParser (member_events "" ((k, JStr s) :: more)
                  ++ [mkTriple "" "end_map" JNull]) Exhausted)
       plan m)
  = Ok (mkGen [] (Raise AttributeError)).
Proof.
  intros N. unfold in_network_items, prepare_in_network.
  cbn [c_parser c_file c_code_filter c_ref_map c_npi_filter].
  rewrite member_events_cons.
  cbn [app peek next p_events p_ending bind events_of].
  change (is_document_end (mkTriple "" "map_key" (JStr k))) with false.
  cbn match. cbn [bind].
  change (gen_in_network_items ?p cf) with (gen_loop cf p ObjectBuilder).
  cbn [app]. rewrite (@gen_loop_on_a_string cf _ s _ Exhausted N).
  now rewrite nothing_processed.
Qed.

(** A run whose stream of items raises at once writes nothing. *)
Lemma run_of_no_items url file cf nf e log :
  processed_items file cf nf = Ok (mkGen [] (Raise e)) ->
  w_mkdir_fails env = false ->
  json_mrf_to_csv url (Some file) cf nf log = (Raise e, log).
Proof.
  intros H M. unfold json_mrf_to_csv.
  destruct (filename_hasher_ok file) as [h Eh].
  unfold and_then at 1. unfold lift at 1. rewrite Eh.
  unfold processed_items in H.
  unfold and_then at 1. unfold lift at 1.
  destruct (start_conn file cf nf) as [content|e0]; [|discriminate].
  cbn [bind] in H. unfold and_then at 1. unfold lift at 1. rewrite H.
  unfold and_then at 1. unfold make_dir. rewrite M. reflexivity.
Qed.

(** X4: When a string member that is not empty follows the provider
    references in the document (before the items, or after the
    references that follow the items), the stream of the items raises
    [AttributeError] before it yields anything, and [json_mrf_to_csv]
    raises it and writes nothing: [prepare_in_network] takes the key of
    the member off the parser and goes on from there, the string is the
    first event the loop over the items gets, and
    [skip_item_by_code] asks its last character for a billing code. *)
Theorem member_after_references_raises :
  forall file code_filter npi_filter fields refs items k s more,
    is_ok (JSONOpen_init file) = true ->
    plan_members fields = true ->
    forallb plain_reference refs = true ->
    s <> "" ->
    let raises :=
      m <- make_reference_map (mkGen refs (Ok tt)) npi_filter ;;
      Ok (mkGen (@nil json) (Raise AttributeError)) in
    (reads (member_after_references fields refs k s more) ->
     processed_items file code_filter npi_filter = raises)
    /\ (reads (member_after_references
                 (fields ++ [("in_network", JArr items)]) refs k s more) ->
        processed_items file code_filter npi_filter = raises)
    /\ (forall url log m,
          reads (member_after_references fields refs k s more)
          \/ reads (member_after_references
                      (fields ++ [("in_network", JArr items)]) refs k s more) ->
          make_reference_map (mkGen refs (Ok tt)) npi_filter = Ok m ->
          w_mkdir_fails env = false ->
          json_mrf_to_csv url (Some file) code_filter npi_filter log
          = (Raise AttributeError, log)).
Proof.
  intros file cf nf fields refs items k s more A P Pr N. cbv zeta.
  assert (First : reads (member_after_references fields refs k s more) ->
            processed_items file cf nf
            = (m <- make_reference_map (mkGen refs (Ok tt)) nf ;;
               Ok (mkGen (@nil json) (Raise AttributeError)))).
  { intros [R0 R1]. unfold processed_items, start_conn.
    rewrite (@start_parser_reads file _ 0 A R0).
    unfold member_after_references.
    rewrite (@plan_of_document fields "provider_references" _ _ P eq_refl).
    unfold get_reference_map. rewrite peek_array.
    change (is_references_start
              (mkTriple "provider_references" "start_array" JNull)) with true.
    cbn match. rewrite (@references_of_array refs _ _ Pr).
    destruct (make_reference_map (mkGen refs (Ok tt)) nf) as [m|e];
      [|reflexivity].
    cbn [bind]. now apply in_network_items_after_member. }
  assert (Last : reads (member_after_references
                          (fields ++ [("in_network", JArr items)])
                          refs k s more) ->
            processed_items file cf nf
            = (m <- make_reference_map (mkGen refs (Ok tt)) nf ;;
               Ok (mkGen (@nil json) (Raise AttributeError)))).
  { intros [R0 R1]. unfold processed_items, start_conn.
    rewrite (@start_parser_reads file _ 0 A R0).
    unfold member_after_references. rewrite <- app_assoc. cbn [app].
    rewrite (@plan_of_document fields "in_network" _ _ P eq_refl).
    unfold get_reference_map. rewrite peek_array.
    change (is_references_start (mkTriple "in_network" "start_array" JNull))
      with false.
    cbn match. rewrite member_events_cons.
    change (sub_prefix "" "provider_references") with "provider_references".
    cbn [app]. rewrite <- app_assoc.
    rewrite (@ffwd_to_key "provider_references" _ _ Exhausted
               (items_no_match "provider_references" items)).
    rewrite (@references_of_array refs _ _ Pr).
    destruct (make_reference_map (mkGen refs (Ok tt)) nf) as [m|e];
      [|reflexivity].
    cbn [bind]. now apply in_network_items_after_member. }
  split; [exact First | split; [exact Last|]].
  intros url log m R M D. apply run_of_no_items; [|exact D].
  destruct R as [R | R]; [rewrite (First R) | rewrite (Last R)];
    now rewrite M.
Qed.

(* ================================================================== *)
(** * A stream that ends between two items *)

Lemma gen_loop_at_the_end cf fin b :
  gen_loop cf (mkParser [] fin) b = (gen_done (ends_as fin), finished).
Proof.
  rewrite gen_loop_turn. unfold gen_in_network_items_turn, ends_as.
  cbn [next p_events p_ending].
  destruct (raised_at_end fin); reflexivity.
Qed.

(** X5: When the events stop after the start of the array and some
    complete items, each an object with distinct keys in which the code,
    its type and the arrangement are scalars where present, and before
    the end of the array, [gen_in_network_items] has yielded, of these
    items and in their order, those that are not skipped early; it then
    returns if the parser stops, and raises what the parser raises
    otherwise: the error of the tokenizer on a file that is cut short
    comes after the items before the cut. *)
Theorem gen_in_network_items_cut_short :
  forall code_filter items fin,
    forallb plain_item items = true ->
    gen_in_network_items
      (mkParser (mkTriple "in_network" "start_array" JNull
                 :: flat_map (events_of "in_network.item") items) fin)
      code_filter
    = (mkGen (unskipped code_filter items) (ends_as fin), finished).
Proof.
  intros cf items fin Pl.
  change (gen_in_network_items ?p cf) with (gen_loop cf p ObjectBuilder).
  rewrite start_of_array_turn.
  destruct (@items_run cf items Pl None None [] fin) as [k E].
  rewrite app_nil_r in E. rewrite E, gen_loop_at_the_end.
  unfold yield_all, unskipped. cbn [fst snd yielded stopped gen_done].
  now rewrite app_nil_r.
Qed.

(* ================================================================== *)
(** * Filters from CSV files *)

Lemma strings_eqb_eq a b : strings_eqb a b = true <-> a = b.
Proof.
  revert b. induction a as [|x a IH]; intros [|y b]; simpl;
    try (split; [discriminate | discriminate]); [tauto|].
  rewrite andb_true_iff, String.eqb_eq, IH. split.
  - intros [-> ->]. reflexivity.
  - intros [= -> ->]. auto.
Qed.

Lemma set_item_eqb_eq a b : set_item_eqb a b = true <-> a = b.
Proof.
  destruct a as [s|l], b as [t|m]; simpl;
    try (split; [discriminate | discriminate]).
  - rewrite String.eqb_eq. split; [now intros -> | now intros [= ->]].
  - rewrite strings_eqb_eq. split; [now intros -> | now intros [= ->]].
Qed.

Lemma set_add_In x y items : In y (set_add x items) <-> In y items \/ y = x.
Proof.
  unfold set_add. destruct (existsb (set_item_eqb x) items) eqn:E.
  - apply existsb_exists in E as (z & Iz & Ez).
    apply set_item_eqb_eq in Ez as <-. split; [auto|].
    intros [I | ->]; assumption.
  - rewrite in_app_iff. simpl. split; intros [I | I]; auto.
    + destruct I as [<- | []]. auto.
Qed.

Lemma set_add_NoDup x items : NoDup items -> NoDup (set_add x items).
Proof.
  intros N. unfold set_add.
  destruct (existsb (set_item_eqb x) items) eqn:E; [exact N|].
  apply NoDup_app; [exact N | repeat constructor; intros [] |].
  intros y Iy [-> | []].
  assert (T : existsb (set_item_eqb y) items = true); [|congruence].
  apply existsb_exists. exists y. split; [exact Iy|].
  now apply set_item_eqb_eq.
Qed.

Lemma import_rows_step row rest items :
  row <> [] ->
  import_rows (row :: rest) items
  = import_rows rest (set_add (item_of_row row) items).
Proof.
  intros N. cbn [import_rows]. unfold item_of_row.
  destruct (1 <? List.length (map strip row))%nat; [reflexivity|].
  destruct row as [|c row]; [contradiction|]. reflexivity.
Qed.

Lemma import_rows_blank rows :
  forall items, In [] rows -> import_rows rows items = Raise IndexError.
Proof.
  induction rows as [|row rows IH]; intros items I; [destruct I|].
  destruct row as [|c row]; [reflexivity|].
  rewrite import_rows_step by discriminate.
  apply IH. destruct I as [I | I]; [discriminate | exact I].
Qed.

Lemma import_rows_members rows :
  forall acc,
    ~ In [] rows ->
    exists items,
      import_rows rows acc = Ok items
      /\ (forall x, In x items <->
                    In x acc \/ exists row, In row rows /\ x = item_of_row row)
      /\ (NoDup acc -> NoDup items).
Proof.
  induction rows as [|row rows IH]; intros acc N.
  - exists acc. split; [reflexivity|]. split; [|auto].
    intros x. split; [auto|]. intros [I | (row & [] & _)]. exact I.
  - assert (Nr : row <> []) by (intros ->; apply N; now left).
    rewrite (@import_rows_step row rows acc Nr).
    destruct (IH (set_add (item_of_row row) acc)) as (items & E & M & D).
    { intros I. apply N. now right. }
    exists items. split; [exact E|]. split.
    + intros x. rewrite M, set_add_In. split.
      * intros [[I | ->] | (r & Ir & ->)]; [auto | |].
        -- right. exists row. split; [now left | reflexivity].
        -- right. exists r. split; [now right | reflexivity].
      * intros [I | (r & [<- | Ir] & ->)]; [auto | auto |].
        right. exists r. auto.
    + intros Da. apply D. now apply set_add_NoDup.
Qed.

(** X19: [import_csv_to_set] on the rows of a file: a blank line, for which
    the reader gives an empty row, makes it raise [IndexError], wherever
    the line is; without one it returns the set of what the rows give, a
    row of one column the string of the column and a row of several the
    tuple of its columns, all without the white space around them, each
    element once. *)
Theorem import_csv_to_set_rows :
  forall rows,
    (In [] rows -> import_csv_to_set rows = Raise IndexError)
    /\ (~ In [] rows ->
        exists items,
          import_csv_to_set rows = Ok items
          /\ NoDup items
          /\ forall x, In x items <->
                       exists row, In row rows /\ x = item_of_row row).
Proof.
  intros rows. split.
  - intros I. now apply import_rows_blank.
  - intros N. destruct (@import_rows_members rows [] N) as (items & E & M & D).
    exists items. split; [exact E|]. split; [apply D; constructor|].
    intros x. rewrite M. split; [intros [[] | H]; exact H | auto].
Qed.

(* ================================================================== *)
(** * Peeking *)

(** X20: The two [peek]s, of [mrfutils/helpers.py] and of
    [processors/mrfutils.py], give the same value and the same iterator,
    and this iterator goes on as the one that was peeked at would have:
    nothing is lost and nothing comes twice. *)
Theorem helpers_peek_gives_the_iterator_back :
  forall iterator,
    helpers_peek iterator
    = (r <- peek iterator ;; Ok (fst (fst r), snd (fst r)))
    /\ forall next_ chained,
         helpers_peek iterator = Ok (next_, chained) ->
         next chained = next iterator.
Proof.
  intros [evs fin]. split.
  - unfold helpers_peek, peek, next, prepend. cbn [p_events p_ending].
    destruct evs as [|t evs]; [|reflexivity].
    destruct (raised_at_end fin); reflexivity.
  - intros o q. unfold helpers_peek, next, prepend. cbn [p_events p_ending].
    destruct evs as [|t evs].
    + destruct (raised_at_end fin) eqn:E; try discriminate.
      intros [= <- <-]. reflexivity.
    + intros [= <- <-]. reflexivity.
Qed.

(* ================================================================== *)
(** * A source that is an archive *)

Lemma rfind_none c s : rfind c s = None -> string_has c s = false.
Proof.
  induction s as [|a s IH]; cbn [rfind string_has]; [reflexivity|].
  destruct (rfind c s); [discriminate|].
  destruct (Ascii.eqb a c); [discriminate|]. intros _. now apply IH.
Qed.

Lemma substring_all s : substring 0 (String.length s) s = s.
Proof. induction s as [|a s IH]; simpl; [reflexivity | now rewrite IH]. Qed.

(** From its last [c] on, a string is [c] and a string without [c]. *)
Lemma rfind_suffix c s :
  forall i, rfind c s = Some i ->
    exists b, substring i (String.length s - i) s = String c b
              /\ string_has c b = false.
Proof.
  induction s as [|a s IH]; intros i; cbn [rfind]; [discriminate|].
  destruct (rfind c s) as [j|] eqn:R.
  - intros [= <-]. cbn [String.length Nat.sub substring]. now apply IH.
  - destruct (Ascii.eqb_spec a c) as [->|]; [|discriminate].
    intros [= <-]. exists s. split; [|now apply rfind_none].
    cbn [String.length Nat.sub substring]. now rewrite substring_all.
Qed.

(** The suffix of a path has one dot. *)
Lemma path_suffix_one_dot p : path_suffix p <> ".json.gz".
Proof.
  unfold path_suffix.
  destruct (rfind "." (path_name p)) as [i|] eqn:R; [|discriminate].
  destruct (_ && _); [|discriminate].
  destruct (rfind_suffix _ _ R) as (b & -> & H).
  intros [= ->]. discriminate.
Qed.

(** X21: When the source is an archive ([.zip], in any letter case),
    [JSONOpen.__enter__] of [mrfutils/helpers.py] opens the first file of
    the archive, where it was extracted to, as it is: never through
    [gzip], also when this file is a [.json.gz], since of the name of the
    file the last suffix only is looked at; the other files of the
    archive are not opened.  An archive without a file is an
    [IndexError]. *)
Theorem helpers_JSONOpen_enter_archive :
  forall o archive,
    lower (o_suffix o) = ".zip" ->
    (forall first others,
        archive = Ok (first :: others) ->
        helpers_JSONOpen_enter o archive
        = Ok (LocalRaw (path_join DOWNLOADS_DIR first)))
    /\ (archive = Ok [] ->
        helpers_JSONOpen_enter o archive = Raise IndexError)
    /\ (forall e, archive = Raise e ->
                  helpers_JSONOpen_enter o archive = Raise e).
Proof.
  intros o archive Z. unfold helpers_JSONOpen_enter. rewrite Z.
  cbn [String.eqb Ascii.eqb Bool.eqb]. repeat split.
  - intros first others ->. cbn [bind download_zip_file map andb].
    destruct (String.eqb_spec (path_suffix (path_join DOWNLOADS_DIR first))
                ".json.gz") as [E|]; [|reflexivity].
    now apply path_suffix_one_dot in E.
  - now intros ->.
  - now intros e ->.
Qed.

(* ================================================================== *)
(** * Swapping the references of a rate *)

Lemma extend_with_referenced m refs :
  lists_of_groups m ->
  Forall (fun r => hashable r = true) refs ->
  forall acc,
    fold_left (fun acc reference =>
                 groups <- acc ;;
                 addl_groups <- ref_map_get m reference ;;
                 addl_groups <- py_iter addl_groups ;;
                 match groups with
                 | JArr l => Ok (JArr (l ++ addl_groups))
                 | _ => Raise AttributeError
                 end)
              refs (Ok (JArr acc))
    = Ok (JArr (acc ++ flat_map (referenced m) refs)).
Proof.
  intros L H. induction H as [|r refs Hr _ IH]; intros acc.
  - simpl. now rewrite app_nil_r.
  - cbn [fold_left flat_map].
    assert (Step : (groups <- Ok (JArr acc) ;;
                    addl_groups <- ref_map_get m r ;;
                    addl_groups <- py_iter addl_groups ;;
                    match groups with
                    | JArr l => Ok (JArr (l ++ addl_groups))
                    | _ => Raise AttributeError
                    end) = Ok (JArr (acc ++ referenced m r))).
    { cbn [bind]. unfold ref_map_get, referenced. rewrite Hr.
      destruct (ref_map_find m r) as [v|] eqn:F; [|reflexivity].
      specialize (L r v F). destruct v; try discriminate. reflexivity. }
    rewrite Step, IH, app_assoc. reflexivity.
Qed.

(** The body of the loop over the rates, case by case. *)
Lemma swap_rate_cases :
  forall d reference_map,
    lists_of_groups reference_map ->
    (truthy_opt (dict_get d "provider_references") = false ->
     swap_rate (JObj d) reference_map = Ok (JObj d))
    /\ (forall refs inline,
          dict_get d "provider_references" = Some (JArr refs) ->
          refs <> [] ->
          Forall (fun r => hashable r = true) refs ->
          dict_get d "provider_groups" = Some (JArr inline)
          \/ (dict_get d "provider_groups" = None /\ inline = []) ->
          swap_rate (JObj d) reference_map
          = Ok (JObj (dict_set (dict_pop d "provider_references")
                               "provider_groups"
                               (JArr (inline
                                      ++ flat_map (referenced reference_map)
                                                  refs)))))
    /\ (forall r refs,
          dict_get d "provider_references" = Some (JArr (r :: refs)) ->
          hashable r = false ->
          swap_rate (JObj d) reference_map = Raise TypeError).
Proof.
  intros d m L. split; [|split].
  - intros T. unfold swap_rate. cbn [py_get bind]. now rewrite T.
  - intros refs inline R N H G. unfold swap_rate. cbn [py_get bind].
    rewrite R. destruct refs as [|r refs]; [contradiction|].
    cbn [truthy_opt truthy negb get_or_none py_iter bind].
    assert (E : match dict_get d "provider_groups" with
                | Some g => g
                | None => JArr []
                end = JArr inline).
    { destruct G as [-> | [-> ->]]; reflexivity. }
    rewrite E, (extend_with_referenced L H). reflexivity.
  - intros r refs R H. unfold swap_rate. cbn [py_get bind]. rewrite R.
    cbn [truthy_opt truthy negb get_or_none py_iter bind fold_left].
    assert (F : forall l e,
               fold_left (fun acc reference =>
                 groups <- acc ;;
                 addl_groups <- ref_map_get m reference ;;
                 addl_groups <- py_iter addl_groups ;;
                 match groups with
                 | JArr l => Ok (JArr (l ++ addl_groups))
                 | _ => Raise AttributeError
                 end) l (Raise e) = Raise e).
    { intros l e. induction l as [|x l IH]; [reflexivity | exact IH]. }
    assert (G : ref_map_get m r = Raise TypeError)
      by (unfold ref_map_get; now rewrite H).
    rewrite G. cbn [bind]. now rewrite F.
Qed.

Lemma swap_rate_plain m rate :
  lists_of_groups m ->
  plain_rate rate = true ->
  swap_rate rate m = Ok (swapped_rate m rate).
Proof.
  intros L P. destruct rate as [| | | | | |d]; try discriminate.
  destruct (@swap_rate_cases d m L) as (Keep & Swap & _).
  unfold plain_rate in P. apply andb_true_iff in P. destruct P as [PR PG].
  unfold swapped_rate.
  destruct (dict_get d "provider_references") as [[| | | | |refs|]|] eqn:R;
    try discriminate.
  - destruct refs as [|r refs]; [now apply Keep|].
    apply Swap with (refs := r :: refs) (inline := inline_groups d).
    + reflexivity.
    + discriminate.
    + apply Forall_forall. intros x I.
      exact (proj1 (forallb_forall _ _) PR x I).
    + unfold inline_groups.
      destruct (dict_get d "provider_groups") as [[| | | | |l|]|];
        try discriminate; auto.
  - now apply Keep.
Qed.

Lemma swapped_rate_object m rate :
  is_object rate = true -> is_object (swapped_rate m rate) = true.
Proof.
  destruct rate as [| | | | | |d]; try discriminate. intros _. simpl.
  destruct (dict_get d "provider_references") as [[| | | | |[|r refs]|]|];
    reflexivity.
Qed.

Lemma plain_rate_object rate : plain_rate rate = true -> is_object rate = true.
Proof. destruct rate; try discriminate. reflexivity. Qed.

Lemma swap_rates_plain m rates :
  lists_of_groups m ->
  forallb plain_rate rates = true ->
  mapM (fun rate => swap_rate rate m) rates
  = Ok (map (swapped_rate m) rates).
Proof.
  intros L. induction rates as [|rate rates IH]; [reflexivity|].
  cbn [forallb map mapM]. intros P. apply andb_true_iff in P.
  destruct P as [P Ps]. rewrite (@swap_rate_plain _ _ L P). cbn [bind].
  now rewrite (IH Ps).
Qed.

Lemma rates_with_groups rates :
  forallb is_object rates = true ->
  mapM (fun rate => g <- py_get rate "provider_groups" ;;
                    Ok (rate, truthy_opt g)) rates
  = Ok (map (fun rate => (rate, with_groups rate)) rates).
Proof.
  induction rates as [|rate rates IH]; [reflexivity|].
  cbn [forallb map mapM]. intros P. apply andb_true_iff in P.
  destruct P as [P Ps]. rewrite (IH Ps).
  destruct rate; try discriminate. reflexivity.
Qed.

Lemma kept_of_pairs {A} (f : A -> bool) l :
  map fst (filter snd (map (fun x => (x, f x)) l)) = filter f l.
Proof.
  induction l as [|x l IH]; [reflexivity|]. cbn [map filter snd].
  destruct (f x); cbn [map fst]; now rewrite IH.
Qed.

Lemma swap_item_rated m item :
  lists_of_groups m ->
  rated_item item = true ->
  swap_item m item
  = Ok (match swapped_item m item with
        | [] => None
        | y :: _ => Some y
        end)
    /\ (List.length (swapped_item m item) <= 1)%nat.
Proof.
  intros L P. destruct item as [| | | | | |d]; try discriminate.
  unfold rated_item in P. unfold swap_item, swapped_item.
  cbn [py_getitem].
  destruct (dict_get d "negotiated_rates") as [[| | | | |rates|]|];
    try discriminate.
  cbn [bind py_iter]. rewrite (@swap_rates_plain _ _ L P). cbn [bind].
  rewrite rates_with_groups.
  - cbn [bind]. rewrite kept_of_pairs. cbn [py_setitem bind].
    destruct (filter with_groups (map (swapped_rate m) rates));
      split; simpl; auto.
  - apply forallb_forall. intros x I. apply in_map_iff in I.
    destruct I as (rate & <- & I). apply swapped_rate_object.
    apply plain_rate_object. exact (proj1 (forallb_forall _ _) P rate I).
Qed.

Lemma gen_for_rated m items st :
  lists_of_groups m ->
  forallb rated_item items = true ->
  gen_for (swap_item m) items st = mkGen (flat_map (swapped_item m) items) st.
Proof.
  intros L. induction items as [|item items IH]; [reflexivity|].
  cbn [forallb gen_for flat_map]. intros P. apply andb_true_iff in P.
  destruct P as [P Ps]. destruct (@swap_item_rated _ _ L P) as [E Len].
  rewrite E, (IH Ps).
  destruct (swapped_item m item) as [|y [|z l]]; simpl in *;
    [reflexivity | reflexivity | lia].
Qed.

Lemma swap_item_bad_reference m item :
  lists_of_groups m ->
  bad_reference item = true -> swap_item m item = Raise TypeError.
Proof.
  intros L B. destruct item as [| | | | | |d]; try discriminate.
  unfold bad_reference in B. unfold swap_item. cbn [py_getitem].
  destruct (dict_get d "negotiated_rates") as [[| | | | |rates|]|];
    try discriminate.
  destruct rates as [|[| | | | | |rate] rates]; try discriminate.
  destruct (dict_get rate "provider_references")
    as [[| | | | |[|r refs]|]|] eqn:R; try discriminate.
  apply negb_true_iff in B.
  destruct (@swap_rate_cases rate m L) as (_ & _ & Bad).
  cbn [bind py_iter mapM]. now rewrite (Bad r refs R B).
Qed.

Lemma gen_for_app {A B} (body : A -> result (option B)) xs ys st :
  gen_for body (xs ++ ys) st
  = (if is_ok (stopped (gen_for body xs (Ok tt)))
     then mkGen (yielded (gen_for body xs (Ok tt))
                 ++ yielded (gen_for body ys st))
                (stopped (gen_for body ys st))
     else gen_for body xs (Ok tt)).
Proof.
  induction xs as [|x xs IH]; cbn [app gen_for].
  - simpl. now destruct (gen_for body ys st).
  - destruct (body x) as [[y|]|e]; [| exact IH | reflexivity].
    rewrite IH. unfold gen_yield. cbn [yielded stopped].
    now destruct (is_ok (stopped (gen_for body xs (Ok tt)))).
Qed.

(** X9: What [swap_references] does to the stream of items.  Without a
    reference map, or with an empty one, the items go through untouched,
    their [provider_references] included.  With a map that is not empty
    and whose values are lists, and items whose [negotiated_rates] are a
    list of objects in which [provider_references], where present, are a
    list of scalars and [provider_groups], where present, are a list:
    a rate without references, or with an empty list of them, stays as
    it is; any other rate loses [provider_references], and its
    [provider_groups] are the groups it had in line followed by the
    groups the map has for each of its references, in the order of the
    references, a reference the map does not know adding nothing; the
    rates left without groups are dropped from the item, an item left
    without rates is not yielded, and the stream ends as the stream of
    items does.  At an item whose first rate has a list or a dict as its
    first reference the stream raises [TypeError], the items before it
    having been yielded. *)
Theorem swap_references_extends_the_groups :
  forall items st,
    swap_references (mkGen items st) None = mkGen items st
    /\ swap_references (mkGen items st) (Some []) = mkGen items st
    /\ (forall reference_map,
          reference_map <> [] ->
          lists_of_groups reference_map ->
          (forallb rated_item items = true ->
           swap_references (mkGen items st) (Some reference_map)
           = mkGen (flat_map (swapped_item reference_map) items) st)
          /\ (forall before item after,
                items = before ++ item :: after ->
                forallb rated_item before = true ->
                bad_reference item = true ->
                swap_references (mkGen items st) (Some reference_map)
                = mkGen (flat_map (swapped_item reference_map) before)
                        (Raise TypeError))).
Proof.
  intros items st. split; [reflexivity | split; [reflexivity|]].
  intros m N L.
  assert (E : swap_references (mkGen items st) (Some m)
              = gen_for (swap_item m) items st).
  { destruct m as [|kv m]; [contradiction | reflexivity]. }
  rewrite E. split.
  - now apply gen_for_rated.
  - intros before item after -> P B. rewrite gen_for_app.
    rewrite (@gen_for_rated _ _ (Ok tt) L P). cbn [stopped is_ok yielded].
    cbn [gen_for]. rewrite (@swap_item_bad_reference m _ L B).
    cbn [gen_done leaves_generator yielded stopped].
    now rewrite app_nil_r.
Qed.

End Runtime.

(* ================================================================== *)
(** * The theorems at concrete inputs *)

(** C3 (as stated) fails on both constructors: the one of
    [processors/mrfutils.py] refuses [plans.zip] and [plans.JSON], whose
    suffixes are among the three when letter case is ignored; the one of
    [mrfutils/helpers.py] accepts [plans.v2.json], whose combined suffix
    [.v2.json] is none of the three. *)
Lemma JSONOpen_init_suffix_counterexample :
  combined_suffix urlparse_plain_path "plans.zip" = ".zip"
  /\ JSONOpen_init urlparse_plain_path "plans.zip" = Raise InvalidMRF
  /\ lower (combined_suffix urlparse_plain_path "plans.JSON") = ".json"
  /\ JSONOpen_init urlparse_plain_path "plans.JSON" = Raise InvalidMRF
  /\ combined_suffix urlparse_plain_path "plans.v2.json" = ".v2.json"
  /\ is_ok (helpers_JSONOpen_init urlparse_plain_path "plans.v2.json") = true.
Proof. repeat split. Qed.

(** The group of the NPI scenario, its NPIs in another order: the row
    lists the two NPIs of the filter in ascending order. *)
Lemma process_group_then_row_witness :
  let tin := JObj [("type", JStr "ein"); ("value", JStr "12-3456789")] in
  let g := [("npi", JArr [JInt 2020202020; JInt 9999999999; JInt 1111111111]);
            ("tin", tin)] in
  let f := Some ["1111111111"; "5555555555"; "2020202020"] in
  exists row,
    group_row_from_dict repr_of_small_floats
      (JObj [("npi", JArr [JStr "2020202020"; JStr "1111111111"]); ("tin", tin)])
    = Ok row
    /\ dict_get row "npi_numbers"
       = Some (JStr ("[" ++ quoted "1111111111" ++ ", "
                         ++ quoted "2020202020" ++ "]")).
Proof.
  intros tin g f.
  destruct (@process_group_then_row repr_of_small_floats g
              (JArr [JInt 2020202020; JInt 9999999999; JInt 1111111111])
              [JInt 2020202020; JInt 9999999999; JInt 1111111111]
              tin (JStr "ein") (JStr "12-3456789") f
              eq_refl eq_refl eq_refl eq_refl eq_refl) as (_ & _ & H & _).
  exact (H _ eq_refl).
Defined.

(** C5 (as stated) fails on the text of the column: for the group and
    the filter of the scenario the column has a space after the comma. *)
Lemma group_row_npi_numbers_counterexample :
  let tin := JObj [("type", JStr "ein"); ("value", JStr "12-3456789")] in
  let g := JObj [("npi", JArr [JInt 1111111111; JInt 2020202020;
                               JInt 9999999999]);
                 ("tin", tin)] in
  let f := Some ["1111111111"; "5555555555"; "2020202020"] in
  let column :=
    g' <- process_group repr_of_small_floats g f ;;
    row <- group_row_from_dict repr_of_small_floats (get_or_none g') ;;
    Ok (dict_get row "npi_numbers") in
  column = Ok (Some (JStr ("[" ++ quoted "1111111111" ++ ", "
                               ++ quoted "2020202020" ++ "]")))
  /\ column <> Ok (Some (JStr ("[" ++ quoted "1111111111" ++ ","
                                ++ quoted "2020202020" ++ "]"))).
Proof.
  intros tin g f column.
  assert (E : column = Ok (Some (JStr ("[" ++ quoted "1111111111" ++ ", "
                                           ++ quoted "2020202020" ++ "]"))))
    by (vm_compute; reflexivity).
  split; [exact E|]. rewrite E. vm_compute. discriminate.
Qed.

(** C6: at a price whose [service_code] is [[" 11", "02"]] the row gets
    the array of ["11"] and ["02"] in this order, the order of the
    elements before they are trimmed; trimming first and sorting then
    gives ["02"] before ["11"].  A price without the list, or with an
    empty one, gets no [service_code] in its row. *)
Theorem price_row_service_code_before_trim :
  let price codes :=
    JObj [("billing_class", JStr "professional");
          ("negotiated_type", JStr "negotiated");
          ("expiration_date", JStr "9999-12-31");
          ("negotiated_rate", JFloat (mkFloat false 25 2));
          ("service_code", JArr codes)] in
  let column codes :=
    row <- price_row_from_dict repr_of_small_floats (price codes)
             (JInt 1) (JInt 2) ;;
    Ok (dict_get row "service_code") in
  column [JStr " 11"; JStr "02"]
  = Ok (Some (JStr ("[" ++ quoted "11" ++ ", " ++ quoted "02" ++ "]")))
  /\ sort_by String.leb (map strip [" 11"; "02"]) = ["02"; "11"]
  /\ column [] = Ok None.
Proof. repeat split. Qed.

(** Two spellings of one dict, the keys inserted in another order in the
    dict and in the dict inside it, get one hash. *)
Lemma dicthasher_canonical_witness :
  let d1 := [("billing_code", JStr "99213");
             ("tin", JObj [("type", JStr "ein"); ("value", JStr "12-3456789")])] in
  let d2 := [("tin", JObj [("value", JStr "12-3456789"); ("type", JStr "ein")]);
             ("billing_code", JStr "99213")] in
  same_mapping (JObj d1) (JObj d2)
  /\ dicthasher repr_of_small_floats d1 = dicthasher repr_of_small_floats d2.
Proof.
  intros d1 d2.
  assert (S : same_mapping (JObj d1) (JObj d2)).
  { simpl. repeat split.
    - exists (JStr "99213"). split; reflexivity.
    - exists (JObj [("value", JStr "12-3456789"); ("type", JStr "ein")]).
      split; [reflexivity|]. simpl. repeat split.
      + exists (JStr "ein"). split; reflexivity.
      + exists (JStr "12-3456789"). split; reflexivity. }
  split; [exact S|].
  exact (proj1 (proj2 (proj2 (proj2 (dicthasher_canonical repr_of_small_floats))))
           d1 d2 S).
Defined.

(** The digest on the string [abc], the first example of the standard,
    and the hash of the file row of [test.json.gz]. *)
Example digest_abc :
  join_all (map (fun b => hex2 (ascii_of_byte b))
              (SHA256.digest (list_byte_of_string "abc")))
  = "ba7816bf8f01cfea414140de5dae2223b00361a396177a9cb410ff61f20015ad".
Proof. vm_compute. reflexivity. Qed.

Example filename_hasher_test :
  filename_hasher repr_of_small_floats "some/dir/test.json.gz"
  = Ok 921893370747022552%Z.
Proof. vm_compute. reflexivity. Qed.

(** The run on the small file: four in-network rows, then the three
    plan-level rows. *)
Lemma plan_rows_after_all_items_witness :
  let run := json_mrf_to_csv urlparse_plain_path repr_of_small_floats
               example_world "test.json.gz" None None None [] in
  exists item_rows plan_rows,
    snd run = [] ++ item_rows ++ plan_rows
    /\ Forall (fun x => in_network_table (fst x)) item_rows
    /\ Forall (fun x => plan_table (fst x)) plan_rows
    /\ (plan_rows <> [] ->
        exists filename_hash content items,
          filename_hasher repr_of_small_floats "test.json.gz" = Ok filename_hash
          /\ start_conn urlparse_plain_path repr_of_small_floats example_world
               "test.json.gz" None None = Ok content
          /\ in_network_items urlparse_plain_path repr_of_small_floats
               example_world content = Ok items
          /\ stopped items = Ok tt
          /\ write_items repr_of_small_floats example_world (yielded items)
               (stopped items) filename_hash []
             = (Ok tt, [] ++ item_rows)).
Proof.
  intros run.
  exact (@plan_rows_after_all_items urlparse_plain_path repr_of_small_floats
           example_world "test.json.gz" None None None [] (fst run) (snd run)
           (surjective_pairing run)).
Defined.

(** The link row of the run on the small file and its group row. *)
Lemma every_link_row_has_its_group_row_witness :
  let run := json_mrf_to_csv urlparse_plain_path repr_of_small_floats
               example_world "test.json.gz" None None None [] in
  let row := [("provider_group_hash", JInt 14444019257467300116);
              ("price_hash", JInt 10032149136947397391)] in
  exists h group_row,
    dict_get row "provider_group_hash" = Some h
    /\ In (provider_groups, group_row) (snd run)
    /\ dict_get group_row "provider_group_hash" = Some h.
Proof.
  intros run row.
  refine (proj1 (@every_link_row_has_its_group_row urlparse_plain_path
                   repr_of_small_floats example_world)
            "test.json.gz" None None None [] (fst run) (snd run)
            _ (surjective_pairing run) row _).
  - intros ? [].
  - vm_compute. do 3 right. left. reflexivity.
Defined.

(** Of an item in the filter, an item under a [bundle] arrangement and
    an item with a code that is not in the filter, the first alone is
    yielded. *)
Lemma gen_in_network_items_yields_unskipped_witness :
  gen_in_network_items repr_of_small_floats
    (mkParser (events_of "in_network"
                 (JArr [example_coded "CPT" "99213" "ffs";
                        example_coded "CPT" "99213" "bundle";
                        example_coded "HCPCS" "J3490" "ffs"])
               ++ [mkTriple "" "end_map" JNull]) Exhausted)
    example_code_filter
  = (mkGen [example_coded "CPT" "99213" "ffs"] (Ok tt),
     mkParser [mkTriple "" "end_map" JNull] Exhausted).
Proof.
  exact (@gen_in_network_items_yields_unskipped repr_of_small_floats
           example_code_filter
           [example_coded "CPT" "99213" "ffs";
            example_coded "CPT" "99213" "bundle";
            example_coded "HCPCS" "J3490" "ffs"]
           [mkTriple "" "end_map" JNull] Exhausted eq_refl).
Defined.

(** C4 (as stated) fails on an item whose code is the empty string: the
    pair of its type and code is not in the filter, and the item is
    yielded all the same; and on an item whose arrangement is the empty
    string, which is present and is not [ffs].
    It fails under a code filter that is set and empty: the pair of the
    item is not in it, and the item is yielded.
    It fails after an item whose code is a list: the item is skipped
    while that list is open, the builder is left out of step, and the
    item that follows, which is in the filter and under [ffs], is not
    yielded: the stream raises [IndexError] at its end.
    It fails on an item whose text gives the code twice: the object read
    from it has the second code, which is in the filter, and the item is
    skipped at the first. *)
Lemma gen_in_network_items_empty_code_counterexample :
  let no_code := example_coded "CPT" "" "ffs" in
  let no_arrangement := example_coded "CPT" "99213" "" in
  let in_filter := example_coded "CPT" "99213" "ffs" in
  let other_code := example_coded "HCPCS" "J3490" "ffs" in
  let twice := example_twice_coded "00000" "99213" in
  let run items code_filter :=
    fst (gen_in_network_items repr_of_small_floats
           (parse_at "in_network" (JArr items)) code_filter) in
  existsb (fun p => String.eqb (fst p) "CPT" && String.eqb (snd p) "")
          [("CPT", "99213")] = false
  /\ eq_str (JStr "") "ffs" = false
  /\ yielded (fst (gen_in_network_items repr_of_small_floats
                     (parse_at "in_network" (JArr [no_code; no_arrangement]))
                     example_code_filter))
     = [no_code; no_arrangement]
  /\ (existsb (fun p => String.eqb (fst p) "HCPCS"
                        && String.eqb (snd p) "J3490") [] = false
      /\ run [other_code] (Some []) = mkGen [other_code] (Ok tt))
  /\ (early_skip repr_of_small_floats example_code_filter in_filter = false
      /\ run [in_filter] example_code_filter = mkGen [in_filter] (Ok tt)
      /\ run [example_list_coded; in_filter] example_code_filter
         = mkGen [] (Raise IndexError))
  /\ (run [twice] None
      = mkGen [JObj [("negotiation_arrangement", JStr "ffs");
                     ("billing_code_type", JStr "CPT");
                     ("billing_code", JStr "99213");
                     ("negotiated_rates", JArr [])]] (Ok tt)
      /\ run [twice] example_code_filter = mkGen [] (Ok tt)).
Proof. vm_compute. repeat split. Qed.

(* ================================================================== *)
(** * The further theorems at concrete inputs *)

(** Two groups that list the same two NPIs in two orders. *)
Lemma group_row_from_dict_any_npi_order_witness :
  let tin := JObj [("type", JStr "ein"); ("value", JStr "12-3456789")] in
  group_row_from_dict repr_of_small_floats
    (JObj [("npi", JArr [JStr "2020202020"; JStr "1111111111"]); ("tin", tin)])
  = group_row_from_dict repr_of_small_floats
      (JObj [("tin", tin); ("npi", JArr [JStr "1111111111"; JStr "2020202020"])]).
Proof.
  intros tin.
  apply (@group_row_from_dict_any_npi_order repr_of_small_floats
           [("npi", JArr [JStr "2020202020"; JStr "1111111111"]); ("tin", tin)]
           [("tin", tin); ("npi", JArr [JStr "1111111111"; JStr "2020202020"])]
           ["2020202020"; "1111111111"] ["1111111111"; "2020202020"]).
  - reflexivity.
  - reflexivity.
  - apply perm_swap.
  - reflexivity.
Defined.

(** The group of the small file under a filter that has its NPI. *)
Lemma process_group_twice_witness :
  let npi_filter := Some ["1111111111"; "5555555555"] in
  let processed :=
    JObj [("npi", JArr [JStr "1111111111"]);
          ("tin", JObj [("type", JStr "ein"); ("value", JStr "12-3456789")])] in
  process_group repr_of_small_floats example_group npi_filter
  = Ok (Some processed)
  /\ process_group repr_of_small_floats processed npi_filter
     = Ok (Some processed).
Proof.
  intros npi_filter processed.
  assert (H : process_group repr_of_small_floats example_group npi_filter
              = Ok (Some processed)) by reflexivity.
  split; [exact H|].
  exact (@process_group_twice repr_of_small_floats example_group npi_filter
           processed H).
Defined.

(** A file under an address and its compressed copy in a directory. *)
Lemma filename_hasher_of_the_name_witness :
  filename_hasher repr_of_small_floats "https://host/files/2023-01_plan.json"
  = filename_hasher repr_of_small_floats "2023-01_plan.json.gz".
Proof.
  pose proof (@filename_hasher_of_the_name repr_of_small_floats
                "https://host/files" "2023-01_plan" "json"
                eq_refl eq_refl eq_refl) as [E1 _]; [discriminate|].
  pose proof (@filename_hasher_of_the_name repr_of_small_floats
                "" "2023-01_plan" "json.gz"
                eq_refl eq_refl eq_refl) as [_ [E2 _]]; [discriminate|].
  change ("https://host/files" ++ "/" ++ "2023-01_plan" ++ "." ++ "json")%string
    with "https://host/files/2023-01_plan.json" in E1.
  change ("2023-01_plan" ++ "." ++ "json.gz")%string
    with "2023-01_plan.json.gz" in E2.
  now rewrite E1, E2.
Defined.

(** A file that is not JSON. *)
Lemma json_mrf_to_csv_refused_file_writes_nothing_witness :
  json_mrf_to_csv urlparse_plain_path repr_of_small_floats example_world
    "plans.csv" None None None []
  = (Raise InvalidMRF, []).
Proof.
  exact (@json_mrf_to_csv_refused_file_writes_nothing urlparse_plain_path
           repr_of_small_floats example_world "plans.csv" None None None []
           eq_refl).
Defined.

(** The link row of the run on the small file and its price row. *)
Lemma every_link_row_has_its_price_row_witness :
  let run := json_mrf_to_csv urlparse_plain_path repr_of_small_floats
               example_world "test.json.gz" None None None [] in
  refers prices_provider_groups "price_hash" prices (snd run)
  /\ exists row, In (prices_provider_groups, row) (snd run).
Proof.
  intros run. split.
  - refine (@every_link_row_has_its_price_row urlparse_plain_path
              repr_of_small_floats example_world "test.json.gz" None None None
              [] (fst run) (snd run) _ (surjective_pairing run)).
    intros ? [].
  - eexists. vm_compute. do 3 right. left. reflexivity.
Defined.

(** The price row of the run on the small file and its code row. *)
Lemma every_price_row_has_its_code_row_witness :
  let run := json_mrf_to_csv urlparse_plain_path repr_of_small_floats
               example_world "test.json.gz" None None None [] in
  refers prices "code_hash" codes (snd run)
  /\ exists row, In (prices, row) (snd run).
Proof.
  intros run. split.
  - refine (@every_price_row_has_its_code_row urlparse_plain_path
              repr_of_small_floats example_world "test.json.gz" None None None
              [] (fst run) (snd run) _ (surjective_pairing run)).
    intros ? [].
  - eexists. vm_compute. do 1 right. left. reflexivity.
Defined.

(** The three rows of the plan of the small file. *)
Lemma write_plan_three_rows_witness :
  let run := write_plan repr_of_small_floats example_world example_document
               921893370747022552 "test.json.gz" "test.json.gz" [] in
  fst run = Ok tt /\ List.length (snd run) = 3%nat
  /\ exists plan_row plan_hash,
       plan_row_from_dict repr_of_small_floats example_document = Ok plan_row
       /\ dict_get plan_row "plan_hash" = Some plan_hash
       /\ snd run
          = [] ++ [(files, file_row_from_filename "test.json.gz"
                             921893370747022552 "test.json.gz");
                   (plans, plan_row);
                   (plans_files,
                    [("plan_hash", plan_hash);
                     ("filename_hash", JInt 921893370747022552)])].
Proof.
  intros run.
  assert (R : fst run = Ok tt) by (vm_compute; reflexivity).
  split; [exact R|]. split; [vm_compute; reflexivity|].
  exact (proj1 (@write_plan_three_rows repr_of_small_floats example_world
                  example_document 921893370747022552 "test.json.gz"
                  "test.json.gz" [] (fst run) (snd run)
                  (surjective_pairing run)) R).
Defined.

(** The row of [plans_files] of the run on the small file. *)
Lemma every_plan_file_row_has_its_plan_and_file_witness :
  let run := json_mrf_to_csv urlparse_plain_path repr_of_small_floats
               example_world "test.json.gz" None None None [] in
  (refers plans_files "plan_hash" plans (snd run)
   /\ refers plans_files "filename_hash" files (snd run))
  /\ exists row, In (plans_files, row) (snd run).
Proof.
  intros run. split.
  - refine (@every_plan_file_row_has_its_plan_and_file urlparse_plain_path
              repr_of_small_floats example_world "test.json.gz" None None None
              [] (fst run) (snd run) _ _ (surjective_pairing run));
      intros ? [].
  - eexists. vm_compute. do 6 right. left. reflexivity.
Defined.

(** The hash of the file in the rows of the run on the small file. *)
Lemma one_filename_hash_in_a_run_witness :
  let run := json_mrf_to_csv urlparse_plain_path repr_of_small_floats
               example_world "test.json.gz" None None None [] in
  fst run = Ok tt
  /\ exists h more,
       filename_hasher repr_of_small_floats "test.json.gz" = Ok h
       /\ snd run = [] ++ more
       /\ Forall (stamped h) more
       /\ (fst run = Ok tt ->
           In (files, file_row_from_filename "test.json.gz" h "test.json.gz")
              more).
Proof.
  intros run. split; [vm_compute; reflexivity|].
  exact (@one_filename_hash_in_a_run urlparse_plain_path repr_of_small_floats
           example_world "test.json.gz" None None None [] (fst run) (snd run)
           (surjective_pairing run)).
Defined.

(** The item of the small file under a filter that has its NPI. *)
Lemma process_in_network_yields_filtered_items_witness :
  let npi_filter := Some ["1111111111"] in
  let out := process_in_network repr_of_small_floats
               (mkGen [example_item] (Ok tt)) npi_filter in
  exists item, yielded out = [item] /\ filtered_item npi_filter item.
Proof.
  intros npi_filter out. eexists. split; [vm_compute; reflexivity|].
  apply (@process_in_network_yields_filtered_items repr_of_small_floats
           (mkGen [example_item] (Ok tt)) npi_filter).
  vm_compute. left. reflexivity.
Defined.

(** The reference of the small file, and what follows the array. *)
Lemma gen_references_yields_the_references_witness :
  gen_references
    (mkParser (events_of "provider_references" (JArr [example_reference])
               ++ [mkTriple "" "map_key" (JStr "in_network")]) Exhausted)
  = (mkGen [example_reference] (Ok tt),
     mkParser [mkTriple "" "map_key" (JStr "in_network")] Exhausted).
Proof.
  exact (@gen_references_yields_the_references [example_reference]
           [mkTriple "" "map_key" (JStr "in_network")] Exhausted eq_refl).
Defined.


(** The same file with its version written after the references. *)
Lemma member_after_references_raises_witness :
  let doc := member_after_references
               (example_fields ++ [("in_network", JArr [example_referring_item])])
               [example_reference] "version" "1.0.0" [] in
  processed_items urlparse_plain_path repr_of_small_floats
    (world_reading doc) "test.json" None None
  = Ok (mkGen [] (Raise AttributeError))
  /\ json_mrf_to_csv urlparse_plain_path repr_of_small_floats
       (world_reading doc) "test.json" (Some "test.json") None None []
     = (Raise AttributeError, []).
Proof.
  intros doc.
  pose proof (@member_after_references_raises urlparse_plain_path
                repr_of_small_floats (world_reading doc) "test.json"
                None None example_fields [example_reference]
                [example_referring_item] "version" "1.0.0" []
                eq_refl eq_refl eq_refl) as H.
  destruct H as (_ & B & C); [discriminate|]. cbv zeta in B. split.
  - rewrite (B (conj eq_refl eq_refl)). vm_compute. reflexivity.
  - eapply (C "test.json" []).
    + right. split; reflexivity.
    + vm_compute. reflexivity.
    + reflexivity.
Defined.

(** Two items and a file that is cut short after them. *)
Lemma gen_in_network_items_cut_short_witness :
  gen_in_network_items repr_of_small_floats
    (mkParser (mkTriple "in_network" "start_array" JNull
               :: flat_map (events_of "in_network.item")
                    [example_coded "CPT" "99213" "ffs";
                     example_coded "HCPCS" "J3490" "ffs"])
              (Raises JSONError))
    example_code_filter
  = (mkGen [example_coded "CPT" "99213" "ffs"] (Raise JSONError), finished).
Proof.
  exact (@gen_in_network_items_cut_short repr_of_small_floats
           example_code_filter
           [example_coded "CPT" "99213" "ffs";
            example_coded "HCPCS" "J3490" "ffs"]
           (Raises JSONError) eq_refl).
Defined.

(** An archive that holds a compressed file. *)
Lemma helpers_JSONOpen_enter_archive_witness :
  helpers_JSONOpen_enter (mkJSONOpen "https://host/plans.ZIP" ".ZIP" true)
    (Ok ["plans.json.gz"; "readme.txt"])
  = Ok (LocalRaw "/processing/temp_downloads/plans.json.gz").
Proof.
  exact (proj1 (@helpers_JSONOpen_enter_archive
                  (mkJSONOpen "https://host/plans.ZIP" ".ZIP" true)
                  (Ok ["plans.json.gz"; "readme.txt"]) eq_refl)
           "plans.json.gz" ["readme.txt"] eq_refl).
Defined.

(** Two items under a map that is not empty: a rate with a group in
    line and two references, one of them unknown to the map, and a rate
    whose only reference is unknown, which goes, and its item with it. *)
Lemma swap_references_extends_the_groups_witness :
  let other := JObj [("npi", JArr [JStr "2020202020"]);
                     ("tin", JObj [("type", JStr "ein");
                                   ("value", JStr "98-7654321")])] in
  let reference_map := [(JInt 1, JArr [other])] in
  let item code rate :=
    JObj [("billing_code", JStr code); ("negotiated_rates", JArr [rate])] in
  swap_references
    (mkGen [item "0000"
              (JObj [("provider_references", JArr [JInt 7; JInt 1]);
                     ("provider_groups", JArr [example_group]);
                     ("negotiated_prices", JArr [example_price])]);
            item "0001"
              (JObj [("provider_references", JArr [JInt 7]);
                     ("negotiated_prices", JArr [example_price])])]
           (Ok tt))
    (Some reference_map)
  = mkGen [item "0000"
             (JObj [("provider_groups", JArr [example_group; other]);
                    ("negotiated_prices", JArr [example_price])])]
          (Ok tt).
Proof.
  intros other reference_map item.
  assert (L : lists_of_groups reference_map).
  { intros k v. unfold reference_map. cbn [ref_map_find].
    destruct (key_eqb (JInt 1) k); [|discriminate]. now intros [= <-]. }
  assert (N : reference_map <> []) by discriminate.
  exact (proj1 (proj2 (proj2 (swap_references_extends_the_groups
                                [item "0000"
                                   (JObj [("provider_references",
                                           JArr [JInt 7; JInt 1]);
                                          ("provider_groups",
                                           JArr [example_group]);
                                          ("negotiated_prices",
                                           JArr [example_price])]);
                                 item "0001"
                                   (JObj [("provider_references",
                                           JArr [JInt 7]);
                                          ("negotiated_prices",
                                           JArr [example_price])])]
                                (Ok tt)))
                  reference_map N L) eq_refl).
Defined.

(** The plan of the small file. *)
Lemma get_plan_returns_the_members_before_the_section_witness :
  get_plan (parse example_document)
  = (Ok (JObj example_fields),
     mkParser (events_of "in_network" (JArr [example_item])
               ++ member_events "" []
               ++ [mkTriple "" "end_map" JNull]) Exhausted).
Proof.
  exact (proj2 get_plan_returns_the_members_before_the_section
           example_fields "in_network" (JArr [example_item]) []
           eq_refl eq_refl).
Defined.

(** The code row of the item of the small file, and of the same item
    with white space around its code. *)
Lemma code_row_from_dict_needs_three_strings_witness :
  code_row_from_dict repr_of_small_floats example_item
  = code_row_from_dict repr_of_small_floats
      (JObj [("billing_code", JStr " 0000 ");
             ("billing_code_type", JStr "TS-TST");
             ("billing_code_type_version", JStr "2022 ")]).
Proof.
  apply (proj1 (proj2 (proj2
           (code_row_from_dict_needs_three_strings repr_of_small_floats)))).
  intros k [<- | [<- | [<- | []]]]; do 2 eexists;
    (split; [reflexivity | split; reflexivity]).
Defined.

(** The plan row of the small file, whose plan has five of the eight
    keys. *)
Lemma plan_row_from_dict_any_dict_witness :
  exists h,
    plan_row_from_dict repr_of_small_floats (JObj example_fields)
    = Ok [("reporting_entity_name", JStr "acme");
          ("reporting_entity_type", JStr "insurer");
          ("plan_name", JStr "test plan");
          ("plan_id", JNull);
          ("plan_id_type", JNull);
          ("plan_market_type", JNull);
          ("last_updated_on", JStr "2022-07-01");
          ("version", JStr "1.0.0");
          ("plan_hash", JInt h)].
Proof.
  destruct (proj1 (plan_row_from_dict_any_dict repr_of_small_floats)
              example_fields) as (h & _ & E).
  exists h. exact E.
Defined.

(** A file of codes, and the same file with a blank line. *)
Lemma import_csv_to_set_rows_witness :
  import_csv_to_set [["CPT"; " 99213"]; ["J3490 "]; ["CPT"; "99213 "]]
  = Ok [Tuple ["CPT"; "99213"]; Single "J3490"]
  /\ import_csv_to_set [["CPT"; " 99213"]; []; ["J3490 "]] = Raise IndexError.
Proof.
  split; [reflexivity|].
  apply (proj1 (import_csv_to_set_rows [["CPT"; " 99213"]; []; ["J3490 "]])).
  right. left. reflexivity.
Defined.
